(** * The pixi manifest schema (schema/model.py)

    The source declares the manifest as a tree of pydantic models: every
    class lists its fields with a type annotation, an optional alias and an
    optional default, and inherits [extra = "forbid"] from [StrictBaseModel].
    This development embeds those declarations as schema values ([ty],
    [field]) and gives them the meaning the validation library gives them: a
    validator that maps a raw document to either a typed value or the list of
    every violation it found. *)

From Stdlib Require Import List String Ascii ZArith Bool Lia PeanoNat.
From Stdlib Require Import Floats.SpecFloat.
From Stdlib Require Import Sorting.Permutation.
Import ListNotations.
Open Scope string_scope.
Open Scope list_scope.

Set Implicit Arguments.
Set Warnings "-register-all".

(* ------------------------------------------------------------------ *)
(** ** Regular expressions used by [constr(pattern=...)] *)

Module Regex.

(** One item of a bracket expression: a literal, a range, or [\w]. *)
Inductive citem : Type :=
| CChar (c : ascii)
| CRange (lo hi : ascii)
| CWord.

Definition ascii_leb (a b : ascii) : bool :=
  (N_of_ascii a <=? N_of_ascii b)%N.

Definition between (lo hi c : ascii) : bool :=
  ascii_leb lo c && ascii_leb c hi.

(** [\w] on the characters this model has: letters, digits, underscore. *)
Definition is_word (c : ascii) : bool :=
  between "a" "z" c || between "A" "Z" c || between "0" "9" c
  || Ascii.eqb c "_".

Definition citem_matches (it : citem) (c : ascii) : bool :=
  match it with
  | CChar x => Ascii.eqb x c
  | CRange lo hi => between lo hi c
  | CWord => is_word c
  end.

Inductive re : Type :=
| Void
| Eps
| Lit (c : ascii)
| Cls (negated : bool) (items : list citem)
| Seq (r1 r2 : re)
| Alt (r1 r2 : re)
| Star (r : re).

Definition Plus (r : re) : re := Seq r (Star r).
Definition Opt (r : re) : re := Alt r Eps.
Definition Any : re := Cls true [].

Fixpoint Str (s : string) : re :=
  match s with
  | EmptyString => Eps
  | String c s' => Seq (Lit c) (Str s')
  end.

Definition cls_matches (negated : bool) (items : list citem) (c : ascii) : bool :=
  xorb negated (existsb (fun it => citem_matches it c) items).

Fixpoint nullable (r : re) : bool :=
  match r with
  | Void | Lit _ | Cls _ _ => false
  | Eps | Star _ => true
  | Seq a b => nullable a && nullable b
  | Alt a b => nullable a || nullable b
  end.

(** Constructors that drop [Void] and [Eps] where they are neutral. *)
Definition seq (a b : re) : re :=
  match a, b with
  | Void, _ => Void
  | _, Void => Void
  | Eps, _ => b
  | _, _ => Seq a b
  end.

Definition alt (a b : re) : re :=
  match a, b with
  | Void, _ => b
  | _, Void => a
  | _, _ => Alt a b
  end.

(** Brzozowski derivative: what is left of [r] after reading [c]. *)
Fixpoint deriv (c : ascii) (r : re) : re :=
  match r with
  | Void | Eps => Void
  | Lit x => if Ascii.eqb x c then Eps else Void
  | Cls n items => if cls_matches n items c then Eps else Void
  | Seq a b =>
      alt (seq (deriv c a) b) (if nullable a then deriv c b else Void)
  | Alt a b => alt (deriv c a) (deriv c b)
  | Star a => seq (deriv c a) (Star a)
  end.

Fixpoint fullmatch (r : re) (s : string) : bool :=
  match s with
  | EmptyString => nullable r
  | String c s' => fullmatch (deriv c r) s'
  end.

(** A pattern as written in the source: the body, and whether it opens with
    [^] and closes with [$]. *)
Record pattern : Type := Pattern {
  anchor_start : bool;
  body : re;
  anchor_end : bool
}.

(** The library searches the pattern anywhere in the string; only the
    anchors pin it to the ends. *)
Definition search (p : pattern) (s : string) : bool :=
  fullmatch
    (Seq (if anchor_start p then Eps else Star Any)
         (Seq (body p) (if anchor_end p then Eps else Star Any)))
    s.

End Regex.

(* ------------------------------------------------------------------ *)
(** ** Primitive constraints (model.py, lines 15-19) *)

(** [constr(min_length=..., pattern=...)]. *)
Record constr : Type := Constr {
  min_length : option nat;
  pattern : option Regex.pattern
}.

Definition backslash : ascii := "\"%char.

(** [NonEmptyStr = constr(min_length=1)] *)
Definition NonEmptyStr : constr := Constr (Some 1) None.

(** [PathNoBackslash = constr(pattern=r"^[^\\]+$")] *)
Definition PathNoBackslash_re : Regex.pattern :=
  Regex.Pattern true (Regex.Plus (Regex.Cls true [Regex.CChar backslash])) true.

Definition PathNoBackslash : constr := Constr None (Some PathNoBackslash_re).

(** [Glob = NonEmptyStr] *)
Definition Glob : constr := NonEmptyStr.

(** [GitUrl = constr(pattern=
      r"((git|ssh|http(s)?)|(git@[\w\.]+))(:(\/\/)?)([\w\.@:\/\\-~]+)")] *)
Definition GitUrl_re : Regex.pattern :=
  let open := Regex.Alt
    (Regex.Alt (Regex.Str "git")
       (Regex.Alt (Regex.Str "ssh")
          (Regex.Seq (Regex.Str "http") (Regex.Opt (Regex.Lit "s")))))
    (Regex.Seq (Regex.Str "git@")
       (Regex.Plus (Regex.Cls false [Regex.CWord; Regex.CChar "."]))) in
  let sep := Regex.Seq (Regex.Lit ":") (Regex.Opt (Regex.Str "//")) in
  let rest := Regex.Plus
    (Regex.Cls false
       [Regex.CWord; Regex.CChar "."; Regex.CChar "@"; Regex.CChar ":";
        Regex.CChar "/"; Regex.CRange backslash "~"]) in
  Regex.Pattern false (Regex.Seq open (Regex.Seq sep rest)) false.

Definition GitUrl : constr := Constr None (Some GitUrl_re).

(** [UnsignedInt = conint(ge=0)] and [SchemaVersion = int, ge=1, le=1] are
    declared further down with the field types. *)

(* ------------------------------------------------------------------ *)
(** ** Raw documents, validated values, violations *)

Definition float : Type := spec_float.
Definition float_zero : float := S754_zero false.

(** A raw document as the document parser hands it over: nested mappings
    (insertion ordered, string keys), sequences and scalars.  A string is its
    sequence of bytes; a mapping has each key once, and where a list repeats
    a key the first binding is the one a lookup finds. *)
Inductive value : Type :=
| VNone
| VBool (b : bool)
| VInt (z : Z)
| VFloat (f : float)
| VStr (s : string)
| VList (vs : list value)
| VDict (kvs : list (string * value)).

(** A validated value.  A model instance carries its class name and its
    attributes under their internal (Python) names, in declaration order. *)
Inductive data : Type :=
| DNone
| DBool (b : bool)
| DInt (z : Z)
| DFloat (f : float)
| DStr (s : string)
| DUrl (u : string)
| DList (ds : list data)
| DDict (kds : list (string * data))
| DModel (cls : string) (attrs : list (string * data)).

(** One step of a violation path: a mapping key, a sequence index, the key
    itself of a mapping entry, or the n-th alternative of a union. *)
Inductive seg : Type :=
| Key (k : string)
| Idx (i : nat)
| DictKey
| Member (i : nat).

Inductive kind : Type :=
| MissingField
| UnknownField
| ConstraintViolation
| ShapeMismatch
| TypeMismatch.

Record violation : Type := Violation {
  loc : list seg;
  vkind : kind
}.

Inductive result : Type :=
| Ok (d : data)
| Err (es : list violation).

(** Prefix every path with the segment under which the value was found. *)
Definition under (s : seg) (es : list violation) : list violation :=
  map (fun e => Violation (s :: loc e) (vkind e)) es.

(* ------------------------------------------------------------------ *)
(** ** Field types and model declarations *)

Record field_of (T : Type) : Type := Field {
  fname : string;            (* the attribute name in the class body *)
  alias : option string;     (* [alias="..."] *)
  ftype : T;                 (* the annotation *)
  default : option data      (* first argument of [Field]; [None] = required *)
}.

Inductive ty : Type :=
| TStr (c : constr)
| TInt (ge le : option Z)
| TFloat (gt : option float)
| TBool
| TUrl
| TList (t : ty)
| TDict (k : constr) (t : ty)
| TModel (cls : string) (fields : list (field_of ty))
| TUnion (ts : list ty)
| TOptional (t : ty).

Definition field : Type := field_of ty.

(** The key under which a field is looked up in the raw mapping: its alias
    when it has one (the models do not set [populate_by_name]). *)
Definition field_key (f : field) : string :=
  match alias f with
  | Some a => a
  | None => fname f
  end.

Definition is_required (f : field) : bool :=
  match default f with
  | Some _ => false
  | None => true
  end.

(* ------------------------------------------------------------------ *)
(** ** Conversions of the validation library

    What the library converts between scalar kinds (digits in a string to an
    integer, an integer to a float, ...) and how it parses a URL is not part
    of model.py.  These functions are parameters of the development; every
    theorem holds for all of them. *)

Class Lax : Type := {
  (** conversions tried in lax mode only, on a scalar of another kind *)
  lax_int : value -> option Z;
  lax_float : value -> option float;
  lax_bool : value -> option bool;
  (** integers are valid floats in both modes when they convert *)
  int_as_float : Z -> option float;
  (** [AnyHttpUrl]: parse, and return the normalised URL *)
  http_url : string -> option string;
  (** whether a model accepts a mapping while a union is probing its
      alternatives in strict mode *)
  strict_model_from_dict : bool
}.

(* ------------------------------------------------------------------ *)
(** ** Scalar validators *)

Definition type_error : result := Err [Violation [] TypeMismatch].
Definition constraint_error : result := Err [Violation [] ConstraintViolation].

Definition long_enough (c : constr) (s : string) : bool :=
  match min_length c with
  | Some n => (n <=? String.length s)%nat
  | None => true
  end.

Definition matches_pattern (c : constr) (s : string) : bool :=
  match pattern c with
  | Some p => Regex.search p s
  | None => true
  end.

(** A constrained string is returned unchanged when it satisfies the
    constraint. *)
Definition satisfies (c : constr) (s : string) : bool :=
  long_enough c s && matches_pattern c s.

Definition validate_str (c : constr) (v : value) : result :=
  match v with
  | VStr s => if satisfies c s then Ok (DStr s) else constraint_error
  | _ => type_error
  end.

Definition in_range (ge le : option Z) (z : Z) : bool :=
  match ge with Some lo => (lo <=? z)%Z | None => true end
  && match le with Some hi => (z <=? hi)%Z | None => true end.

Definition greater_than (gt : option float) (f : float) : bool :=
  match gt with
  | Some bound => SFltb bound f
  | None => true
  end.

Definition is_scalar (v : value) : bool :=
  match v with
  | VBool _ | VInt _ | VFloat _ | VStr _ => true
  | _ => false
  end.

Section Validation.

Context {L : Lax}.

Definition int_result (ge le : option Z) (z : Z) : result :=
  if in_range ge le z then Ok (DInt z) else constraint_error.

Definition float_result (gt : option float) (f : float) : result :=
  if greater_than gt f then Ok (DFloat f) else constraint_error.

Definition validate_int (strict : bool) (ge le : option Z) (v : value) : result :=
  match v with
  | VInt z => int_result ge le z
  | _ =>
      if strict || negb (is_scalar v) then type_error
      else match lax_int v with
           | Some z => int_result ge le z
           | None => type_error
           end
  end.

Definition validate_float (strict : bool) (gt : option float) (v : value) : result :=
  match v with
  | VFloat f => float_result gt f
  | VInt z =>
      match int_as_float z with
      | Some f => float_result gt f
      | None => type_error
      end
  | _ =>
      if strict || negb (is_scalar v) then type_error
      else match lax_float v with
           | Some f => float_result gt f
           | None => type_error
           end
  end.

Definition validate_bool (strict : bool) (v : value) : result :=
  match v with
  | VBool b => Ok (DBool b)
  | _ =>
      if strict || negb (is_scalar v) then type_error
      else match lax_bool v with
           | Some b => Ok (DBool b)
           | None => type_error
           end
  end.

Definition validate_url (v : value) : result :=
  match v with
  | VStr s =>
      match http_url s with
      | Some u => Ok (DUrl u)
      | None => constraint_error
      end
  | _ => type_error
  end.

(* ---------------------------------------------------------------- *)
(** ** Containers, models and unions

    How the library reads the declarations:
    - a sequence or a mapping validates every element and collects the
      violations of all of them;
    - a model looks up every declared field, in declaration order, under its
      key, validates the value it finds or falls back to the default, then
      reports every key of the input that no field claims; nothing is raised
      at the first violation;
    - a union first probes its alternatives in strict mode, left to right,
      and takes the first that accepts; failing that it probes them in lax
      mode; when none accepts it reports the violations of all of them;
    - [T | None] accepts [None] and otherwise validates as [T]. *)

(** What validating one element, entry or field gives: the validated part,
    or the violations found in it. *)
Definition outcome (A : Type) : Type := (A + list violation)%type.

Fixpoint goods {A : Type} (os : list (outcome A)) : list A :=
  match os with
  | [] => []
  | inl a :: os' => a :: goods os'
  | inr _ :: os' => goods os'
  end.

Fixpoint bads {A : Type} (os : list (outcome A)) : list violation :=
  match os with
  | [] => []
  | inl _ :: os' => bads os'
  | inr es :: os' => es ++ bads os'
  end.

(** Every part is validated; the value is built only when no part failed. *)
Definition assemble {A : Type} (build : list A -> data)
    (os : list (outcome A)) (more : list violation) : result :=
  match bads os ++ more with
  | [] => Ok (build (goods os))
  | es => Err es
  end.

Definition item_outcome (check : value -> result) (iv : nat * value) : outcome data :=
  match check (snd iv) with
  | Ok d => inl d
  | Err es => inr (under (Idx (fst iv)) es)
  end.

Definition indexed {A : Type} (l : list A) : list (nat * A) :=
  combine (seq 0 (List.length l)) l.

Definition entry_outcome (k : constr) (check : value -> result)
    (kv : string * value) : outcome (string * data) :=
  let key_es :=
    if satisfies k (fst kv) then []
    else [Violation [Key (fst kv); DictKey] ConstraintViolation] in
  match check (snd kv) with
  | Ok d =>
      match key_es with
      | [] => inl (fst kv, d)
      | _ => inr key_es
      end
  | Err es => inr (key_es ++ under (Key (fst kv)) es)
  end.

Fixpoint lookup {A : Type} (k : string) (kvs : list (string * A)) : option A :=
  match kvs with
  | [] => None
  | (k', v) :: kvs' => if String.eqb k k' then Some v else lookup k kvs'
  end.

Definition missing (k : string) : violation := Violation [Key k] MissingField.
Definition unknown (k : string) : violation := Violation [Key k] UnknownField.

(** One declared field: looked up under its key; validated when present,
    defaulted or reported missing when absent. *)
Definition field_outcome (check : ty -> value -> result)
    (kvs : list (string * value)) (f : field) : outcome (string * data) :=
  match lookup (field_key f) kvs with
  | Some v =>
      match check (ftype f) v with
      | Ok d => inl (fname f, d)
      | Err es => inr (under (Key (field_key f)) es)
      end
  | None =>
      match default f with
      | Some d => inl (fname f, d)
      | None => inr [missing (field_key f)]
      end
  end.

Definition declared (fields : list field) (k : string) : bool :=
  existsb (fun f => String.eqb k (field_key f)) fields.

(** [extra = "forbid"]: every key of the input that no field claims. *)
Definition extras (fields : list field) (kvs : list (string * value)) : list violation :=
  flat_map (fun kv => if declared fields (fst kv) then [] else [unknown (fst kv)]) kvs.

(** The first alternative that accepts, or the violations of all of them,
    each set under the alternative's position. *)
Fixpoint first_ok (i : nat) (rs : list result) : result :=
  match rs with
  | [] => Err []
  | Ok d :: _ => Ok d
  | Err es :: rs' =>
      match first_ok (S i) rs' with
      | Ok d => Ok d
      | Err es' => Err (under (Member i) es ++ es')
      end
  end.

Fixpoint validate (strict : bool) (t : ty) (v : value) {struct t} : result :=
  match t with
  | TStr c => validate_str c v
  | TInt ge le => validate_int strict ge le v
  | TFloat gt => validate_float strict gt v
  | TBool => validate_bool strict v
  | TUrl => validate_url v
  | TList t' =>
      match v with
      | VList vs =>
          assemble DList (map (item_outcome (validate strict t')) (indexed vs)) []
      | _ => type_error
      end
  | TDict k t' =>
      match v with
      | VDict kvs =>
          assemble DDict (map (entry_outcome k (validate strict t')) kvs) []
      | _ => type_error
      end
  | TModel cls fields =>
      match v with
      | VDict kvs =>
          if strict && negb strict_model_from_dict then type_error
          else
            assemble (DModel cls)
              (map (field_outcome (validate strict) kvs) fields)
              (extras fields kvs)
      | _ => type_error
      end
  | TUnion ts =>
      match first_ok 0 (map (fun t' => validate true t' v) ts) with
      | Ok d => Ok d
      | Err es =>
          if strict then Err es
          else first_ok 0 (map (fun t' => validate false t' v) ts)
      end
  | TOptional t' =>
      match v with
      | VNone => Ok DNone
      | _ => validate strict t' v
      end
  end.

(** Validation of a document starts in lax mode. *)
Definition model_validate (t : ty) (doc : value) : result := validate false t doc.

End Validation.

(* ------------------------------------------------------------------ *)
(** ** The declarations of model.py *)

(** [x: T = Field(description=...)] or [Field(..., ...)]: no default. *)
Definition required (name : string) (t : ty) : field := Field name None t None.

(** [x: T = Field(None, ...)]: the default is [None]. *)
Definition defaulted (name : string) (t : ty) : field := Field name None t (Some DNone).

(** [x: T = Field(None, alias="...", ...)]. *)
Definition aliased (name key : string) (t : ty) : field :=
  Field name (Some key) t (Some DNone).

Definition UnsignedInt : ty := TInt (Some 0%Z) None.
Definition PositiveFloat : ty := TFloat (Some float_zero).
Definition AnyHttpUrl : ty := TUrl.
Definition SchemaVersion : ty := TInt (Some 1%Z) (Some 1%Z).

(** *** Project section *)

Definition ChannelInlineTable : ty :=
  TModel "ChannelInlineTable"
    [ required "channel" (TUnion [TStr NonEmptyStr; AnyHttpUrl]);
      defaulted "priority" (TOptional (TInt None None)) ].

Definition Channel : ty := TUnion [TStr NonEmptyStr; ChannelInlineTable].

Definition Project : ty :=
  TModel "Project"
    [ required "name" (TStr NonEmptyStr);
      defaulted "version" (TOptional (TStr NonEmptyStr));
      defaulted "description" (TOptional (TStr NonEmptyStr));
      defaulted "authors" (TOptional (TList (TStr NonEmptyStr)));
      defaulted "channels" (TList Channel);
      required "platforms" (TList (TStr NonEmptyStr));
      defaulted "license" (TOptional (TStr NonEmptyStr));
      defaulted "license_file" (TOptional (TStr PathNoBackslash));
      defaulted "readme" (TOptional (TStr PathNoBackslash));
      defaulted "homepage" (TOptional AnyHttpUrl);
      defaulted "repository" (TOptional AnyHttpUrl);
      defaulted "documentation" (TOptional AnyHttpUrl) ].

(** *** Dependencies section *)

Definition MatchspecTable : ty :=
  TModel "MatchspecTable"
    [ defaulted "version" (TOptional (TStr NonEmptyStr));
      defaulted "build" (TOptional (TStr NonEmptyStr));
      defaulted "channel" (TOptional (TStr NonEmptyStr)) ].

Definition MatchSpec : ty := TUnion [TStr NonEmptyStr; MatchspecTable].
Definition CondaPackageName : constr := NonEmptyStr.

Definition PyPIRequirementTable : ty :=
  TModel "PyPIRequirementTable"
    [ defaulted "version" (TOptional (TStr NonEmptyStr));
      defaulted "extras" (TOptional (TList (TStr NonEmptyStr))) ].

Definition PyPIRequirement : ty := TUnion [TStr NonEmptyStr; PyPIRequirementTable].
Definition PyPIPackageName : constr := NonEmptyStr.

(** [Dependencies = dict[CondaPackageName, MatchSpec] | None] *)
Definition Dependencies : ty := TOptional (TDict CondaPackageName MatchSpec).

Definition DependenciesField : field := defaulted "dependencies" Dependencies.
Definition HostDependenciesField : field :=
  aliased "host_dependencies" "host-dependencies" Dependencies.
Definition BuildDependenciesField : field :=
  aliased "build_dependencies" "build-dependencies" Dependencies.
Definition PypiDependenciesField : field :=
  aliased "pypi_dependencies" "pypi-dependencies"
    (TOptional (TDict PyPIPackageName PyPIRequirement)).

(** *** Task section *)

Definition TaskName : constr := NonEmptyStr.

Definition TaskInlineTable : ty :=
  TModel "TaskInlineTable"
    [ defaulted "cmd" (TOptional (TUnion [TList (TStr NonEmptyStr); TStr NonEmptyStr]));
      defaulted "cwd" (TOptional (TStr PathNoBackslash));
      defaulted "depends_on"
        (TOptional (TUnion [TList (TStr NonEmptyStr); TStr NonEmptyStr])) ].

Definition TasksField : field :=
  defaulted "tasks"
    (TOptional (TDict TaskName (TUnion [TaskInlineTable; TStr NonEmptyStr]))).

(** *** System requirements *)

Definition LibcFamily : ty :=
  TModel "LibcFamily"
    [ defaulted "family" (TOptional (TStr NonEmptyStr));
      defaulted "version" (TOptional (TUnion [TFloat None; TStr NonEmptyStr])) ].

Definition SystemRequirements : ty :=
  TModel "SystemRequirements"
    [ defaulted "linux" (TOptional (TUnion [PositiveFloat; TStr NonEmptyStr]));
      defaulted "unix" (TOptional (TUnion [TBool; TStr NonEmptyStr]));
      defaulted "libc"
        (TOptional (TUnion [LibcFamily; TFloat None; TStr NonEmptyStr]));
      defaulted "cuda" (TOptional (TUnion [TFloat None; TStr NonEmptyStr]));
      defaulted "archspec" (TOptional (TStr NonEmptyStr));
      defaulted "macos" (TOptional (TUnion [PositiveFloat; TStr NonEmptyStr])) ].

Definition SystemRequirementsField : field :=
  aliased "system_requirements" "system-requirements" (TOptional SystemRequirements).

(** *** Environment section *)

Definition EnvironmentName : constr := NonEmptyStr.
Definition FeatureName : constr := NonEmptyStr.
Definition SolveGroupName : constr := NonEmptyStr.

Definition Environment : ty :=
  TModel "Environment"
    [ defaulted "features" (TOptional (TList (TStr FeatureName)));
      aliased "solve_group" "solve-group" (TOptional (TStr SolveGroupName)) ].

(** *** Activation section *)

Definition Activation : ty :=
  TModel "Activation"
    [ defaulted "scripts" (TOptional (TList (TStr NonEmptyStr))) ].

Definition ActivationField : field := defaulted "activation" (TOptional Activation).

(** *** Target section *)

Definition TargetName : constr := NonEmptyStr.

Definition Target : ty :=
  TModel "Target"
    [ DependenciesField;
      HostDependenciesField;
      BuildDependenciesField;
      PypiDependenciesField;
      TasksField;
      ActivationField ].

Definition TargetField : field :=
  defaulted "target" (TOptional (TDict TargetName Target)).

(** *** Feature section *)

Definition Feature : ty :=
  TModel "Feature"
    [ defaulted "channels" (TOptional (TList Channel));
      defaulted "platforms" (TOptional (TList (TStr NonEmptyStr)));
      DependenciesField;
      HostDependenciesField;
      BuildDependenciesField;
      PypiDependenciesField;
      TasksField;
      ActivationField;
      SystemRequirementsField;
      TargetField ].

(** *** The manifest itself *)

Definition BaseManifest : ty :=
  TModel "BaseManifest"
    [ required "project" Project;
      DependenciesField;
      HostDependenciesField;
      BuildDependenciesField;
      PypiDependenciesField;
      TasksField;
      SystemRequirementsField;
      defaulted "environments"
        (TOptional (TDict EnvironmentName (TUnion [Environment; TList (TStr FeatureName)])));
      defaulted "feature" (TOptional (TDict FeatureName Feature));
      ActivationField;
      TargetField ].

(** Every class of the module that derives from [StrictBaseModel]. *)
Definition entities : list ty :=
  [ ChannelInlineTable; Project; MatchspecTable; PyPIRequirementTable;
    TaskInlineTable; LibcFamily; SystemRequirements; Environment; Activation;
    Target; Feature; BaseManifest ].

Definition fields_of (t : ty) : list field :=
  match t with
  | TModel _ fields => fields
  | _ => []
  end.

(** The type a class declares for an attribute. *)
Definition field_type (t : ty) (name : string) : option ty :=
  option_map (@ftype ty) (find (fun f => String.eqb name (fname f)) (fields_of t)).

(** The attribute of a validated model instance. *)
Definition attr (name : string) (d : data) : option data :=
  match d with
  | DModel _ attrs => lookup name attrs
  | _ => None
  end.

(** Every string constraint a type mentions, mapping keys included. *)
Fixpoint constrs (t : ty) : list constr :=
  match t with
  | TStr c => [c]
  | TInt _ _ | TFloat _ | TBool | TUrl => []
  | TList t' | TOptional t' => constrs t'
  | TDict k t' => k :: constrs t'
  | TModel _ fields => flat_map (fun f => constrs (ftype f)) fields
  | TUnion ts => flat_map constrs ts
  end.

(* ------------------------------------------------------------------ *)
(** ** URLs

    [AnyHttpUrl] accepts absolute URLs whose scheme is http or https.  The
    scheme of a URL string is read the way the URL standard reads it: tabs
    and newlines are dropped, leading spaces and control characters are
    skipped, then letters, digits, [+], [-] and [.] run up to the first
    colon. *)

Definition is_alpha (c : ascii) : bool :=
  Regex.between "a" "z" c || Regex.between "A" "Z" c.

Definition is_digit (c : ascii) : bool := Regex.between "0" "9" c.

Definition lower (c : ascii) : ascii :=
  if Regex.between "A" "Z" c then ascii_of_N (N_of_ascii c + 32) else c.

Definition is_tab_or_newline (c : ascii) : bool :=
  let n := N_of_ascii c in ((n =? 9) || (n =? 10) || (n =? 13))%N.

Definition is_c0_or_space (c : ascii) : bool := (N_of_ascii c <=? 32)%N.

Fixpoint remove_chars (p : ascii -> bool) (s : string) : string :=
  match s with
  | EmptyString => EmptyString
  | String c s' => if p c then remove_chars p s' else String c (remove_chars p s')
  end.

Fixpoint skip_chars (p : ascii -> bool) (s : string) : string :=
  match s with
  | EmptyString => EmptyString
  | String c s' => if p c then skip_chars p s' else s
  end.

Fixpoint scheme_run (s : string) : option string :=
  match s with
  | EmptyString => None
  | String c s' =>
      if Ascii.eqb c ":" then Some EmptyString
      else if is_alpha c || is_digit c || Ascii.eqb c "+" || Ascii.eqb c "-"
              || Ascii.eqb c "."
      then option_map (String (lower c)) (scheme_run s')
      else None
  end.

Definition url_scheme (s : string) : option string :=
  match remove_chars is_tab_or_newline (skip_chars is_c0_or_space s) with
  | EmptyString => None
  | String c s' => if is_alpha c then scheme_run (String c s') else None
  end.

Definition is_http_scheme (o : option string) : bool :=
  match o with
  | Some sch => String.eqb sch "http" || String.eqb sch "https"
  | None => false
  end.

(** What the development assumes of the URL parser: it accepts only strings
    with an http or https scheme, and a URL it returns parses to itself. *)
Definition http_only (L : Lax) : Prop :=
  forall s u, http_url s = Some u -> is_http_scheme (url_scheme s) = true.

Definition url_stable (L : Lax) : Prop :=
  forall s u, http_url s = Some u -> http_url u = Some u.

(** What follows the colon of the scheme. *)
Fixpoint scheme_rest (s : string) : option string :=
  match s with
  | EmptyString => None
  | String c s' =>
      if Ascii.eqb c ":" then Some s'
      else if is_alpha c || is_digit c || Ascii.eqb c "+" || Ascii.eqb c "-"
              || Ascii.eqb c "."
      then scheme_rest s'
      else None
  end.

Definition is_slash (c : ascii) : bool := Ascii.eqb c "/" || Ascii.eqb c backslash.

(** Modelled from the spec: the parser of [AnyHttpUrl] belongs to the
    validation library and is not in model.py; the spec calls a URL "a string
    that parses as an absolute HTTP/HTTPS URL".  An absolute URL names a
    host: after the scheme's colon and any run of slashes and backslashes
    the string goes on, and not with a query or a fragment. *)
Definition has_authority (s : string) : bool :=
  match remove_chars is_tab_or_newline (skip_chars is_c0_or_space s) with
  | EmptyString => false
  | String c s' =>
      if is_alpha c then
        match scheme_rest (String c s') with
        | Some r =>
            match skip_chars is_slash r with
            | EmptyString => false
            | String d _ => negb (Ascii.eqb d "?" || Ascii.eqb d "#")
            end
        | None => false
        end
      else false
  end.

(** Modelled from the spec: the parser of [AnyHttpUrl] is not in model.py.
    It accepts no URL without a host. *)
Definition http_needs_host (L : Lax) : Prop :=
  forall s u, http_url s = Some u -> has_authority s = true.

(** A small instance of the library used to run the validator.  It stands in
    for the library only where a theorem is run on a document: booleans count
    as the integers 0 and 1 and back, integers convert to binary64 with
    rounding, strings are not parsed as numbers, and a URL is a string with
    an http or https scheme and a host, taken as it is.  No theorem depends
    on it. *)
Definition plain_int_as_float (z : Z) : option float :=
  match binary_normalize 53 1024 z 0 false with
  | S754_infinity _ | S754_nan => None
  | f => Some f
  end.

Definition plain_lax : Lax := {|
  lax_int := fun v => match v with
                      | VBool b => Some (if b then 1%Z else 0%Z)
                      | _ => None
                      end;
  lax_float := fun _ => None;
  lax_bool := fun v => match v with
                       | VInt 0%Z => Some false
                       | VInt 1%Z => Some true
                       | _ => None
                       end;
  int_as_float := plain_int_as_float;
  http_url := fun s => if is_http_scheme (url_scheme s) && has_authority s
                       then Some s else None;
  strict_model_from_dict := true
|}.

(* ------------------------------------------------------------------ *)
(** ** Serialisation to the raw document form *)

(** The static table from internal attribute names to external spellings,
    read off the declarations. *)
Fixpoint aliases (t : ty) : list (string * string) :=
  match t with
  | TStr _ | TInt _ _ | TFloat _ | TBool | TUrl => []
  | TList t' | TDict _ t' | TOptional t' => aliases t'
  | TModel _ fields =>
      flat_map (fun f => match alias f with
                         | Some a => [(fname f, a)]
                         | None => []
                         end ++ aliases (ftype f)) fields
  | TUnion ts => flat_map aliases ts
  end.

Definition alias_table : list (string * string) := aliases BaseManifest.

Definition external (name : string) : string :=
  match lookup name alias_table with
  | Some a => a
  | None => name
  end.

(** Modelled from the spec: model.py has no serialiser.  The raw document
    form addresses every field by its external spelling, and a field in the
    absent state is left out of its mapping (a raw document has no other way
    to say absent); everything else is written back as it is, a URL as its
    string. *)
Fixpoint dump (d : data) : value :=
  match d with
  | DNone => VNone
  | DBool b => VBool b
  | DInt z => VInt z
  | DFloat f => VFloat f
  | DStr s => VStr s
  | DUrl u => VStr u
  | DList ds => VList (map dump ds)
  | DDict kds => VDict (map (fun kd => (fst kd, dump (snd kd))) kds)
  | DModel _ attrs =>
      VDict (flat_map (fun kd => match snd kd with
                                 | DNone => []
                                 | _ => [(external (fst kd), dump (snd kd))]
                                 end) attrs)
  end.

Fixpoint contains (c : ascii) (s : string) : bool :=
  match s with
  | EmptyString => false
  | String x s' => Ascii.eqb c x || contains c s'
  end.

Definition is_empty (s : string) : bool :=
  match s with
  | EmptyString => true
  | String _ _ => false
  end.

(** A union with no alternative cannot be declared; the models have none. *)
Fixpoint no_empty_union (t : ty) : bool :=
  match t with
  | TStr _ | TInt _ _ | TFloat _ | TBool | TUrl => true
  | TList t' | TDict _ t' | TOptional t' => no_empty_union t'
  | TModel _ fields => forallb (fun f => no_empty_union (ftype f)) fields
  | TUnion ts =>
      match ts with
      | [] => false
      | _ => forallb no_empty_union ts
      end
  end.

(** What a declared field contributes to a model instance, if it is valid. *)
Definition field_data {L : Lax} (strict : bool) (kvs : list (string * value))
    (f : field) : option data :=
  match lookup (field_key f) kvs with
  | Some x =>
      match validate strict (ftype f) x with
      | Ok d => Some d
      | Err _ => None
      end
  | None => default f
  end.

Fixpoint distinct (l : list string) : bool :=
  match l with
  | [] => true
  | x :: l' => negb (existsb (String.eqb x) l') && distinct l'
  end.

(** The documents of the scenarios. *)
Definition demo_project : value :=
  VDict [("name", VStr "demo");
         ("platforms", VList [VStr "linux-64"]);
         ("channels", VList [VStr "conda-forge"])].

Definition project_without_channels : value :=
  VDict [("name", VStr "demo"); ("platforms", VList [VStr "linux-64"])].

Definition scenario1 : value := VDict [("project", demo_project)].

Definition scenario2 : value :=
  VDict [("project", VDict [("platforms", VList [VStr "linux-64"])])].

Definition scp_style_url : string := "git@github.com:owner/repo.git".

Definition sysreq_names : list string :=
  ["linux"; "unix"; "libc"; "cuda"; "archspec"; "macos"].

(** The SystemRequirements instance whose only set attribute is [k]. *)
Definition sysreq (k : string) (d : data) : data :=
  DModel "SystemRequirements"
    (map (fun n => (n, if String.eqb n k then d else DNone)) sysreq_names).

(** What validation reports for a value that fits no alternative of a
    two-way union stored under key [k]: one violation per alternative. *)
Definition rejected_by_both (k : string) (k0 k1 : kind) : result :=
  Err [Violation [Key k; Member 0] k0; Violation [Key k; Member 1] k1].

Definition minus_one : float := S754_finite true 1 0.

Definition field_value {L : Lax} (strict : bool) (kvs : list (string * value))
    (f : field) : data :=
  match field_data strict kvs f with
  | Some d => d
  | None => DNone
  end.

Definition has_data {L : Lax} (strict : bool) (kvs : list (string * value))
    (f : field) : bool :=
  match field_data strict kvs f with
  | Some _ => true
  | None => false
  end.

(** What is checked once for every class: attribute names and keys are not
    repeated, no union is empty, every default is [None], and the internal
    name of an aliased attribute is not a key of the class. *)
Definition default_is_None (f : field) : bool :=
  match default f with
  | None | Some DNone => true
  | Some _ => false
  end.

Definition name_is_no_key (fields : list field) (f : field) : bool :=
  match alias f with
  | Some _ => negb (existsb (fun g => String.eqb (fname f) (field_key g)) fields)
  | None => true
  end.

Definition well_declared (t : ty) : bool :=
  distinct (map (@fname ty) (fields_of t))
  && distinct (map field_key (fields_of t))
  && no_empty_union t
  && forallb default_is_None (fields_of t)
  && forallb (name_is_no_key (fields_of t)) (fields_of t).

(** The field-level problems of a mapping validated as a model: required
    fields that are absent, present fields whose value is invalid, and keys
    that no field declares. *)
Definition absent (kvs : list (string * value)) (f : field) : bool :=
  match lookup (field_key f) kvs with
  | Some _ => false
  | None => true
  end.

Definition is_missing (kvs : list (string * value)) (f : field) : bool :=
  is_required f && absent kvs f.

Definition is_invalid {L : Lax} (kvs : list (string * value)) (f : field) : bool :=
  match lookup (field_key f) kvs with
  | Some x =>
      match validate false (ftype f) x with
      | Ok _ => false
      | Err _ => true
      end
  | None => false
  end.

Definition is_unknown (fields : list field) (kv : string * value) : bool :=
  negb (declared fields (fst kv)).

Definition problems {L : Lax} (t : ty) (kvs : list (string * value)) : nat :=
  List.length (filter (is_missing kvs) (fields_of t))
  + List.length (filter (is_invalid kvs) (fields_of t))
  + List.length (filter (is_unknown (fields_of t)) kvs).

(** The fields of the model that carry an alias. *)
Definition aliased_fields : list (string * string) :=
  [ ("host_dependencies", "host-dependencies");
    ("build_dependencies", "build-dependencies");
    ("pypi_dependencies", "pypi-dependencies");
    ("system_requirements", "system-requirements");
    ("solve_group", "solve-group") ].

Definition project_with_repository (url : string) : value :=
  VDict [("name", VStr "demo");
         ("platforms", VList [VStr "linux-64"]);
         ("channels", VList [VStr "conda-forge"]);
         ("repository", VStr url)].

(* ------------------------------------------------------------------ *)
(** ** Shapes, and unions that serialisation cannot confuse *)

(** The structural kind of a raw value. *)
Inductive shape : Type :=
| SNone | SBool | SInt | SFloat | SStr | SList | SDict.

Definition shape_of (v : value) : shape :=
  match v with
  | VNone => SNone
  | VBool _ => SBool
  | VInt _ => SInt
  | VFloat _ => SFloat
  | VStr _ => SStr
  | VList _ => SList
  | VDict _ => SDict
  end.

Definition shape_eqb (a b : shape) : bool :=
  match a, b with
  | SNone, SNone | SBool, SBool | SInt, SInt | SFloat, SFloat
  | SStr, SStr | SList, SList | SDict, SDict => true
  | _, _ => false
  end.

Definition has_shape (s : shape) (l : list shape) : bool := existsb (shape_eqb s) l.

Definition disjoint (l1 l2 : list shape) : bool :=
  forallb (fun s => negb (has_shape s l2)) l1.

(** The shapes a type can accept, in strict and in lax mode. *)
Fixpoint shapes (strict : bool) (t : ty) : list shape :=
  match t with
  | TStr _ | TUrl => [SStr]
  | TInt _ _ => if strict then [SInt] else [SInt; SBool; SFloat; SStr]
  | TFloat _ => if strict then [SFloat; SInt] else [SFloat; SInt; SBool; SStr]
  | TBool => if strict then [SBool] else [SBool; SInt; SFloat; SStr]
  | TList _ => [SList]
  | TDict _ _ | TModel _ _ => [SDict]
  | TUnion ts => flat_map (shapes strict) ts
  | TOptional t' => SNone :: shapes strict t'
  end.

(** The shapes the serialised values of a type can have. *)
Fixpoint out_shapes (t : ty) : list shape :=
  match t with
  | TStr _ | TUrl => [SStr]
  | TInt _ _ => [SInt]
  | TFloat _ => [SFloat]
  | TBool => [SBool]
  | TList _ => [SList]
  | TDict _ _ | TModel _ _ => [SDict]
  | TUnion ts => flat_map out_shapes ts
  | TOptional t' => SNone :: out_shapes t'
  end.

Fixpoint has_model (t : ty) : bool :=
  match t with
  | TStr _ | TInt _ _ | TFloat _ | TBool | TUrl => false
  | TList t' | TDict _ t' | TOptional t' => has_model t'
  | TModel _ _ => true
  | TUnion ts => existsb has_model ts
  end.

(** [NonEmptyStr | AnyHttpUrl]: every string the URL alternative accepts is
    non-empty, so the string alternative before it takes it first. *)
Definition shadows (t u : ty) : bool :=
  match t, u with
  | TStr (Constr (Some 1) None), TUrl => true
  | _, _ => false
  end.

(** An alternative [u] with the alternatives [before] and [after] it: what
    [u] serialises to is taken by no alternative before it in strict mode,
    and when [u] holds a model, by none before it in lax mode and none after
    it in strict mode. *)
Definition alternative_ok (before : list ty) (u : ty) (after : list ty) : bool :=
  forallb (fun t => shadows t u || disjoint (out_shapes u) (shapes true t)) before
  && (negb (has_model u)
      || (forallb (fun t => disjoint (out_shapes u) (shapes false t)) before
          && forallb (fun t => disjoint (out_shapes u) (shapes true t)) after)).

Fixpoint alternatives_ok (before ts : list ty) : bool :=
  match ts with
  | [] => true
  | u :: after =>
      alternative_ok before u after && alternatives_ok (before ++ [u]) after
  end.

(** A field survives serialisation when its key is its external spelling and
    when leaving it out gives back what it held: the default is [None], or
    the field is required and its type has no [None]. *)
Definition field_ready (f : field) : bool :=
  String.eqb (external (fname f)) (field_key f)
  && match default f with
     | Some DNone => true
     | Some _ => false
     | None => negb (has_shape SNone (out_shapes (ftype f)))
     end.

Fixpoint roundtrip_ready (t : ty) : bool :=
  match t with
  | TStr _ | TInt _ _ | TFloat _ | TBool | TUrl => true
  | TList t' | TDict _ t' | TOptional t' => roundtrip_ready t'
  | TModel _ fields =>
      distinct (map field_key fields)
      && forallb field_ready fields
      && forallb (fun f => roundtrip_ready (ftype f)) fields
  | TUnion ts => alternatives_ok [] ts && forallb roundtrip_ready ts
  end.

(** Strict validation of a serialised value succeeds as soon as no model
    stands in the way. *)
Definition strict_ok {L : Lax} (t : ty) : bool :=
  strict_model_from_dict || negb (has_model t).

(** The entry a model attribute serialises to: none when it is absent. *)
Definition dumped_value (d : data) : option value :=
  match d with
  | DNone => None
  | _ => Some (dump d)
  end.

Definition entry_of (k : string) (d : data) : list (string * value) :=
  match dumped_value d with
  | Some x => [(k, x)]
  | None => []
  end.

(** The serialised mapping of a model whose attribute values are given by
    [F]. *)
Definition dumped (F : field -> data) (fields : list field) : list (string * value) :=
  flat_map (fun f => entry_of (external (fname f)) (F f)) fields.

(** A manifest that uses aliased keys, unions, a URL and nested models. *)
Definition sample_manifest : value :=
  VDict
    [ ("project",
       VDict [ ("name", VStr "demo");
               ("platforms", VList [VStr "linux-64"; VStr "osx-arm64"]);
               ("channels",
                VList [ VStr "conda-forge";
                        VDict [("channel", VStr "pytorch"); ("priority", VInt 1)] ]);
               ("homepage", VStr "https://example.org/demo") ]);
      ("dependencies", VDict [("python", VStr "3.11")]);
      ("host-dependencies",
       VDict [("numpy", VDict [("version", VStr ">=1.26"); ("build", VStr "py311")])]);
      ("tasks",
       VDict [ ("build", VStr "make");
               ("test", VDict [("cmd", VList [VStr "pytest"; VStr "-q"]);
                               ("depends_on", VStr "build")]) ]);
      ("system-requirements",
       VDict [ ("linux", VStr "5.10"); ("unix", VBool true);
               ("libc", VDict [("family", VStr "glibc"); ("version", VStr "2.17")]) ]);
      ("environments",
       VDict [ ("default", VList [VStr "py"]);
               ("ci", VDict [("features", VList [VStr "py"]);
                             ("solve-group", VStr "main")]) ]);
      ("feature",
       VDict [ ("py",
                VDict [ ("pypi-dependencies", VDict [("requests", VStr "*")]);
                        ("target",
                         VDict [("linux-64",
                                 VDict [("activation",
                                         VDict [("scripts", VList [VStr "env.sh"])])])]) ]) ]) ].

(** The parts of the path pattern: the bracket expression, and what is left
    of the pattern once a first character has been read. *)
Definition no_backslash : Regex.re := Regex.Cls true [Regex.CChar backslash].
Definition path_tail : Regex.re := Regex.Seq (Regex.Star no_backslash) Regex.Eps.

(** A validation that reports violations. *)
Definition fails (r : result) : Prop := exists es, r = Err es.

(* ------------------------------------------------------------------ *)
(** ** Induction over field types, through the lists they nest in *)

Unset Implicit Arguments.

Section TyInduction.

Variable P : ty -> Prop.
Hypothesis HStr : forall c, P (TStr c).
Hypothesis HInt : forall ge le, P (TInt ge le).
Hypothesis HFloat : forall gt, P (TFloat gt).
Hypothesis HBool : P TBool.
Hypothesis HUrl : P TUrl.
Hypothesis HList : forall t, P t -> P (TList t).
Hypothesis HDict : forall k t, P t -> P (TDict k t).
Hypothesis HModel :
  forall cls fields, Forall (fun f => P (ftype f)) fields -> P (TModel cls fields).
Hypothesis HUnion : forall ts, Forall P ts -> P (TUnion ts).
Hypothesis HOptional : forall t, P t -> P (TOptional t).

Fixpoint ty_nested_ind (t : ty) : P t :=
  match t with
  | TStr c => HStr c
  | TInt ge le => HInt ge le
  | TFloat gt => HFloat gt
  | TBool => HBool
  | TUrl => HUrl
  | TList t' => HList t' (ty_nested_ind t')
  | TDict k t' => HDict k t' (ty_nested_ind t')
  | TModel cls fields =>
      HModel cls fields
        ((fix all (fs : list field) : Forall (fun f => P (ftype f)) fs :=
            match fs with
            | [] => Forall_nil _
            | f :: fs' => Forall_cons (P := fun f => P (ftype f)) f (ty_nested_ind (ftype f)) (all fs')
            end) fields)
  | TUnion ts =>
      HUnion ts
        ((fix all (l : list ty) : Forall P l :=
            match l with
            | [] => Forall_nil _
            | t' :: l' => Forall_cons t' (ty_nested_ind t') (all l')
            end) ts)
  | TOptional t' => HOptional t' (ty_nested_ind t')
  end.

End TyInduction.

(* ------------------------------------------------------------------ *)
(** ** Further vocabulary for the properties of the declarations *)

Definition class_name (t : ty) : string :=
  match t with
  | TModel cls _ => cls
  | _ => EmptyString
  end.

(** The fields declared without a default, class by class. *)
Definition required_fields : list (string * string) :=
  [ ("ChannelInlineTable", "channel");
    ("Project", "name");
    ("Project", "platforms");
    ("BaseManifest", "project") ].

(** The instance of a class whose attributes are all [None]. *)
Definition all_none (t : ty) : data :=
  DModel (class_name t) (map (fun f => (fname f, DNone)) (fields_of t)).

Definition not_required (f : field) : bool := negb (is_required f).

Definition is_mapping (v : value) : bool :=
  match v with
  | VDict _ => true
  | _ => false
  end.


(** Every union a type mentions, and the alternatives of a union. *)
Fixpoint unions (t : ty) : list ty :=
  match t with
  | TStr _ | TInt _ _ | TFloat _ | TBool | TUrl => []
  | TList t' | TDict _ t' | TOptional t' => unions t'
  | TModel _ fields => flat_map (fun f => unions (ftype f)) fields
  | TUnion ts => TUnion ts :: flat_map unions ts
  end.

Definition alternatives (t : ty) : list ty :=
  match t with
  | TUnion ts => ts
  | _ => []
  end.

Definition is_NonEmptyStr (t : ty) : bool :=
  match t with
  | TStr (Constr (Some 1) None) => true
  | _ => false
  end.

Definition kind_eqb (a b : kind) : bool :=
  match a, b with
  | MissingField, MissingField | UnknownField, UnknownField
  | ConstraintViolation, ConstraintViolation | ShapeMismatch, ShapeMismatch
  | TypeMismatch, TypeMismatch => true
  | _, _ => false
  end.

(** The violations of kind [k] that sit directly on a key of the validated
    mapping (a path of one segment). *)
Definition at_top (k : kind) (es : list violation) : list violation :=
  filter (fun e => kind_eqb (vkind e) k && (List.length (loc e) =? 1)%nat) es.


(* ------------------------------------------------------------------ *)
(** ** The language of a regular expression *)

(** What it means for a string to be matched by an expression as a whole;
    the matcher of [Regex] is checked against it. *)
Inductive lang : Regex.re -> string -> Prop :=
| LEps : lang Regex.Eps EmptyString
| LLit : forall c, lang (Regex.Lit c) (String c EmptyString)
| LCls : forall n items c,
    Regex.cls_matches n items c = true ->
    lang (Regex.Cls n items) (String c EmptyString)
| LSeq : forall a b s1 s2,
    lang a s1 -> lang b s2 -> lang (Regex.Seq a b) (append s1 s2)
| LAltL : forall a b s, lang a s -> lang (Regex.Alt a b) s
| LAltR : forall a b s, lang b s -> lang (Regex.Alt a b) s
| LStar0 : forall a, lang (Regex.Star a) EmptyString
| LStarS : forall a s1 s2,
    lang a s1 -> lang (Regex.Star a) s2 -> lang (Regex.Star a) (append s1 s2).

(** The characters [GitUrl] allows after the colon:
    [[\w\.@:\/\\-~]]. *)
Definition git_char (c : ascii) : bool :=
  Regex.cls_matches false
    [Regex.CWord; Regex.CChar "."; Regex.CChar "@"; Regex.CChar ":";
     Regex.CChar "/"; Regex.CRange backslash "~"] c.

Definition git_schemes : list string := ["git"; "ssh"; "http"; "https"].


Fixpoint all_chars (p : ascii -> bool) (s : string) : bool :=
  match s with
  | EmptyString => true
  | String c s' => p c && all_chars p s'
  end.

(** The characters of the host in the [git@host] form: [[\w\.]]. *)
Definition host_char (c : ascii) : bool :=
  Regex.cls_matches false [Regex.CWord; Regex.CChar "."] c.


(** Documents used to run the further properties. *)
Definition misspelt_project : list (string * value) := [("nme", VStr "demo")].

Definition name_then_platforms : list (string * value) :=
  [("name", VStr "demo"); ("platforms", VList [VStr "linux-64"])].

Definition platforms_then_name : list (string * value) :=
  [("platforms", VList [VStr "linux-64"]); ("name", VStr "demo")].

Definition python_dependency : list (string * value) :=
  [("dependencies", VDict [("python", VStr "3.11")])].

Definition manifest_with_bogus_target_key : list (string * value) :=
  [("feature",
    VDict [("py",
            VDict [("target",
                    VDict [("linux-64", VDict [("bogus", VInt 1)])])])])].


(* ------------------------------------------------------------------ *)
(** ** URLs that any URL parser accepts *)

Fixpoint strip_prefix (p s : string) : option string :=
  match p with
  | EmptyString => Some s
  | String a p' =>
      match s with
      | EmptyString => None
      | String b s' => if Ascii.eqb a b then strip_prefix p' s' else None
      end
  end.

Definition is_lower (c : ascii) : bool := Regex.between "a" "z" c.
Definition is_visible (c : ascii) : bool := Regex.between "!" "~" c.

(** A host made of labels of lowercase letters and digits, separated by
    single dots, whose last label starts with a letter; then nothing, or a
    slash and visible ASCII characters. *)
Fixpoint plain_host_then_path (s : string) (label_start last_alpha : bool) : bool :=
  match s with
  | EmptyString => negb label_start && last_alpha
  | String c s' =>
      if Ascii.eqb c "." then
        negb label_start && plain_host_then_path s' true false
      else if Ascii.eqb c "/" then
        negb label_start && last_alpha && all_chars is_visible s'
      else if is_lower c then
        plain_host_then_path s' false (if label_start then true else last_alpha)
      else if is_digit c then
        plain_host_then_path s' false (if label_start then false else last_alpha)
      else false
  end.

(** Modelled from the spec: the parser of [AnyHttpUrl] is not in model.py.
    Of "a string that parses as an absolute HTTP/HTTPS URL" this is the
    plainest kind: [http://] or [https://], a plain host, an optional
    path. *)
Definition plain_http_url (s : string) : bool :=
  match strip_prefix "http://" s with
  | Some r => plain_host_then_path r true false
  | None =>
      match strip_prefix "https://" s with
      | Some r => plain_host_then_path r true false
      | None => false
      end
  end.

(** Modelled from the spec: the parser of [AnyHttpUrl] is not in model.py.
    It accepts every plain URL. *)
Definition http_accepts_plain (L : Lax) : Prop :=
  forall s, plain_http_url s = true -> exists u, http_url s = Some u.

Definition url_keys : list string := ["homepage"; "repository"; "documentation"].

(** [k: AnyHttpUrl | None = Field(None, ...)] *)
Definition url_field (k : string) : field := defaulted k (TOptional AnyHttpUrl).

Definition pixi_repository : string := "https://github.com/prefix-dev/pixi".

(** A scheme and nothing after it. *)
Definition scheme_only_url : string := "http:".


(* ------------------------------------------------------------------ *)
(** ** The problems of a value, at every depth *)

Definition is_sequence (v : value) : bool :=
  match v with
  | VList _ => true
  | _ => false
  end.

Definition is_plain (t : ty) : bool :=
  match t with
  | TStr _ | TInt _ _ | TFloat _ | TBool | TUrl => true
  | _ => false
  end.

(** A violation found one step down, under [s]. *)
Definition below (s : seg) (e : violation) : violation :=
  Violation (s :: loc e) (vkind e).

(** [problem strict t v e]: the value [v], read as a [t], has the problem
    [e].  The problems of a scalar are what its validator reports.  The
    problems of a sequence, of a mapping and of a model are those of every
    element, every entry and every field, each located under its index or
    key, with every required field that is missing and every key that is
    not declared.  A value has problems as a union only when no alternative
    accepts it, and then it has the problems of every alternative. *)
Inductive problem {L : Lax} : bool -> ty -> value -> violation -> Prop :=
| problem_scalar : forall strict t v es e,
    is_plain t = true ->
    validate strict t v = Err es ->
    In e es ->
    problem strict t v e
| problem_no_sequence : forall strict t v,
    is_sequence v = false ->
    problem strict (TList t) v (Violation [] TypeMismatch)
| problem_item : forall strict t vs i v e,
    In (i, v) (indexed vs) ->
    problem strict t v e ->
    problem strict (TList t) (VList vs) (below (Idx i) e)
| problem_no_entries : forall strict k t v,
    is_mapping v = false ->
    problem strict (TDict k t) v (Violation [] TypeMismatch)
| problem_key : forall strict k t kvs n v,
    In (n, v) kvs ->
    satisfies k n = false ->
    problem strict (TDict k t) (VDict kvs)
      (Violation [Key n; DictKey] ConstraintViolation)
| problem_entry : forall strict k t kvs n v e,
    In (n, v) kvs ->
    problem strict t v e ->
    problem strict (TDict k t) (VDict kvs) (below (Key n) e)
| problem_no_mapping : forall strict cls fields v,
    is_mapping v = false ->
    problem strict (TModel cls fields) v (Violation [] TypeMismatch)
| problem_instance_only : forall cls fields kvs,
    strict_model_from_dict = false ->
    problem true (TModel cls fields) (VDict kvs) (Violation [] TypeMismatch)
| problem_missing : forall strict cls fields kvs f,
    strict && negb strict_model_from_dict = false ->
    In f fields ->
    lookup (field_key f) kvs = None ->
    default f = None ->
    problem strict (TModel cls fields) (VDict kvs) (missing (field_key f))
| problem_field : forall strict cls fields kvs f v e,
    strict && negb strict_model_from_dict = false ->
    In f fields ->
    lookup (field_key f) kvs = Some v ->
    problem strict (ftype f) v e ->
    problem strict (TModel cls fields) (VDict kvs) (below (Key (field_key f)) e)
| problem_unknown : forall strict cls fields kvs k v,
    strict && negb strict_model_from_dict = false ->
    In (k, v) kvs ->
    declared fields k = false ->
    problem strict (TModel cls fields) (VDict kvs) (unknown k)
| problem_member : forall strict ts v i t e,
    (forall t', In t' ts -> fails (validate true t' v)) ->
    (forall t', In t' ts -> fails (validate strict t' v)) ->
    In (i, t) (indexed ts) ->
    problem strict t v e ->
    problem strict (TUnion ts) v (below (Member i) e)
| problem_optional : forall strict t v e,
    v <> VNone ->
    problem strict t v e ->
    problem strict (TOptional t) v e.

(** The manifest whose project table is empty, and what is wrong with it. *)
Definition empty_project : list (string * value) := [("project", VDict [])].

Definition empty_project_problems : list violation :=
  [ Violation [Key "project"; Key "name"] MissingField;
    Violation [Key "project"; Key "platforms"] MissingField ].


(* ================================================================== *)
(** * Properties *)

(** ** The path pattern *)

Module RegexFacts.
Import Regex.

Lemma fullmatch_Void : forall s, fullmatch Void s = false.
Proof. induction s as [|c s IH]; simpl; auto. Qed.

Lemma cls_no_backslash : forall c,
  cls_matches true [CChar backslash] c = negb (Ascii.eqb backslash c).
Proof.
  intro c. unfold cls_matches. simpl. rewrite orb_false_r. reflexivity.
Qed.

Lemma deriv_tail : forall c,
  deriv c path_tail = if Ascii.eqb backslash c then Void else path_tail.
Proof.
  intro c. unfold path_tail, no_backslash. cbn -[cls_matches Ascii.eqb].
  rewrite cls_no_backslash. destruct (Ascii.eqb backslash c); reflexivity.
Qed.

Lemma fullmatch_tail : forall s, fullmatch path_tail s = negb (contains backslash s).
Proof.
  induction s as [|c s IH].
  - reflexivity.
  - change (fullmatch path_tail (String c s)) with (fullmatch (deriv c path_tail) s).
    rewrite deriv_tail. cbn [contains].
    destruct (Ascii.eqb backslash c); cbn [orb negb].
    + apply fullmatch_Void.
    + exact IH.
Qed.

Lemma fullmatch_step : forall r c s,
  fullmatch r (String c s) = fullmatch (deriv c r) s.
Proof. reflexivity. Qed.

Lemma deriv_path : forall c,
  deriv c (Seq Eps (Seq (Plus no_backslash) Eps))
  = if Ascii.eqb backslash c then Void else path_tail.
Proof.
  intro c. unfold Plus, no_backslash, path_tail. cbn -[cls_matches Ascii.eqb].
  rewrite cls_no_backslash.
  destruct (Ascii.eqb backslash c); reflexivity.
Qed.

Lemma search_PathNoBackslash : forall s,
  search PathNoBackslash_re s = negb (is_empty s) && negb (contains backslash s).
Proof.
  destruct s as [|c s].
  - reflexivity.
  - unfold search, PathNoBackslash_re.
    cbn [anchor_start anchor_end body].
    fold no_backslash.
    rewrite fullmatch_step, deriv_path. cbn [contains is_empty].
    destruct (Ascii.eqb backslash c); cbn [orb negb andb].
    + apply fullmatch_Void.
    + apply fullmatch_tail.
Qed.

End RegexFacts.

(** ** Validation of containers and models *)

Section Properties.

Context {L : Lax}.

Lemma under_nonempty : forall s es, es <> [] -> under s es <> [].
Proof. intros s [|e es] H; [congruence | discriminate]. Qed.

Lemma assemble_Ok_inv : forall (A : Type) (build : list A -> data) os more d,
  assemble build os more = Ok d ->
  bads os = [] /\ more = [] /\ d = build (goods os).
Proof.
  intros A build os more d H. unfold assemble in H.
  destruct (bads os ++ more) eqn:E; [|discriminate].
  apply app_eq_nil in E. destruct E as [E1 E2].
  inversion H. auto.
Qed.

Lemma assemble_Err : forall (A : Type) (build : list A -> data) os more e,
  In e (bads os ++ more) ->
  assemble build os more = Err (bads os ++ more).
Proof.
  intros A build os more e H. unfold assemble.
  destruct (bads os ++ more); [destruct H | reflexivity].
Qed.

Lemma assemble_Ok : forall (A : Type) (build : list A -> data) os,
  bads os = [] -> assemble build os [] = Ok (build (goods os)).
Proof. intros A build os H. unfold assemble. rewrite H. reflexivity. Qed.

Lemma validate_model : forall cls fields kvs,
  validate false (TModel cls fields) (VDict kvs)
  = assemble (DModel cls) (map (field_outcome (validate false) kvs) fields)
      (extras fields kvs).
Proof. reflexivity. Qed.

Lemma In_extras : forall fields kvs k x,
  In (k, x) kvs -> declared fields k = false ->
  In (unknown k) (extras fields kvs).
Proof.
  intros fields kvs k x Hin Hd. unfold extras.
  apply in_flat_map. exists (k, x). split; [exact Hin|].
  simpl. rewrite Hd. left. reflexivity.
Qed.

Lemma forbid_extra : forall cls fields kvs k x,
  In (k, x) kvs -> declared fields k = false ->
  exists es, validate false (TModel cls fields) (VDict kvs) = Err es
             /\ In (unknown k) es.
Proof.
  intros cls fields kvs k x Hin Hd. rewrite validate_model.
  eexists. split.
  - apply assemble_Err with (e := unknown k).
    apply in_or_app. right. eapply In_extras; eauto.
  - apply in_or_app. right. eapply In_extras; eauto.
Qed.

Lemma entities_are_models : forall E,
  In E entities -> exists cls, E = TModel cls (fields_of E).
Proof.
  intros E H. simpl in H.
  repeat (destruct H as [<- | H]; [eexists; reflexivity|]).
  destruct H.
Qed.

(** C1. Every entity is closed: whatever entity of the model a mapping is
    validated as, a key of the mapping that is not among the entity's
    declared keys (aliased fields counted under their alias) makes
    validation fail, and the violations include an UnknownField violation
    whose path is that key. *)
Theorem closed_world : forall E kvs k x,
  In E entities ->
  In (k, x) kvs ->
  declared (fields_of E) k = false ->
  exists es, model_validate E (VDict kvs) = Err es
             /\ In (Violation [Key k] UnknownField) es.
Proof.
  intros E kvs k x HE Hin Hd.
  destruct (entities_are_models E HE) as [cls ->].
  simpl fields_of in Hd. unfold model_validate.
  eapply forbid_extra; eauto.
Qed.

(** ** Required and defaulted fields of Project *)

(** C4. Project.channels is not required by the code.  The class annotates
    it [list[Channel]], a type that has no [None], yet passes [None] as the
    default: a project mapping with name and platforms and no channels
    validates, no MissingField is reported, and the instance holds [None]
    where a list is annotated. *)
Theorem channels_omitted_is_accepted :
  field_type Project "channels" = Some (TList Channel)
  /\ forallb (fun f => negb (String.eqb (fname f) "channels") || negb (is_required f))
       (fields_of Project) = true
  /\ model_validate Project project_without_channels
     = Ok (DModel "Project"
             [("name", DStr "demo"); ("version", DNone); ("description", DNone);
              ("authors", DNone); ("channels", DNone);
              ("platforms", DList [DStr "linux-64"]); ("license", DNone);
              ("license_file", DNone); ("readme", DNone); ("homepage", DNone);
              ("repository", DNone); ("documentation", DNone)]).
Proof. repeat split. Qed.

(** C5. Scenario 2: the manifest whose project has only [platforms] fails
    with exactly one violation, a MissingField at project.name. *)
Theorem scenario2_missing_name :
  model_validate BaseManifest scenario2
  = Err [Violation [Key "project"; Key "name"] MissingField].
Proof. reflexivity. Qed.


(** ** The path constraint *)

(** C6 (amended). The path constraint accepts exactly the non-empty strings
    without a backslash and reports a ConstraintViolation for every other
    string, the empty string included; it is the annotation of
    Project.license_file, Project.readme and TaskInlineTable.cwd. *)
Theorem path_constraint :
  (forall s,
     validate_str PathNoBackslash (VStr s)
     = if negb (is_empty s) && negb (contains backslash s)
       then Ok (DStr s)
       else Err [Violation [] ConstraintViolation])
  /\ (forall strict s,
        validate strict (TOptional (TStr PathNoBackslash)) (VStr s)
        = validate_str PathNoBackslash (VStr s))
  /\ field_type Project "license_file" = Some (TOptional (TStr PathNoBackslash))
  /\ field_type Project "readme" = Some (TOptional (TStr PathNoBackslash))
  /\ field_type TaskInlineTable "cwd" = Some (TOptional (TStr PathNoBackslash)).
Proof.
  split; [|repeat split].
  intro s. unfold validate_str, satisfies, long_enough, matches_pattern.
  cbn [min_length pattern PathNoBackslash andb].
  rewrite RegexFacts.search_PathNoBackslash. reflexivity.
Qed.

(** ** System requirements *)

Lemma linux_float : forall f,
  model_validate SystemRequirements (VDict [("linux", VFloat f)])
  = if SFltb float_zero f then Ok (sysreq "linux" (DFloat f))
    else rejected_by_both "linux" ConstraintViolation TypeMismatch.
Proof.
  intro f. unfold model_validate. cbn.
  unfold float_result, greater_than. destruct (SFltb float_zero f); reflexivity.
Qed.

Lemma macos_float : forall f,
  model_validate SystemRequirements (VDict [("macos", VFloat f)])
  = if SFltb float_zero f then Ok (sysreq "macos" (DFloat f))
    else rejected_by_both "macos" ConstraintViolation TypeMismatch.
Proof.
  intro f. unfold model_validate. cbn.
  unfold float_result, greater_than. destruct (SFltb float_zero f); reflexivity.
Qed.

(** C7 (amended). Every field of SystemRequirements is optional.  [linux]
    and [macos] accept a float exactly when it is greater than zero, so
    0.0 and the negative floats are rejected; [cuda] and [libc] accept
    every float, [unix] every boolean, and each of the six fields accepts
    every non-empty string. *)
Theorem system_requirements_fields :
  forallb (fun f => negb (is_required f)) (fields_of SystemRequirements) = true
  /\ model_validate SystemRequirements (VDict []) = Ok (sysreq EmptyString DNone)
  /\ (forall f,
        model_validate SystemRequirements (VDict [("linux", VFloat f)])
        = if SFltb float_zero f then Ok (sysreq "linux" (DFloat f))
          else rejected_by_both "linux" ConstraintViolation TypeMismatch)
  /\ (forall f,
        model_validate SystemRequirements (VDict [("macos", VFloat f)])
        = if SFltb float_zero f then Ok (sysreq "macos" (DFloat f))
          else rejected_by_both "macos" ConstraintViolation TypeMismatch)
  /\ (forall f,
        model_validate SystemRequirements (VDict [("cuda", VFloat f)])
        = Ok (sysreq "cuda" (DFloat f)))
  /\ (forall f,
        model_validate SystemRequirements (VDict [("libc", VFloat f)])
        = Ok (sysreq "libc" (DFloat f)))
  /\ (forall b,
        model_validate SystemRequirements (VDict [("unix", VBool b)])
        = Ok (sysreq "unix" (DBool b)))
  /\ Forall (fun k => forall c s,
               model_validate SystemRequirements (VDict [(k, VStr (String c s))])
               = Ok (sysreq k (DStr (String c s))))
       sysreq_names.
Proof.
  split; [reflexivity|]. split; [reflexivity|].
  split; [exact linux_float|]. split; [exact macos_float|].
  split; [reflexivity|]. split; [reflexivity|]. split; [reflexivity|].
  repeat constructor.
Qed.


(** ** A failed validation always names a violation *)

Lemma assemble_Err_inv : forall (A : Type) (build : list A -> data) os more es,
  assemble build os more = Err es -> es <> [] /\ es = bads os ++ more.
Proof.
  intros A build os more es H. unfold assemble in H.
  destruct (bads os ++ more) eqn:E; [discriminate|].
  inversion H. split; [discriminate | reflexivity].
Qed.

Lemma first_ok_Err_nonempty : forall rs i es,
  rs <> [] ->
  Forall (fun r => forall es', r = Err es' -> es' <> []) rs ->
  first_ok i rs = Err es -> es <> [].
Proof.
  induction rs as [|r rs IH]; intros i es Hne Hall H; [congruence|].
  inversion Hall as [|? ? Hr Hrs]; subst. simpl in H.
  destruct r as [d|es0]; [discriminate|].
  destruct (first_ok (S i) rs) as [d|es1] eqn:E; [discriminate|].
  inversion H; subst.
  specialize (Hr es0 eq_refl).
  destruct es0; [congruence | discriminate].
Qed.

Ltac err_is_nonempty :=
  match goal with
  | H : _ = Err _ |- _ =>
      unfold type_error, constraint_error in H; inversion H; subst; discriminate
  end.

Lemma int_result_Err : forall ge le z es, int_result ge le z = Err es -> es <> [].
Proof.
  intros ge le z es H. unfold int_result in H.
  destruct (in_range ge le z); err_is_nonempty.
Qed.

Lemma float_result_Err : forall gt f es, float_result gt f = Err es -> es <> [].
Proof.
  intros gt f es H. unfold float_result in H.
  destruct (greater_than gt f); err_is_nonempty.
Qed.

Lemma validate_Err_nonempty : forall t,
  no_empty_union t = true ->
  forall strict v es, validate strict t v = Err es -> es <> [].
Proof.
  induction t using ty_nested_ind; intros Hwf strict v es Hv; simpl in Hv.
  - unfold validate_str in Hv.
    destruct v as [| b | z | f | s | vs | kvs]; try err_is_nonempty.
    destruct (satisfies c s); err_is_nonempty.
  - unfold validate_int in Hv.
    destruct v; try (eapply int_result_Err; eassumption);
      destruct (strict || _); try err_is_nonempty;
      match type of Hv with
      | match ?o with _ => _ end = _ => destruct o
      end; try err_is_nonempty; eapply int_result_Err; eassumption.
  - unfold validate_float in Hv.
    destruct v; try (eapply float_result_Err; eassumption);
      try (destruct (strict || _); try err_is_nonempty);
      match type of Hv with
      | match ?o with _ => _ end = _ => destruct o
      end; try err_is_nonempty; eapply float_result_Err; eassumption.
  - unfold validate_bool in Hv.
    destruct v; try err_is_nonempty;
      destruct (strict || _); try err_is_nonempty;
      match type of Hv with
      | match ?o with _ => _ end = _ => destruct o
      end; err_is_nonempty.
  - unfold validate_url in Hv.
    destruct v as [| b | z | f | s | vs | kvs]; try err_is_nonempty.
    destruct (http_url s); err_is_nonempty.
  - destruct v; try err_is_nonempty.
    apply assemble_Err_inv in Hv. tauto.
  - destruct v; try err_is_nonempty.
    apply assemble_Err_inv in Hv. tauto.
  - destruct v; try err_is_nonempty.
    destruct (strict && negb strict_model_from_dict); [err_is_nonempty|].
    apply assemble_Err_inv in Hv. tauto.
  - simpl in Hwf. destruct ts as [|t0 ts']; [discriminate|].
    assert (Hall : forall m,
               Forall (fun r => forall es', r = Err es' -> es' <> [])
                 (map (fun t' => validate m t' v) (t0 :: ts'))).
    { intro m. rewrite Forall_map.
      rewrite forallb_forall in Hwf. rewrite Forall_forall in H |- *.
      intros t' Hin es' He. eapply H; eauto. }
    destruct (first_ok 0 (map (fun t' => validate true t' v) (t0 :: ts')))
      as [d|es1] eqn:E1; [discriminate|].
    destruct strict.
    + inversion Hv; subst.
      eapply first_ok_Err_nonempty; [| apply (Hall true) | exact E1].
      discriminate.
    + eapply first_ok_Err_nonempty; [| apply (Hall false) | exact Hv].
      discriminate.
  - simpl in Hwf. destruct v; eauto. discriminate.
Qed.


(** ** What an accepted model instance looks like *)

Lemma validate_model_mode' : forall strict cls fields v,
  validate strict (TModel cls fields) v
  = match v with
    | VDict kvs =>
        if strict && negb strict_model_from_dict then type_error
        else assemble (DModel cls)
               (map (field_outcome (validate strict) kvs) fields)
               (extras fields kvs)
    | _ => type_error
    end.
Proof. intros. destruct v; reflexivity. Qed.

Lemma field_outcome_inl : forall strict kvs f d,
  field_data strict kvs f = Some d ->
  field_outcome (validate strict) kvs f = inl (fname f, d).
Proof.
  intros strict kvs f d H. unfold field_outcome, field_data in *.
  destruct (lookup (field_key f) kvs) as [x|].
  - destruct (validate strict (ftype f) x); [congruence | discriminate].
  - destruct (default f); [congruence | discriminate].
Qed.

Lemma field_outcome_inr : forall strict kvs f,
  no_empty_union (ftype f) = true ->
  field_data strict kvs f = None ->
  exists e es, field_outcome (validate strict) kvs f = inr (e :: es).
Proof.
  intros strict kvs f Hwf H. unfold field_outcome, field_data in *.
  destruct (lookup (field_key f) kvs) as [x|].
  - destruct (validate strict (ftype f) x) as [d|es] eqn:E; [discriminate|].
    apply validate_Err_nonempty in E; [|exact Hwf].
    destruct es as [|e es]; [congruence|]. simpl. eauto.
  - destruct (default f); [discriminate|]. eauto.
Qed.

Lemma fields_Ok_inv : forall strict kvs fields,
  forallb (fun f => no_empty_union (ftype f)) fields = true ->
  bads (map (field_outcome (validate strict) kvs) fields) = [] ->
  forallb (has_data strict kvs) fields = true
  /\ goods (map (field_outcome (validate strict) kvs) fields)
     = map (fun f => (fname f, field_value strict kvs f)) fields.
Proof.
  induction fields as [|f fields IH]; intros Hwf Hb; [split; reflexivity|].
  simpl in Hwf. apply andb_true_iff in Hwf. destruct Hwf as [Hf Hfs].
  cbn [map forallb] in *.
  destruct (field_data strict kvs f) as [d|] eqn:E.
  - assert (Hh : has_data strict kvs f = true) by (unfold has_data; rewrite E; reflexivity).
    assert (Hv : field_value strict kvs f = d) by (unfold field_value; rewrite E; reflexivity).
    rewrite (field_outcome_inl _ _ _ _ E) in Hb |- *. cbn [bads goods] in *.
    destruct (IH Hfs Hb) as [IH1 IH2]. rewrite IH1, IH2, Hh, Hv. split; reflexivity.
  - destruct (field_outcome_inr strict kvs f Hf E) as (e & es & Ho).
    rewrite Ho in Hb. discriminate.
Qed.

Lemma fields_Ok_intro : forall strict kvs fields,
  forallb (has_data strict kvs) fields = true ->
  bads (map (field_outcome (validate strict) kvs) fields) = []
  /\ goods (map (field_outcome (validate strict) kvs) fields)
     = map (fun f => (fname f, field_value strict kvs f)) fields.
Proof.
  induction fields as [|f fields IH]; intros H; [split; reflexivity|].
  simpl in H. apply andb_true_iff in H. destruct H as [Hf Hfs].
  cbn [map].
  destruct (field_data strict kvs f) as [d|] eqn:E;
    [|unfold has_data in Hf; rewrite E in Hf; discriminate].
  assert (Hv : field_value strict kvs f = d) by (unfold field_value; rewrite E; reflexivity).
  rewrite (field_outcome_inl _ _ _ _ E). cbn [bads goods].
  destruct (IH Hfs) as [IH1 IH2]. rewrite IH1, IH2, Hv. split; reflexivity.
Qed.

Lemma model_Ok_inv : forall cls fields kvs d,
  forallb (fun f => no_empty_union (ftype f)) fields = true ->
  validate false (TModel cls fields) (VDict kvs) = Ok d ->
  extras fields kvs = []
  /\ forallb (has_data false kvs) fields = true
  /\ d = DModel cls (map (fun f => (fname f, field_value false kvs f)) fields).
Proof.
  intros cls fields kvs d Hwf H. rewrite validate_model in H.
  apply assemble_Ok_inv in H. destruct H as (Hb & He & ->).
  destruct (fields_Ok_inv false kvs fields Hwf Hb) as [H1 H2].
  rewrite H2. auto.
Qed.

Lemma model_Ok_intro : forall cls fields kvs,
  extras fields kvs = [] ->
  forallb (has_data false kvs) fields = true ->
  validate false (TModel cls fields) (VDict kvs)
  = Ok (DModel cls (map (fun f => (fname f, field_value false kvs f)) fields)).
Proof.
  intros cls fields kvs He Hd. rewrite validate_model, He.
  destruct (fields_Ok_intro false kvs fields Hd) as [H1 H2].
  rewrite assemble_Ok by exact H1. rewrite H2. reflexivity.
Qed.

Lemma entities_well_declared : forall E,
  In E entities -> well_declared E = true.
Proof.
  intros E H. simpl in H.
  repeat (destruct H as [<- | H]; [reflexivity|]).
  destruct H.
Qed.

Lemma distinct_In : forall x l,
  distinct (x :: l) = true -> ~ In x l.
Proof.
  intros x l H Hin. simpl in H. apply andb_true_iff in H. destruct H as [H _].
  apply negb_true_iff in H.
  assert (existsb (String.eqb x) l = true).
  { apply existsb_exists. exists x. split; [exact Hin | apply String.eqb_refl]. }
  congruence.
Qed.

Lemma distinct_tail : forall x l, distinct (x :: l) = true -> distinct l = true.
Proof. intros x l H. simpl in H. apply andb_true_iff in H. tauto. Qed.

Lemma distinct_inj : forall (key : field -> string) fields f g,
  distinct (map key fields) = true ->
  In f fields -> In g fields -> key f = key g -> f = g.
Proof.
  induction fields as [|h fields IH]; intros f g Hd Hf Hg E; [destruct Hf|].
  simpl map in Hd. pose proof (distinct_In _ _ Hd) as Hn.
  apply distinct_tail in Hd.
  destruct Hf as [<- | Hf]; destruct Hg as [<- | Hg]; auto.
  - exfalso. apply Hn. rewrite E. apply in_map. exact Hg.
  - exfalso. apply Hn. rewrite <- E. apply in_map. exact Hf.
Qed.

Lemma lookup_attr : forall (F : field -> data) fields f,
  distinct (map (@fname ty) fields) = true ->
  In f fields ->
  lookup (fname f) (map (fun g => (fname g, F g)) fields) = Some (F f).
Proof.
  induction fields as [|h fields IH]; intros f Hd Hf; [destruct Hf|].
  simpl map in Hd. pose proof (distinct_In _ _ Hd) as Hn.
  apply distinct_tail in Hd. simpl.
  destruct Hf as [<- | Hf].
  - rewrite String.eqb_refl. reflexivity.
  - destruct (String.eqb (fname f) (fname h)) eqn:E.
    + apply String.eqb_eq in E. exfalso. apply Hn. rewrite <- E.
      apply in_map. exact Hf.
    + apply IH; assumption.
Qed.

Lemma well_declared_parts : forall E,
  In E entities ->
  distinct (map (@fname ty) (fields_of E)) = true
  /\ distinct (map field_key (fields_of E)) = true
  /\ forallb (fun f => no_empty_union (ftype f)) (fields_of E) = true
  /\ forallb default_is_None (fields_of E) = true
  /\ forallb (name_is_no_key (fields_of E)) (fields_of E) = true.
Proof.
  intros E HE. pose proof (entities_well_declared E HE) as H.
  destruct (entities_are_models E HE) as [cls Heq].
  unfold well_declared in H. rewrite Heq in H at 3. simpl no_empty_union in H.
  repeat (apply andb_true_iff in H; destruct H as [H ?]). auto.
Qed.


(** ** Absent optional fields *)

Lemma absent_field_value : forall kvs f,
  is_required f = false ->
  default_is_None f = true ->
  lookup (field_key f) kvs = None ->
  field_value false kvs f = DNone.
Proof.
  intros kvs f Hr Hd Hl. unfold field_value, field_data. rewrite Hl.
  unfold is_required in Hr. unfold default_is_None in Hd.
  destruct (default f) as [[]|]; try discriminate; reflexivity.
Qed.

(** C8. An optional field whose key is omitted is absent on the instance:
    for every entity and every field of it that is not required, a mapping
    without the field's key, if it validates, gives an instance whose
    attribute is [None], which is not the empty mapping and not the empty
    list.  In particular Scenario 1 validates and every optional field of
    the result, in the manifest and in its project, is [None]. *)
Theorem optional_absent : forall E f kvs d,
  In E entities ->
  In f (fields_of E) ->
  is_required f = false ->
  lookup (field_key f) kvs = None ->
  model_validate E (VDict kvs) = Ok d ->
  attr (fname f) d = Some DNone
  /\ DNone <> DDict [] /\ DNone <> DList []
  /\ model_validate BaseManifest scenario1
     = Ok (DModel "BaseManifest"
             [("project",
               DModel "Project"
                 [("name", DStr "demo"); ("version", DNone);
                  ("description", DNone); ("authors", DNone);
                  ("channels", DList [DStr "conda-forge"]);
                  ("platforms", DList [DStr "linux-64"]);
                  ("license", DNone); ("license_file", DNone);
                  ("readme", DNone); ("homepage", DNone);
                  ("repository", DNone); ("documentation", DNone)]);
              ("dependencies", DNone); ("host_dependencies", DNone);
              ("build_dependencies", DNone); ("pypi_dependencies", DNone);
              ("tasks", DNone); ("system_requirements", DNone);
              ("environments", DNone); ("feature", DNone);
              ("activation", DNone); ("target", DNone)]).
Proof.
  intros E f kvs d HE Hf Hr Hl Hv.
  split; [|split; [discriminate | split; [discriminate | reflexivity]]].
  destruct (well_declared_parts E HE) as (Hn & Hk & Hu & Hd & _).
  destruct (entities_are_models E HE) as [cls Heq].
  unfold model_validate in Hv. rewrite Heq in Hv.
  apply model_Ok_inv in Hv; [|exact Hu]. destruct Hv as (_ & _ & ->).
  unfold attr. rewrite (lookup_attr (field_value false kvs)) by assumption.
  f_equal. apply absent_field_value; auto.
  rewrite forallb_forall in Hd. auto.
Qed.

(** ** Aliased fields *)

Lemma declared_In : forall fields f, In f fields -> declared fields (field_key f) = true.
Proof.
  intros fields f H. unfold declared. apply existsb_exists.
  exists f. split; [exact H | apply String.eqb_refl].
Qed.

Lemma field_data_cons_other : forall strict k x kvs g,
  String.eqb (field_key g) k = false ->
  field_data strict ((k, x) :: kvs) g = field_data strict kvs g.
Proof.
  intros strict k x kvs g H. unfold field_data. simpl. rewrite H. reflexivity.
Qed.

Lemma field_data_cons_same : forall strict k x kvs g d,
  field_key g = k ->
  validate strict (ftype g) x = Ok d ->
  field_data strict ((k, x) :: kvs) g = Some d.
Proof.
  intros strict k x kvs g d Hk Hv. unfold field_data. simpl.
  rewrite Hk, String.eqb_refl, Hv. reflexivity.
Qed.

Lemma aliases_listed : forall E f a,
  In E entities -> In f (fields_of E) -> alias f = Some a ->
  In (fname f, a) aliased_fields.
Proof.
  intros E f a HE Hf Ha. simpl in HE.
  repeat (destruct HE as [<- | HE];
          [ simpl in Hf;
            repeat (destruct Hf as [<- | Hf];
                    [ simpl in Ha; try discriminate;
                      inversion Ha; simpl; tauto |]);
            destruct Hf |]).
  destruct HE.
Qed.

Lemma aliased_fields_declared :
  Forall (fun p => exists E f,
            In E entities /\ In f (fields_of E)
            /\ fname f = fst p /\ alias f = Some (snd p))
    aliased_fields.
Proof.
  repeat constructor.
  - exists BaseManifest, HostDependenciesField. simpl. tauto.
  - exists BaseManifest, BuildDependenciesField. simpl. tauto.
  - exists BaseManifest, PypiDependenciesField. simpl. tauto.
  - exists BaseManifest, SystemRequirementsField. simpl. tauto.
  - exists Environment,
      (aliased "solve_group" "solve-group" (TOptional (TStr SolveGroupName))).
    simpl. tauto.
Qed.

(** C3. For every entity and every field of it that carries an alias (they
    are host_dependencies, build_dependencies, pypi_dependencies,
    system_requirements and solve_group, each declared by some entity):
    adding the field under its
    hyphenated alias, with a value valid for the field's type, to a mapping
    that validates keeps it valid and sets the attribute; a mapping that
    uses the underscored attribute name as a key is rejected with an
    UnknownField violation at that key. *)
Theorem alias_spelling : forall E f a,
  In E entities ->
  In f (fields_of E) ->
  alias f = Some a ->
  In (fname f, a) aliased_fields
  /\ Forall (fun p => exists E' f',
               In E' entities /\ In f' (fields_of E')
               /\ fname f' = fst p /\ alias f' = Some (snd p))
       aliased_fields
  /\ (forall kvs x d dx,
        model_validate E (VDict kvs) = Ok d ->
        lookup a kvs = None ->
        validate false (ftype f) x = Ok dx ->
        exists d', model_validate E (VDict ((a, x) :: kvs)) = Ok d'
                   /\ attr (fname f) d' = Some dx)
  /\ (forall kvs x,
        In (fname f, x) kvs ->
        exists es, model_validate E (VDict kvs) = Err es
                   /\ In (Violation [Key (fname f)] UnknownField) es).
Proof.
  intros E f a HE Hf Ha.
  destruct (well_declared_parts E HE) as (Hn & Hk & Hu & Hd & Hnk).
  destruct (entities_are_models E HE) as [cls Heq].
  assert (Hkey : field_key f = a) by (unfold field_key; rewrite Ha; reflexivity).
  split; [eapply aliases_listed; eauto|].
  split; [exact aliased_fields_declared|]. split.
  - intros kvs x d dx Hv Hl Hx. unfold model_validate in *. rewrite Heq in Hv |- *.
    apply model_Ok_inv in Hv; [|exact Hu]. destruct Hv as (He & Hall & ->).
    assert (Hall' : forallb (has_data false ((a, x) :: kvs)) (fields_of E) = true).
    { apply forallb_forall. intros g Hg. unfold has_data.
      destruct (String.eqb (field_key g) a) eqn:Eg.
      - apply String.eqb_eq in Eg.
        assert (g = f) by (eapply distinct_inj with (key := field_key); eauto; congruence).
        subst g. rewrite (field_data_cons_same false a x kvs f dx Hkey Hx). reflexivity.
      - rewrite field_data_cons_other by exact Eg.
        rewrite forallb_forall in Hall. apply (Hall g Hg). }
    eexists. split.
    + apply model_Ok_intro; [|exact Hall'].
      unfold extras. simpl. rewrite <- Hkey at 1.
      rewrite (declared_In _ _ Hf). exact He.
    + unfold attr. rewrite (lookup_attr (field_value false ((a, x) :: kvs))) by assumption.
      unfold field_value.
      rewrite (field_data_cons_same false a x kvs f dx Hkey Hx). reflexivity.
  - intros kvs x Hin. unfold model_validate. rewrite Heq.
    eapply forbid_extra; [exact Hin|].
    rewrite forallb_forall in Hnk. specialize (Hnk f Hf).
    unfold name_is_no_key in Hnk. rewrite Ha in Hnk.
    apply negb_true_iff in Hnk. exact Hnk.
Qed.


(** ** Every problem is reported *)

Lemma extras_count : forall fields kvs,
  List.length (extras fields kvs)
  = List.length (filter (is_unknown fields) kvs).
Proof.
  intros fields. induction kvs as [|kv kvs IH]; [reflexivity|].
  unfold extras in *. cbn [flat_map filter]. unfold is_unknown at 1.
  rewrite length_app, IH.
  destruct (declared fields (fst kv)); reflexivity.
Qed.

Lemma bads_count : forall kvs fields,
  forallb (fun f => no_empty_union (ftype f)) fields = true ->
  List.length (filter (is_missing kvs) fields)
  + List.length (filter (is_invalid kvs) fields)
  <= List.length (bads (map (field_outcome (validate false) kvs) fields)).
Proof.
  intros kvs. induction fields as [|f fields IH]; intros Hwf; [simpl; lia|].
  cbn [forallb] in Hwf. apply andb_true_iff in Hwf. destruct Hwf as [Hf Hfs].
  specialize (IH Hfs). cbn [map filter].
  unfold is_missing at 1, is_invalid at 1, absent, is_required.
  unfold field_outcome in *.
  destruct (lookup (field_key f) kvs) as [x|].
  - rewrite andb_false_r.
    destruct (validate false (ftype f) x) as [d|es] eqn:E; cbn [bads List.length].
    + lia.
    + apply validate_Err_nonempty in E; [|exact Hf].
      destruct es as [|e es]; [congruence|].
      rewrite length_app. simpl. lia.
  - rewrite andb_true_r.
    destruct (default f); cbn [bads List.length]; simpl; lia.
Qed.

Lemma problems_reported : forall cls fields kvs,
  forallb (fun f => no_empty_union (ftype f)) fields = true ->
  problems (TModel cls fields) kvs
  <= List.length (bads (map (field_outcome (validate false) kvs) fields)
                  ++ extras fields kvs).
Proof.
  intros cls fields kvs Hwf. unfold problems. cbn [fields_of].
  rewrite length_app, extras_count.
  pose proof (bads_count kvs fields Hwf). lia.
Qed.



(** ** URL-shaped fields *)

Lemma constraints_in_use : forall E c,
  In E entities -> In c (constrs E) -> c = NonEmptyStr \/ c = PathNoBackslash.
Proof.
  intros E c HE Hc. simpl in HE.
  repeat (destruct HE as [<- | HE];
          [ simpl in Hc; repeat (destruct Hc as [<- | Hc]; [auto|]); destruct Hc |]).
  destruct HE.
Qed.

Lemma GitUrl_is_neither : GitUrl <> NonEmptyStr /\ GitUrl <> PathNoBackslash.
Proof.
  split; intro H.
  - discriminate H.
  - apply (f_equal (fun c => match pattern c with
                             | Some p => Regex.anchor_start p
                             | None => true
                             end)) in H.
    discriminate H.
Qed.



(** ** Unions: which alternative answers *)

Lemma first_ok_inv : forall (f : ty -> result) ts i d,
  first_ok i (map f ts) = Ok d ->
  exists before u after,
    ts = before ++ u :: after /\ f u = Ok d /\ Forall (fun t => fails (f t)) before.
Proof.
  intros f. induction ts as [|t ts IH]; intros i d H; [discriminate|].
  cbn [map first_ok] in H. destruct (f t) as [d0|es] eqn:E.
  - inversion H; subst. exists [], t, ts. auto.
  - destruct (first_ok (S i) (map f ts)) as [d1|es1] eqn:E1; [|discriminate].
    inversion H; subst.
    destruct (IH _ _ E1) as (before & u & after & -> & Hu & Hb).
    exists (t :: before), u, after. repeat split; auto.
    constructor; [exists es; exact E | exact Hb].
Qed.

Lemma first_ok_intro : forall (f : ty -> result) before u after i d,
  Forall (fun t => fails (f t)) before ->
  f u = Ok d ->
  first_ok i (map f (before ++ u :: after)) = Ok d.
Proof.
  intros f. induction before as [|t before IH]; intros u after i d Hb Hu.
  - cbn [app map first_ok]. rewrite Hu. reflexivity.
  - inversion Hb as [|? ? [es Ht] Hb']; subst.
    cbn [app map first_ok]. rewrite Ht, (IH u after (S i) d Hb' Hu). reflexivity.
Qed.

Lemma first_ok_fails : forall (f : ty -> result) ts i,
  Forall (fun t => fails (f t)) ts -> fails (first_ok i (map f ts)).
Proof.
  intros f. induction ts as [|t ts IH]; intros i H.
  - exists []. reflexivity.
  - inversion H as [|? ? [es Ht] Hts]; subst.
    destruct (IH (S i) Hts) as [es' E].
    cbn [map first_ok]. rewrite Ht, E. eexists. reflexivity.
Qed.

Lemma fails_or_Ok : forall r, fails r \/ exists d, r = Ok d.
Proof. intros [d|es]; [right | left]; eexists; reflexivity. Qed.

Lemma first_ok_answers : forall (f : ty -> result) ts i t d,
  In t ts -> f t = Ok d -> exists d1, first_ok i (map f ts) = Ok d1.
Proof.
  intros f. induction ts as [|a ts IH]; intros i t d Hin Ht; [destruct Hin|].
  cbn [map first_ok]. destruct (f a) as [d0|es] eqn:E; [eauto|].
  destruct Hin as [-> | Hin]; [congruence|].
  destruct (IH (S i) t d Hin Ht) as [d1 ->]. eauto.
Qed.

(** The alternative of a union that produced its value, and the mode in
    which it did. *)
Lemma union_inv : forall strict ts v d,
  validate strict (TUnion ts) v = Ok d ->
  exists mode before u after,
    ts = before ++ u :: after
    /\ validate mode u v = Ok d
    /\ Forall (fun t => fails (validate mode t v)) before
    /\ Forall (fun t => fails (validate true t v)) before
    /\ (strict = true -> mode = true).
Proof.
  intros strict ts v d H. cbn [validate] in H.
  destruct (first_ok 0 (map (fun t' => validate true t' v) ts)) as [d0|es] eqn:E.
  - inversion H; subst.
    destruct (first_ok_inv _ _ _ _ E) as (before & u & after & Hts & Hu & Hb).
    exists true, before, u, after. repeat split; auto.
  - destruct strict; [discriminate|].
    destruct (first_ok_inv _ _ _ _ H) as (before & u & after & Hts & Hu & Hb).
    exists false, before, u, after.
    split; [exact Hts|]. split; [exact Hu|]. split; [exact Hb|].
    split; [|discriminate].
    apply Forall_forall. intros t Ht.
    destruct (fails_or_Ok (validate true t v)) as [Hf|[d' Hd']]; [exact Hf|].
    exfalso.
    assert (Hin : In t ts) by (rewrite Hts; apply in_or_app; left; exact Ht).
    destruct (first_ok_answers (fun t' => validate true t' v) ts 0 t d' Hin Hd')
      as [d1 Hd1].
    congruence.
Qed.


(** ** Shapes accepted and shapes produced *)

Lemma has_shape_flat_map : forall (g : ty -> list shape) s ts,
  has_shape s (flat_map g ts) = existsb (fun t => has_shape s (g t)) ts.
Proof.
  intros g s. induction ts as [|t ts IH]; [reflexivity|].
  unfold has_shape in *. cbn [flat_map existsb]. rewrite existsb_app, IH. reflexivity.
Qed.

Lemma shapes_mono : forall t s,
  has_shape s (shapes true t) = true -> has_shape s (shapes false t) = true.
Proof.
  induction t using ty_nested_ind; intros s Hs; cbn [shapes] in *; auto.
  - destruct s; try discriminate; reflexivity.
  - destruct s; try discriminate; reflexivity.
  - destruct s; try discriminate; reflexivity.
  - rewrite has_shape_flat_map in *.
    apply existsb_exists in Hs. destruct Hs as (t & Hin & Ht).
    apply existsb_exists. exists t. split; [exact Hin|].
    rewrite Forall_forall in H. auto.
  - unfold has_shape in *. cbn [existsb] in *.
    apply orb_true_iff in Hs. apply orb_true_iff.
    destruct Hs as [Hs|Hs]; [left; exact Hs | right; apply IHt; exact Hs].
Qed.

Lemma accepted_shape : forall t strict v d,
  validate strict t v = Ok d ->
  has_shape (shape_of v) (shapes strict t) = true.
Proof.
  induction t using ty_nested_ind; intros strict v d Hv.
  - cbn [validate] in Hv. unfold validate_str in Hv.
    destruct v; try discriminate Hv. reflexivity.
  - cbn [validate] in Hv. unfold validate_int in Hv.
    destruct strict; destruct v; cbn [orb negb is_scalar] in Hv;
      try discriminate Hv; reflexivity.
  - cbn [validate] in Hv. unfold validate_float in Hv.
    destruct strict; destruct v; cbn [orb negb is_scalar] in Hv;
      try discriminate Hv; reflexivity.
  - cbn [validate] in Hv. unfold validate_bool in Hv.
    destruct strict; destruct v; cbn [orb negb is_scalar] in Hv;
      try discriminate Hv; reflexivity.
  - cbn [validate] in Hv. unfold validate_url in Hv.
    destruct v; try discriminate Hv. reflexivity.
  - cbn [validate] in Hv. destruct v; try discriminate Hv. reflexivity.
  - cbn [validate] in Hv. destruct v; try discriminate Hv. reflexivity.
  - cbn [validate] in Hv. destruct v; try discriminate Hv. reflexivity.
  - destruct (union_inv _ _ _ _ Hv)
      as (mode & before & u & after & Hts & Hu & _ & _ & Hmode).
    cbn [shapes]. rewrite has_shape_flat_map. apply existsb_exists.
    exists u. assert (Hin : In u ts) by (rewrite Hts; apply in_or_app; right; left; reflexivity).
    split; [exact Hin|].
    rewrite Forall_forall in H. specialize (H u Hin mode v d Hu).
    destruct mode, strict; auto.
    + apply shapes_mono. exact H.
    + specialize (Hmode eq_refl). discriminate Hmode.
  - cbn [validate] in Hv. cbn [shapes]. unfold has_shape. cbn [existsb].
    destruct v; try reflexivity;
      apply orb_true_iff; right; eapply IHt; exact Hv.
Qed.


(** Take a successful scalar validation apart, down to the value it
    returned. *)
Ltac scalar_Ok H :=
  unfold validate_str, validate_int, validate_float, validate_bool, validate_url,
    int_result, float_result, type_error, constraint_error in H;
  repeat match type of H with
         | Err _ = Ok _ => discriminate H
         | (if ?b then _ else _) = Ok _ => destruct b eqn:?
         | match ?o with Some _ => _ | None => _ end = Ok _ => destruct o eqn:?
         | match ?x with VNone => _ | _ => _ end = Ok _ => destruct x
         end;
  try discriminate H.

Lemma produced_shape : forall t strict v d,
  validate strict t v = Ok d ->
  has_shape (shape_of (dump d)) (out_shapes t) = true.
Proof.
  induction t using ty_nested_ind; intros strict v d Hv.
  - cbn [validate] in Hv. scalar_Ok Hv. inversion Hv. reflexivity.
  - cbn [validate] in Hv. scalar_Ok Hv; inversion Hv; reflexivity.
  - cbn [validate] in Hv. scalar_Ok Hv; inversion Hv; reflexivity.
  - cbn [validate] in Hv. scalar_Ok Hv; inversion Hv; reflexivity.
  - cbn [validate] in Hv. scalar_Ok Hv; inversion Hv; reflexivity.
  - cbn [validate] in Hv. destruct v; try discriminate Hv.
    apply assemble_Ok_inv in Hv. destruct Hv as (_ & _ & ->). reflexivity.
  - cbn [validate] in Hv. destruct v; try discriminate Hv.
    apply assemble_Ok_inv in Hv. destruct Hv as (_ & _ & ->). reflexivity.
  - rewrite validate_model_mode' in Hv. destruct v; try discriminate Hv.
    destruct (strict && negb strict_model_from_dict); [discriminate Hv|].
    apply assemble_Ok_inv in Hv. destruct Hv as (_ & _ & ->). reflexivity.
  - destruct (union_inv _ _ _ _ Hv)
      as (mode & before & u & after & Hts & Hu & _ & _ & _).
    cbn [out_shapes]. rewrite has_shape_flat_map. apply existsb_exists.
    exists u. assert (Hin : In u ts) by (rewrite Hts; apply in_or_app; right; left; reflexivity).
    split; [exact Hin|].
    rewrite Forall_forall in H. eapply H; eauto.
  - cbn [validate] in Hv. cbn [out_shapes]. unfold has_shape. cbn [existsb].
    destruct v; try (inversion Hv; reflexivity);
      apply orb_true_iff; right; eapply IHt; exact Hv.
Qed.

Lemma dump_VNone : forall d, dump d = VNone -> d = DNone.
Proof. destruct d; intro H; try discriminate H; reflexivity. Qed.


(** ** Strict acceptance implies lax acceptance *)

Lemma outcomes_transfer : forall (X A : Type) (o1 o2 : X -> outcome A) xs,
  (forall x, In x xs ->
     match o1 x with
     | inl a => o2 x = inl a
     | inr es => es <> []
     end) ->
  bads (map o1 xs) = [] ->
  bads (map o2 xs) = [] /\ goods (map o2 xs) = goods (map o1 xs).
Proof.
  intros X A o1 o2. induction xs as [|x xs IH]; intros Hx Hb; [split; reflexivity|].
  cbn [map] in *.
  pose proof (Hx x (or_introl eq_refl)) as Hhead.
  assert (Htail : forall y, In y xs ->
            match o1 y with inl a => o2 y = inl a | inr es => es <> [] end)
    by (intros y Hy; apply Hx; right; exact Hy).
  destruct (o1 x) as [a|es] eqn:E1.
  - rewrite Hhead. cbn [bads goods] in *.
    destruct (IH Htail Hb) as [IH1 IH2]. rewrite IH1, IH2. split; reflexivity.
  - cbn [bads] in Hb. apply app_eq_nil in Hb. destruct Hb as [Hb _]. congruence.
Qed.

Lemma strict_implies_lax : forall t,
  no_empty_union t = true ->
  forall v d, validate true t v = Ok d -> validate false t v = Ok d.
Proof.
  induction t using ty_nested_ind; intros Hwf v d Hv.
  - exact Hv.
  - cbn [validate] in *. unfold validate_int in *.
    destruct v; cbn [orb] in Hv; try discriminate Hv; exact Hv.
  - cbn [validate] in *. unfold validate_float in *.
    destruct v; cbn [orb] in Hv; try discriminate Hv; exact Hv.
  - cbn [validate] in *. unfold validate_bool in *.
    destruct v; cbn [orb] in Hv; try discriminate Hv; exact Hv.
  - exact Hv.
  - cbn [validate no_empty_union] in *. destruct v; try discriminate Hv.
    apply assemble_Ok_inv in Hv. destruct Hv as (Hb & _ & ->).
    destruct (outcomes_transfer _ _
                (item_outcome (validate true t)) (item_outcome (validate false t))
                (indexed vs)) as [H1 H2]; [|exact Hb|].
    + intros iv _. unfold item_outcome.
      destruct (validate true t (snd iv)) as [d|es] eqn:E.
      * rewrite (IHt Hwf _ _ E). reflexivity.
      * apply under_nonempty. eapply validate_Err_nonempty; eauto.
    + rewrite assemble_Ok by exact H1. rewrite H2. reflexivity.
  - cbn [validate no_empty_union] in *. destruct v; try discriminate Hv.
    apply assemble_Ok_inv in Hv. destruct Hv as (Hb & _ & ->).
    destruct (outcomes_transfer _ _
                (entry_outcome k (validate true t)) (entry_outcome k (validate false t))
                kvs) as [H1 H2]; [|exact Hb|].
    + intros kv _. unfold entry_outcome.
      destruct (validate true t (snd kv)) as [d|es] eqn:E.
      * rewrite (IHt Hwf _ _ E).
        destruct (satisfies k (fst kv)); [reflexivity | discriminate].
      * apply validate_Err_nonempty in E; [|exact Hwf].
        destruct es; [congruence|].
        destruct (satisfies k (fst kv)); discriminate.
    + rewrite assemble_Ok by exact H1. rewrite H2. reflexivity.
  - rewrite validate_model_mode' in *. destruct v; try discriminate Hv.
    cbn [andb] in *.
    destruct (negb strict_model_from_dict); [discriminate Hv|].
    apply assemble_Ok_inv in Hv. destruct Hv as (Hb & He & ->).
    cbn [no_empty_union] in Hwf. rewrite forallb_forall in Hwf.
    rewrite Forall_forall in H.
    destruct (outcomes_transfer _ _
                (field_outcome (validate true) kvs) (field_outcome (validate false) kvs)
                fields) as [H1 H2]; [|exact Hb|].
    + intros f Hf. unfold field_outcome.
      destruct (lookup (field_key f) kvs) as [x|].
      * destruct (validate true (ftype f) x) as [d|es] eqn:E.
        -- rewrite (H f Hf (Hwf f Hf) _ _ E). reflexivity.
        -- apply under_nonempty. eapply validate_Err_nonempty; eauto.
      * destruct (default f); [reflexivity | discriminate].
    + rewrite He. rewrite assemble_Ok by exact H1. rewrite H2. reflexivity.
  - cbn [validate] in *.
    destruct (first_ok 0 (map (fun t' => validate true t' v) ts)); [exact Hv|].
    discriminate Hv.
  - cbn [validate no_empty_union] in *. destruct v; auto.
Qed.

(** ** Sequences and mappings read back *)

Lemma goods_items_inv : forall (chk : value -> result) ivs d,
  In d (goods (map (item_outcome chk) ivs)) -> exists x, chk x = Ok d.
Proof.
  intros chk. induction ivs as [|iv ivs IH]; intros d H; [destruct H|].
  cbn [map goods] in H. unfold item_outcome at 1 in H.
  destruct (chk (snd iv)) as [d0|es] eqn:E.
  - destruct H as [<- | H]; [eauto | auto].
  - auto.
Qed.

Lemma items_read_back : forall (chk : value -> result) ds i,
  (forall d, In d ds -> chk (dump d) = Ok d) ->
  bads (map (item_outcome chk) (combine (seq i (List.length ds)) (map dump ds))) = []
  /\ goods (map (item_outcome chk) (combine (seq i (List.length ds)) (map dump ds))) = ds.
Proof.
  intros chk. induction ds as [|d ds IH]; intros i H; [split; reflexivity|].
  cbn [List.length seq map combine]. unfold item_outcome at 1 3. cbn [snd].
  rewrite (H d (or_introl eq_refl)). cbn [bads goods].
  destruct (IH (S i)) as [IH1 IH2]; [intros; apply H; right; assumption|].
  rewrite IH1, IH2. split; reflexivity.
Qed.

Lemma goods_entries_inv : forall k (chk : value -> result) kvs kd,
  In kd (goods (map (entry_outcome k chk) kvs)) ->
  satisfies k (fst kd) = true /\ exists x, chk x = Ok (snd kd).
Proof.
  intros k chk. induction kvs as [|kv kvs IH]; intros kd H; [destruct H|].
  cbn [map goods] in H. unfold entry_outcome at 1 in H.
  destruct (chk (snd kv)) as [d0|es] eqn:E.
  - destruct (satisfies k (fst kv)) eqn:Ek.
    + destruct H as [<- | H]; [cbn [fst snd]; eauto | auto].
    + auto.
  - auto.
Qed.

Lemma entries_read_back : forall k (chk : value -> result) kds,
  (forall kd, In kd kds ->
     satisfies k (fst kd) = true /\ chk (dump (snd kd)) = Ok (snd kd)) ->
  bads (map (entry_outcome k chk) (map (fun kd => (fst kd, dump (snd kd))) kds)) = []
  /\ goods (map (entry_outcome k chk) (map (fun kd => (fst kd, dump (snd kd))) kds))
     = kds.
Proof.
  intros k chk. induction kds as [|[key d] kds IH]; intros H; [split; reflexivity|].
  cbn [map]. unfold entry_outcome at 1 3. cbn [fst snd].
  destruct (H (key, d) (or_introl eq_refl)) as [Hk Hd]. cbn [fst snd] in Hk, Hd.
  rewrite Hk, Hd. cbn [bads goods].
  destruct IH as [IH1 IH2]; [intros; apply H; right; assumption|].
  rewrite IH1, IH2. split; reflexivity.
Qed.


(** ** Model instances read back *)

Lemma dump_model : forall cls (F : field -> data) fields,
  dump (DModel cls (map (fun f => (fname f, F f)) fields)) = VDict (dumped F fields).
Proof.
  intros cls F fields. cbn [dump]. f_equal. unfold dumped.
  induction fields as [|f fields IH]; [reflexivity|].
  cbn [map flat_map fst snd]. rewrite IH. f_equal.
  unfold entry_of, dumped_value. destruct (F f); reflexivity.
Qed.

Lemma lookup_app : forall (A : Type) k (l1 l2 : list (string * A)),
  lookup k (l1 ++ l2)
  = match lookup k l1 with
    | Some v => Some v
    | None => lookup k l2
    end.
Proof.
  intros A k. induction l1 as [|[k' v] l1 IH]; intro l2; [reflexivity|].
  cbn [app lookup]. destruct (String.eqb k k'); [reflexivity | apply IH].
Qed.

Lemma lookup_entry_same : forall k d, lookup k (entry_of k d) = dumped_value d.
Proof.
  intros k d. unfold entry_of. destruct (dumped_value d); [|reflexivity].
  cbn [lookup]. rewrite String.eqb_refl. reflexivity.
Qed.

Lemma lookup_entry_other : forall k k' d, k <> k' -> lookup k (entry_of k' d) = None.
Proof.
  intros k k' d H. unfold entry_of. destruct (dumped_value d); [|reflexivity].
  cbn [lookup]. apply String.eqb_neq in H. rewrite H. reflexivity.
Qed.

Lemma lookup_dumped_absent : forall (F : field -> data) fields k,
  ~ In k (map (fun g => external (fname g)) fields) ->
  lookup k (dumped F fields) = None.
Proof.
  intros F. induction fields as [|h fields IH]; intros k Hk; [reflexivity|].
  unfold dumped in *. cbn [flat_map map] in *. rewrite lookup_app.
  rewrite lookup_entry_other by (intro E; apply Hk; left; symmetry; exact E).
  apply IH. intro Hin. apply Hk. right. exact Hin.
Qed.

Lemma lookup_dumped : forall (F : field -> data) fields f,
  distinct (map (fun g => external (fname g)) fields) = true ->
  In f fields ->
  lookup (external (fname f)) (dumped F fields) = dumped_value (F f).
Proof.
  intros F. induction fields as [|h fields IH]; intros f Hd Hf; [destruct Hf|].
  cbn [map] in Hd. pose proof (distinct_In _ _ Hd) as Hn.
  apply distinct_tail in Hd.
  unfold dumped in *. cbn [flat_map]. rewrite lookup_app.
  destruct Hf as [<- | Hf].
  - rewrite lookup_entry_same.
    destruct (dumped_value (F h)); [reflexivity|].
    apply (lookup_dumped_absent F fields). exact Hn.
  - rewrite lookup_entry_other; [apply IH; assumption|].
    intro E. apply Hn. rewrite <- E.
    apply (in_map (fun g => external (fname g))). exact Hf.
Qed.

Lemma extras_dumped : forall (F : field -> data) fields sub,
  (forall g, In g sub -> In g fields /\ external (fname g) = field_key g) ->
  extras fields (dumped F sub) = [].
Proof.
  intros F fields. induction sub as [|h sub IH]; intros H; [reflexivity|].
  unfold dumped, extras in *. cbn [flat_map]. rewrite flat_map_app.
  rewrite IH by (intros g Hg; apply H; right; exact Hg).
  rewrite app_nil_r.
  destruct (H h (or_introl eq_refl)) as [Hin Hkey].
  unfold entry_of. destruct (dumped_value (F h)); [|reflexivity].
  cbn [flat_map fst]. rewrite Hkey, (declared_In _ _ Hin). reflexivity.
Qed.

Lemma assemble_fields_Ok : forall strict cls fields kvs,
  extras fields kvs = [] ->
  forallb (has_data strict kvs) fields = true ->
  assemble (DModel cls) (map (field_outcome (validate strict) kvs) fields)
    (extras fields kvs)
  = Ok (DModel cls (map (fun f => (fname f, field_value strict kvs f)) fields)).
Proof.
  intros strict cls fields kvs He Hd. rewrite He.
  destruct (fields_Ok_intro strict kvs fields Hd) as [H1 H2].
  rewrite assemble_Ok by exact H1. rewrite H2. reflexivity.
Qed.

Lemma dumped_value_cases : forall d,
  (d = DNone /\ dumped_value d = None)
  \/ (d <> DNone /\ dumped_value d = Some (dump d)).
Proof. destruct d; [left; auto | right; split; [discriminate | reflexivity] ..]. Qed.

(** A field of a serialised model gives back the value it held. *)
Lemma field_read_back : forall (F : field -> data) fields f mode,
  distinct (map (fun g => external (fname g)) fields) = true ->
  external (fname f) = field_key f ->
  In f fields ->
  (F f = DNone -> default f = Some DNone) ->
  (F f <> DNone -> validate mode (ftype f) (dump (F f)) = Ok (F f)) ->
  field_data mode (dumped F fields) f = Some (F f).
Proof.
  intros F fields f mode Hd Hkey Hf Hnone Hsome.
  unfold field_data. rewrite <- Hkey, (lookup_dumped F fields f Hd Hf).
  destruct (dumped_value_cases (F f)) as [[E ->] | [E ->]].
  - rewrite E. auto.
  - rewrite (Hsome E). reflexivity.
Qed.


(** ** Unions read back *)

Lemma alternatives_ok_split : forall before u after pre,
  alternatives_ok pre (before ++ u :: after) = true ->
  alternative_ok (pre ++ before) u after = true.
Proof.
  induction before as [|t before IH]; intros u after pre H.
  - cbn [app alternatives_ok] in H. apply andb_true_iff in H.
    rewrite app_nil_r. tauto.
  - cbn [app alternatives_ok] in H. apply andb_true_iff in H. destruct H as [_ H].
    apply IH in H. rewrite <- app_assoc in H. exact H.
Qed.

Lemma shape_eqb_eq : forall a b, shape_eqb a b = true -> a = b.
Proof. destruct a, b; intro H; try discriminate H; reflexivity. Qed.

Lemma disjoint_has_shape : forall l1 l2 s,
  disjoint l1 l2 = true -> has_shape s l1 = true -> has_shape s l2 = false.
Proof.
  intros l1 l2 s Hd Hs. unfold disjoint in Hd. rewrite forallb_forall in Hd.
  unfold has_shape in Hs. apply existsb_exists in Hs. destruct Hs as (s' & Hin & E).
  apply shape_eqb_eq in E. subst s'. apply negb_true_iff. auto.
Qed.

Lemma disjoint_rejects : forall u t mode x,
  disjoint (out_shapes u) (shapes mode t) = true ->
  has_shape (shape_of x) (out_shapes u) = true ->
  fails (validate mode t x).
Proof.
  intros u t mode x Hd Hs.
  destruct (fails_or_Ok (validate mode t x)) as [Hf | [d Hd']]; [exact Hf|].
  apply accepted_shape in Hd'.
  rewrite (disjoint_has_shape _ _ _ Hd Hs) in Hd'. discriminate Hd'.
Qed.

Lemma http_scheme_nonempty : forall s,
  is_http_scheme (url_scheme s) = true -> s <> EmptyString.
Proof. intros s H E. subst s. discriminate H. Qed.

Lemma shadows_answers : forall t u mode v d,
  http_only L ->
  shadows t u = true ->
  validate mode u v = Ok d ->
  exists d', validate true t v = Ok d'.
Proof.
  intros t u mode v d Hhttp Hs Hv. unfold shadows in Hs.
  destruct t as [c| | | | | | | | |]; try discriminate Hs.
  destruct c as [[[|[|n]]|] [p|]]; try discriminate Hs.
  destruct u; try discriminate Hs.
  cbn [validate] in *. unfold validate_url in Hv.
  destruct v as [| | | |s| |]; try discriminate Hv.
  destruct (http_url s) as [u0|] eqn:E; [|discriminate Hv].
  apply Hhttp in E. apply http_scheme_nonempty in E.
  destruct s as [|c s]; [congruence|].
  eexists. reflexivity.
Qed.

Lemma strict_ok_member : forall ts u,
  strict_ok (TUnion ts) = true -> In u ts -> strict_ok u = true.
Proof.
  intros ts u H Hin. unfold strict_ok in *. cbn [has_model] in H.
  destruct strict_model_from_dict; [reflexivity|]. cbn [orb] in *.
  apply negb_true_iff in H. apply negb_true_iff.
  destruct (has_model u) eqn:E; [|reflexivity].
  rewrite <- H. symmetry. apply existsb_exists. eauto.
Qed.

Lemma strict_ok_false : forall u,
  strict_ok u = false -> strict_model_from_dict = false /\ has_model u = true.
Proof.
  intros u H. unfold strict_ok in H. apply orb_false_iff in H.
  destruct H as [H1 H2]. apply negb_false_iff in H2. auto.
Qed.

(** The value an alternative produced is, once serialised, given back by
    the union. *)
Lemma union_read_back : forall ts before u after d mode2,
  no_empty_union u = true ->
  ts = before ++ u :: after ->
  alternative_ok before u after = true ->
  has_shape (shape_of (dump d)) (out_shapes u) = true ->
  Forall (fun t => shadows t u = false) before ->
  (forall m, (m = true -> strict_ok u = true) -> validate m u (dump d) = Ok d) ->
  (mode2 = true -> strict_ok (TUnion ts) = true) ->
  validate mode2 (TUnion ts) (dump d) = Ok d.
Proof.
  intros ts before u after d mode2 Hwf Hts Hok Hshape Hnoshadow IHu Hmode.
  unfold alternative_ok in Hok. apply andb_true_iff in Hok. destruct Hok as [A1 A2].
  rewrite forallb_forall in A1. rewrite Forall_forall in Hnoshadow.
  assert (X : Forall (fun t => fails (validate true t (dump d))) before).
  { apply Forall_forall. intros t Ht. specialize (A1 t Ht).
    rewrite (Hnoshadow t Ht) in A1. cbn [orb] in A1.
    eapply disjoint_rejects; eauto. }
  cbn [validate]. subst ts.
  destruct (strict_ok u) eqn:Eso.
  - rewrite (first_ok_intro (fun t' => validate true t' (dump d)) before u after 0 d X)
      by (apply IHu; auto).
    reflexivity.
  - assert (mode2 = false).
    { destruct mode2; [|reflexivity].
      rewrite (strict_ok_member _ u (Hmode eq_refl)) in Eso; [discriminate Eso|].
      apply in_or_app. right. left. reflexivity. }
    subst mode2.
    destruct (strict_ok_false u Eso) as [_ Hm]. rewrite Hm in A2. cbn [negb orb] in A2.
    apply andb_true_iff in A2. destruct A2 as [A2 A3].
    rewrite forallb_forall in A2, A3.
    assert (Hlax : validate false u (dump d) = Ok d) by (apply IHu; discriminate).
    destruct (fails_or_Ok (validate true u (dump d))) as [Hf | [d' Hd']].
    + assert (Hall : Forall (fun t => fails (validate true t (dump d)))
                       (before ++ u :: after)).
      { apply Forall_app. split; [exact X|]. constructor; [exact Hf|].
        apply Forall_forall. intros t Ht. eapply disjoint_rejects; eauto. }
      destruct (first_ok_fails (fun t' => validate true t' (dump d)) _ 0 Hall)
        as [es ->].
      apply first_ok_intro; [|exact Hlax].
      apply Forall_forall. intros t Ht. eapply disjoint_rejects; eauto.
    + pose proof (strict_implies_lax u Hwf _ _ Hd') as Hd''.
      assert (d' = d) by congruence. subst d'.
      rewrite (first_ok_intro (fun t' => validate true t' (dump d)) before u after 0 d X Hd').
      reflexivity.
Qed.


(** ** Serialising and validating again *)

Lemma strict_ok_model : forall cls fields f,
  strict_ok (TModel cls fields) = true -> strict_ok (ftype f) = true.
Proof.
  intros cls fields f H. unfold strict_ok in *. cbn [has_model negb] in H.
  rewrite orb_false_r in H. rewrite H. reflexivity.
Qed.

Lemma field_ready_default : forall f strict x,
  field_ready f = true ->
  validate strict (ftype f) x = Ok DNone ->
  default f = Some DNone.
Proof.
  intros f strict x Hr Hv. unfold field_ready in Hr.
  apply andb_true_iff in Hr. destruct Hr as [_ Hr].
  apply produced_shape in Hv. cbn [dump shape_of] in Hv.
  destruct (default f) as [[]|]; try discriminate Hr; try reflexivity.
  rewrite Hv in Hr. discriminate Hr.
Qed.

Lemma field_ready_no_other_default : forall f d,
  field_ready f = true -> default f = Some d -> d = DNone.
Proof.
  intros f d Hr Hd. unfold field_ready in Hr.
  apply andb_true_iff in Hr. destruct Hr as [_ Hr]. rewrite Hd in Hr.
  destruct d; try discriminate Hr; reflexivity.
Qed.

Lemma external_keys : forall fields,
  forallb field_ready fields = true ->
  map (fun g => external (fname g)) fields = map field_key fields.
Proof.
  intros fields H. apply map_ext_in. intros g Hg.
  rewrite forallb_forall in H. specialize (H g Hg).
  unfold field_ready in H. apply andb_true_iff in H. destruct H as [H _].
  apply String.eqb_eq. exact H.
Qed.

(** Whatever a type validated to, its serialised form validates to the same
    value: in lax mode always, in strict mode when no model stands in the
    way. *)
Lemma read_back :
  http_only L -> url_stable L ->
  forall t,
    no_empty_union t = true ->
    roundtrip_ready t = true ->
    forall strict v d,
      validate strict t v = Ok d ->
      forall mode2, (mode2 = true -> strict_ok t = true) ->
                    validate mode2 t (dump d) = Ok d.
Proof.
  intros Hhttp Hstable.
  induction t using ty_nested_ind; intros Hwf Hr strict v d Hv mode2 Hmode.
  - cbn [validate] in Hv. scalar_Ok Hv. inversion Hv; subst.
    cbn [dump validate]. unfold validate_str.
    match goal with E : satisfies _ _ = true |- _ => rewrite E end. reflexivity.
  - cbn [validate] in Hv. scalar_Ok Hv; inversion Hv; subst;
      cbn [dump validate]; unfold validate_int, int_result;
      match goal with E : in_range _ _ _ = true |- _ => rewrite E end; reflexivity.
  - cbn [validate] in Hv. scalar_Ok Hv; inversion Hv; subst;
      cbn [dump validate]; unfold validate_float, float_result;
      match goal with E : greater_than _ _ = true |- _ => rewrite E end; reflexivity.
  - cbn [validate] in Hv. scalar_Ok Hv; inversion Hv; subst; reflexivity.
  - cbn [validate] in Hv. scalar_Ok Hv. inversion Hv; subst.
    cbn [dump validate]. unfold validate_url.
    match goal with E : http_url _ = Some _ |- _ => rewrite (Hstable _ _ E) end.
    reflexivity.
  - (* sequences *)
    cbn [validate] in Hv. destruct v; try discriminate Hv.
    apply assemble_Ok_inv in Hv. destruct Hv as (_ & _ & ->).
    cbn [no_empty_union roundtrip_ready] in *.
    set (ds := goods (map (item_outcome (validate strict t)) (indexed vs))).
    assert (Hds : forall d, In d ds -> validate mode2 t (dump d) = Ok d).
    { intros d Hd. apply goods_items_inv in Hd. destruct Hd as [x Hx].
      eapply IHt; eauto. }
    cbn [dump validate]. unfold indexed. rewrite length_map.
    destruct (items_read_back (validate mode2 t) ds 0 Hds) as [H1 H2].
    rewrite assemble_Ok by exact H1. rewrite H2. reflexivity.
  - (* mappings *)
    cbn [validate] in Hv. destruct v; try discriminate Hv.
    apply assemble_Ok_inv in Hv. destruct Hv as (_ & _ & ->).
    cbn [no_empty_union roundtrip_ready] in *.
    set (kds := goods (map (entry_outcome k (validate strict t)) kvs)).
    assert (Hkds : forall kd, In kd kds ->
              satisfies k (fst kd) = true
              /\ validate mode2 t (dump (snd kd)) = Ok (snd kd)).
    { intros kd Hkd. apply goods_entries_inv in Hkd. destruct Hkd as [Hk [x Hx]].
      split; [exact Hk|]. eapply IHt; eauto. }
    cbn [dump validate].
    destruct (entries_read_back k (validate mode2 t) kds Hkds) as [H1 H2].
    rewrite assemble_Ok by exact H1. rewrite H2. reflexivity.
  - (* models *)
    rewrite validate_model_mode' in Hv. destruct v; try discriminate Hv.
    destruct (strict && negb strict_model_from_dict); [discriminate Hv|].
    apply assemble_Ok_inv in Hv. destruct Hv as (Hb & He & ->).
    cbn [no_empty_union roundtrip_ready] in Hwf, Hr.
    apply andb_true_iff in Hr. destruct Hr as [Hr Hrt].
    apply andb_true_iff in Hr. destruct Hr as [Hdist Hready].
    destruct (fields_Ok_inv strict kvs fields Hwf Hb) as [Hall ->].
    set (F := field_value strict kvs).
    rewrite dump_model, validate_model_mode'.
    assert (Hflag : mode2 && negb strict_model_from_dict = false).
    { destruct mode2; [|reflexivity]. specialize (Hmode eq_refl).
      unfold strict_ok in Hmode. cbn [has_model negb] in Hmode.
      rewrite orb_false_r in Hmode. rewrite Hmode. reflexivity. }
    rewrite Hflag.
    pose proof (external_keys fields Hready) as Hkeys.
    assert (Hdist' : distinct (map (fun g => external (fname g)) fields) = true)
      by (rewrite Hkeys; exact Hdist).
    rewrite forallb_forall in Hready, Hall, Hwf, Hrt.
    rewrite Forall_forall in H.
    assert (Hkey : forall f, In f fields -> external (fname f) = field_key f).
    { intros f Hf. specialize (Hready f Hf). unfold field_ready in Hready.
      apply andb_true_iff in Hready. apply String.eqb_eq. tauto. }
    assert (Hfield : forall f, In f fields ->
              field_data mode2 (dumped F fields) f = Some (F f)).
    { intros f Hf.
      pose proof (Hall f Hf) as Hdata. unfold has_data in Hdata.
      destruct (field_data strict kvs f) as [df|] eqn:Ed; [|discriminate Hdata].
      assert (EF : F f = df) by (unfold F, field_value; rewrite Ed; reflexivity).
      unfold field_data in Ed.
      apply (field_read_back F fields f mode2 Hdist' (Hkey f Hf) Hf); rewrite EF.
      - intros ->.
        destruct (lookup (field_key f) kvs) as [x|]; [|exact Ed].
        destruct (validate strict (ftype f) x) as [dx|] eqn:Ex; [|discriminate Ed].
        inversion Ed; subst dx. eapply field_ready_default; eauto.
      - intros Hne.
        destruct (lookup (field_key f) kvs) as [x|].
        + destruct (validate strict (ftype f) x) as [dx|] eqn:Ex; [|discriminate Ed].
          inversion Ed; subst dx.
          eapply (H f Hf); eauto.
          intros ->. eapply strict_ok_model. eauto.
        + exfalso. apply Hne. eapply field_ready_no_other_default; eauto. }
    assert (Hextras : extras fields (dumped F fields) = []).
    { apply extras_dumped. intros g Hg. split; [exact Hg | exact (Hkey g Hg)]. }
    rewrite assemble_fields_Ok.
    + f_equal. f_equal. apply map_ext_in. intros f Hf.
      unfold field_value at 1. rewrite (Hfield f Hf). reflexivity.
    + exact Hextras.
    + apply forallb_forall. intros f Hf. unfold has_data.
      rewrite (Hfield f Hf). reflexivity.
  - (* unions *)
    destruct (union_inv _ _ _ _ Hv)
      as (mode & before & u & after & Hts & Hu & Hb & Hbs & _).
    assert (Hin : In u ts) by (rewrite Hts; apply in_or_app; right; left; reflexivity).
    cbn [roundtrip_ready] in Hr. apply andb_true_iff in Hr. destruct Hr as [Halt Hrt].
    assert (Hwfu : no_empty_union u = true).
    { cbn [no_empty_union] in Hwf. destruct ts; [discriminate Hwf|].
      rewrite forallb_forall in Hwf. auto. }
    rewrite forallb_forall in Hrt. rewrite Forall_forall in H.
    eapply union_read_back with (before := before) (u := u) (after := after); eauto.
    + rewrite Hts in Halt. apply (alternatives_ok_split before u after []) in Halt.
      exact Halt.
    + eapply produced_shape; eauto.
    + apply Forall_forall. intros t Ht.
      destruct (shadows t u) eqn:Es; [|reflexivity].
      destruct (shadows_answers t u mode v d Hhttp Es Hu) as [d' Hd'].
      rewrite Forall_forall in Hbs. destruct (Hbs t Ht) as [es Hes]. congruence.
  - (* optional *)
    cbn [no_empty_union roundtrip_ready] in *.
    assert (Hinner : forall d0, validate strict t v = Ok d0 ->
              validate mode2 (TOptional t) (dump d0) = Ok d0).
    { intros d0 Hd0. cbn [validate].
      destruct (dump d0) eqn:Ed;
        try (rewrite <- Ed; eapply IHt; eauto).
      apply dump_VNone in Ed. subst d0. reflexivity. }
    cbn [validate] in Hv. destruct v; auto.
    inversion Hv; subst. reflexivity.
Qed.


(** C9. Round trip: when a document validates as a manifest V, the
    serialised form of V (external spellings, absent fields left out)
    validates again, and to the same V, equal as a value tree.  The URL
    parser is assumed to accept only http and https URLs and to return URLs
    that parse to themselves. *)
Theorem roundtrip :
  http_only L -> url_stable L ->
  forall doc V,
    model_validate BaseManifest doc = Ok V ->
    model_validate BaseManifest (dump V) = Ok V.
Proof.
  intros Hhttp Hstable doc V Hv. unfold model_validate in *.
  apply (read_back Hhttp Hstable BaseManifest) with (strict := false) (v := doc).
  - reflexivity.
  - reflexivity.
  - exact Hv.
  - discriminate.
Qed.


(* ------------------------------------------------------------------ *)
(** ** Required fields, empty mappings and values that are no mapping *)

Lemma bads_incl : forall (A X : Type) (o : X -> outcome A) xs x es0 e,
  In x xs -> o x = inr es0 -> In e es0 -> In e (bads (map o xs)).
Proof.
  intros A X o. induction xs as [|y xs IH]; intros x es0 e Hx Ho He; [destruct Hx|].
  cbn [map bads]. destruct Hx as [-> | Hx].
  - rewrite Ho. apply in_or_app. left. exact He.
  - destruct (o y); [|apply in_or_app; right]; eapply IH; eauto.
Qed.

Lemma required_listed : forall E f,
  In E entities -> In f (fields_of E) -> is_required f = true ->
  In (class_name E, fname f) required_fields.
Proof.
  intros E f HE Hf Hr. simpl in HE.
  repeat (destruct HE as [<- | HE];
          [ simpl in Hf;
            repeat (destruct Hf as [<- | Hf];
                    [ try discriminate Hr; simpl; tauto |]);
            destruct Hf |]).
  destruct HE.
Qed.

(** X1. A required field that is absent is reported: for every entity and
    every field of it declared without a default (they are
    ChannelInlineTable.channel, Project.name, Project.platforms and
    BaseManifest.project), a mapping without the field's key fails, with a
    MissingField violation at that key. *)
Theorem required_field_missing : forall E f kvs,
  In E entities ->
  In f (fields_of E) ->
  is_required f = true ->
  lookup (field_key f) kvs = None ->
  In (class_name E, fname f) required_fields
  /\ exists es, model_validate E (VDict kvs) = Err es
                /\ In (Violation [Key (field_key f)] MissingField) es.
Proof.
  intros E f kvs HE Hf Hr Hl.
  split; [apply required_listed; assumption|].
  destruct (entities_are_models E HE) as [cls Heq].
  unfold model_validate. rewrite Heq, validate_model.
  assert (Hin : In (missing (field_key f))
                  (bads (map (field_outcome (validate false) kvs) (fields_of E))
                   ++ extras (fields_of E) kvs)).
  { apply in_or_app. left.
    apply (bads_incl _ _ (field_outcome (validate false) kvs) (fields_of E) f
             [missing (field_key f)]); [exact Hf | | left; reflexivity].
    unfold field_outcome. rewrite Hl. unfold is_required in Hr.
    destruct (default f); [discriminate Hr | reflexivity]. }
  eexists. split; [eapply assemble_Err; exact Hin | exact Hin].
Qed.

Lemma filter_length_zero : forall (A : Type) (p : A -> bool) l x,
  List.length (filter p l) = 0 -> In x l -> p x = false.
Proof.
  intros A p. induction l as [|a l IH]; intros x H Hx; [destruct Hx|].
  cbn [filter] in H. destruct (p a) eqn:E; [discriminate H|].
  destruct Hx as [<- | Hx]; [exact E | apply IH; assumption].
Qed.

(** X2. Validation of a mapping as an entity succeeds exactly when the
    mapping has no field-level problem: no required field is missing, no
    present field has an invalid value, and no key is undeclared. *)
Theorem success_iff_no_problems : forall E kvs,
  In E entities ->
  ((exists d, model_validate E (VDict kvs) = Ok d) <-> problems E kvs = 0).
Proof.
  intros E kvs HE.
  destruct (well_declared_parts E HE) as (_ & _ & Hu & _ & _).
  destruct (entities_are_models E HE) as [cls Heq].
  unfold model_validate. split.
  - intros [d Hv]. rewrite Heq in Hv |- *.
    pose proof (problems_reported cls (fields_of E) kvs Hu) as Hle.
    rewrite validate_model in Hv. apply assemble_Ok_inv in Hv.
    destruct Hv as (Hb & He & _). rewrite Hb, He in Hle. simpl in Hle. lia.
  - intro Hp. unfold problems in Hp.
    assert (Hm : List.length (filter (is_missing kvs) (fields_of E)) = 0) by lia.
    assert (Hi : List.length (filter (is_invalid kvs) (fields_of E)) = 0) by lia.
    assert (Hk : List.length (filter (is_unknown (fields_of E)) kvs) = 0) by lia.
    rewrite Heq. eexists. apply model_Ok_intro.
    + rewrite <- extras_count in Hk. apply length_zero_iff_nil. exact Hk.
    + apply forallb_forall. intros f Hf.
      pose proof (filter_length_zero _ _ _ f Hm Hf) as Hm'.
      pose proof (filter_length_zero _ _ _ f Hi Hf) as Hi'.
      unfold has_data, field_data.
      unfold is_missing, absent, is_required, is_invalid in Hm', Hi'.
      destruct (lookup (field_key f) kvs) as [x|].
      * destruct (validate false (ftype f) x); [reflexivity | discriminate Hi'].
      * destruct (default f); [reflexivity | discriminate Hm'].
Qed.

(** X3. An entity is built from a mapping only: validating anything else (a
    sequence, a scalar, [None]) as an entity fails with the single violation
    TypeMismatch at the root. *)
Theorem non_mapping_rejected : forall E doc,
  In E entities ->
  is_mapping doc = false ->
  model_validate E doc = Err [Violation [] TypeMismatch].
Proof.
  intros E doc HE Hd.
  destruct (entities_are_models E HE) as [cls ->].
  unfold model_validate. rewrite validate_model_mode'.
  destruct doc; try reflexivity. discriminate Hd.
Qed.

Lemma empty_mapping_outcomes : forall (chk : ty -> value -> result) fields,
  forallb default_is_None fields = true ->
  bads (map (field_outcome chk []) fields)
  = map (fun f => missing (field_key f)) (filter (@is_required) fields)
  /\ goods (map (field_outcome chk []) fields)
     = map (fun f => (fname f, DNone)) (filter not_required fields).
Proof.
  intros chk. induction fields as [|f fields IH]; intros H; [split; reflexivity|].
  cbn [forallb] in H. apply andb_true_iff in H. destruct H as [Hf Hfs].
  destruct (IH Hfs) as [IH1 IH2].
  cbn [map filter]. unfold field_outcome at 1 3. cbn [lookup].
  unfold not_required, is_required, default_is_None in *.
  destruct (default f) as [d|].
  - destruct d; try discriminate Hf. cbn [negb bads goods map].
    rewrite IH1, IH2. split; reflexivity.
  - cbn [negb bads goods map app]. rewrite IH1, IH2. split; reflexivity.
Qed.

Lemma filter_all : forall (A : Type) (p : A -> bool) l,
  forallb p l = true -> filter p l = l.
Proof.
  intros A p. induction l as [|a l IH]; intro H; [reflexivity|].
  cbn [forallb] in H. apply andb_true_iff in H. destruct H as [Ha Hl].
  cbn [filter]. rewrite Ha, (IH Hl). reflexivity.
Qed.

Lemma filter_none : forall (A : Type) (p : A -> bool) l,
  forallb (fun x => negb (p x)) l = true -> filter p l = [].
Proof.
  intros A p. induction l as [|a l IH]; intro H; [reflexivity|].
  cbn [forallb] in H. apply andb_true_iff in H. destruct H as [Ha Hl].
  cbn [filter]. apply negb_true_iff in Ha. rewrite Ha. exact (IH Hl).
Qed.

Lemma filter_some : forall (A : Type) (p : A -> bool) l,
  forallb (fun x => negb (p x)) l = false -> filter p l <> [].
Proof.
  intros A p. induction l as [|a l IH]; intro H; [discriminate H|].
  cbn [forallb] in H. cbn [filter]. destruct (p a); [discriminate|].
  cbn [negb andb] in H. exact (IH H).
Qed.

(** X4. The empty mapping: an entity all of whose fields have a default
    accepts it and every attribute of the instance is [None]; an entity with
    required fields rejects it with exactly one MissingField violation per
    required field, in declaration order. *)
Theorem empty_mapping : forall E,
  In E entities ->
  model_validate E (VDict [])
  = if forallb not_required (fields_of E) then Ok (all_none E)
    else Err (map (fun f => Violation [Key (field_key f)] MissingField)
                (filter (@is_required) (fields_of E))).
Proof.
  intros E HE.
  destruct (well_declared_parts E HE) as (_ & _ & _ & Hd & _).
  destruct (entities_are_models E HE) as [cls Heq].
  assert (Hc : class_name E = cls) by (rewrite Heq; reflexivity).
  unfold model_validate, all_none. rewrite Hc.
  replace (validate false E (VDict []))
    with (validate false (TModel cls (fields_of E)) (VDict []))
    by (rewrite <- Heq; reflexivity).
  rewrite validate_model.
  destruct (empty_mapping_outcomes (validate false) (fields_of E) Hd) as [Hb Hg].
  unfold assemble. cbn [extras flat_map]. rewrite app_nil_r, Hb, Hg.
  destruct (forallb not_required (fields_of E)) eqn:Eall.
  - rewrite (filter_none _ (@is_required) (fields_of E)) by exact Eall.
    rewrite (filter_all _ not_required (fields_of E)) by exact Eall.
    reflexivity.
  - pose proof (filter_some _ (@is_required) (fields_of E) Eall) as Hne.
    destruct (filter (@is_required) (fields_of E)); [congruence | reflexivity].
Qed.

Lemma optional_typed_defaulted : forall E f t,
  In E entities -> In f (fields_of E) -> ftype f = TOptional t ->
  default f = Some DNone.
Proof.
  intros E f t HE Hf Ht. simpl in HE.
  repeat (destruct HE as [<- | HE];
          [ simpl in Hf;
            repeat (destruct Hf as [<- | Hf];
                    [ try discriminate Ht; reflexivity |]);
            destruct Hf |]).
  destruct HE.
Qed.

(** X5. Writing [None] for a field whose annotation includes [None] is the
    same as leaving the key out: the two mappings give the same result, the
    same instance or the same violations. *)
Theorem explicit_None_is_omission : forall E f t kvs,
  In E entities ->
  In f (fields_of E) ->
  ftype f = TOptional t ->
  lookup (field_key f) kvs = None ->
  model_validate E (VDict ((field_key f, VNone) :: kvs))
  = model_validate E (VDict kvs).
Proof.
  intros E f t kvs HE Hf Ht Hl.
  destruct (well_declared_parts E HE) as (_ & Hk & _ & _ & _).
  pose proof (optional_typed_defaulted E f t HE Hf Ht) as Hdef.
  destruct (entities_are_models E HE) as [cls Heq].
  unfold model_validate. rewrite Heq, !validate_model.
  f_equal.
  - apply map_ext_in. intros g Hg. unfold field_outcome. cbn [lookup].
    destruct (String.eqb (field_key g) (field_key f)) eqn:Eg; [|reflexivity].
    apply String.eqb_eq in Eg.
    assert (g = f) by (eapply distinct_inj with (key := field_key); eauto).
    subst g. rewrite Hl, Ht, Hdef. reflexivity.
  - unfold extras. cbn [flat_map fst]. rewrite (declared_In _ _ Hf). reflexivity.
Qed.


(* ------------------------------------------------------------------ *)
(** ** Unions with a string alternative *)

(** X6. In every union of the manifest model that has the non-empty-string
    alternative (channel, dependency, PyPI requirement, task, cmd and
    depends_on, and the float-or-string and bool-or-string system
    requirements), a non-empty string resolves to the string alternative and
    is returned unchanged, in strict and in lax mode: a number, a boolean or
    a URL written as a string stays a string. *)
Theorem string_alternative_wins : forall U strict c s,
  In U (unions BaseManifest) ->
  existsb is_NonEmptyStr (alternatives U) = true ->
  validate strict U (VStr (String c s)) = Ok (DStr (String c s)).
Proof.
  intros U strict c s HU Hs. revert strict c s. simpl in HU.
  repeat (destruct HU as [<- | HU];
          [ try discriminate Hs; intros [] c s; reflexivity |]).
  destruct HU.
Qed.

(** X7. The channel of a channel table is always a plain string: in
    [NonEmptyStr | AnyHttpUrl] the URL alternative never answers, because
    every string the URL parser accepts is non-empty and the string
    alternative takes it first. *)
Theorem channel_is_never_a_url : forall strict v d,
  http_only L ->
  field_type ChannelInlineTable "channel"
  = Some (TUnion [TStr NonEmptyStr; AnyHttpUrl])
  /\ (validate strict (TUnion [TStr NonEmptyStr; AnyHttpUrl]) v = Ok d ->
      exists c s, v = VStr (String c s) /\ d = DStr (String c s)).
Proof.
  intros strict v d Hhttp. split; [reflexivity|]. intro Hv.
  destruct v as [| b | z | f | s | vs | kvs];
    try (destruct strict; cbn in Hv; discriminate Hv).
  destruct s as [|c s].
  - exfalso.
    assert (Hno : http_url EmptyString = None).
    { destruct (http_url EmptyString) as [u|] eqn:E; [|reflexivity].
      apply Hhttp in E. discriminate E. }
    destruct strict; cbn -[http_url] in Hv; rewrite Hno in Hv; discriminate Hv.
  - exists c, s. split; [reflexivity|].
    destruct strict; cbn in Hv; inversion Hv; reflexivity.
Qed.

(* ------------------------------------------------------------------ *)
(** ** Sequences and mappings are validated element by element *)

Lemma items_Ok_inv : forall (chk : value -> result) vs i,
  (forall x es, chk x = Err es -> es <> []) ->
  bads (map (item_outcome chk) (combine (seq i (List.length vs)) vs)) = [] ->
  Forall2 (fun x dx => chk x = Ok dx) vs
    (goods (map (item_outcome chk) (combine (seq i (List.length vs)) vs))).
Proof.
  intros chk. induction vs as [|x vs IH]; intros i Hne Hb; [constructor|].
  cbn [List.length seq combine map] in *. unfold item_outcome at 1 in Hb.
  unfold item_outcome at 1. cbn [snd fst] in *.
  destruct (chk x) as [d|es] eqn:E.
  - cbn [bads goods] in *. constructor; [exact E | apply IH; assumption].
  - cbn [bads] in Hb. apply app_eq_nil in Hb. destruct Hb as [Hb _].
    apply Hne in E. destruct es; [congruence | discriminate Hb].
Qed.

Lemma items_Ok_intro : forall (chk : value -> result) vs ds i,
  Forall2 (fun x dx => chk x = Ok dx) vs ds ->
  bads (map (item_outcome chk) (combine (seq i (List.length vs)) vs)) = []
  /\ goods (map (item_outcome chk) (combine (seq i (List.length vs)) vs)) = ds.
Proof.
  intros chk vs ds i H. revert i.
  induction H as [|x dx vs ds Hx _ IH]; intro i; [split; reflexivity|].
  cbn [List.length seq combine map]. unfold item_outcome at 1 3. cbn [snd].
  rewrite Hx. cbn [bads goods]. destruct (IH (S i)) as [-> ->]. split; reflexivity.
Qed.

(** X8. A sequence is validated element by element: [list[T]] accepts a
    sequence exactly when [T] accepts every element, and the validated list
    has the validated elements in the same order (hence the same length).
    This is how authors, platforms, channels, extras, scripts, features and
    cmd are read. *)
Theorem list_elementwise : forall t strict vs d,
  no_empty_union t = true ->
  (validate strict (TList t) (VList vs) = Ok d
   <-> exists ds, d = DList ds
                  /\ Forall2 (fun x dx => validate strict t x = Ok dx) vs ds).
Proof.
  intros t strict vs d Hwf. cbn [validate]. unfold indexed. split.
  - intro Hv. apply assemble_Ok_inv in Hv. destruct Hv as (Hb & _ & ->).
    eexists. split; [reflexivity|].
    apply items_Ok_inv; [|exact Hb].
    intros x es. apply validate_Err_nonempty. exact Hwf.
  - intros (ds & -> & H).
    destruct (items_Ok_intro (validate strict t) vs ds 0 H) as [H1 H2].
    rewrite assemble_Ok by exact H1. rewrite H2. reflexivity.
Qed.

Lemma entries_Ok_inv : forall k (chk : value -> result) kvs,
  (forall x es, chk x = Err es -> es <> []) ->
  bads (map (entry_outcome k chk) kvs) = [] ->
  Forall2 (fun kv kd => fst kd = fst kv /\ satisfies k (fst kv) = true
                        /\ chk (snd kv) = Ok (snd kd))
    kvs (goods (map (entry_outcome k chk) kvs)).
Proof.
  intros k chk. induction kvs as [|kv kvs IH]; intros Hne Hb; [constructor|].
  cbn [map] in *. unfold entry_outcome at 1 in Hb. unfold entry_outcome at 1.
  destruct (chk (snd kv)) as [d|es] eqn:E.
  - destruct (satisfies k (fst kv)) eqn:Ek.
    + cbn [bads goods] in *. constructor; [cbn [fst snd]; auto | apply IH; assumption].
    + cbn [bads] in Hb. discriminate Hb.
  - cbn [bads] in Hb. apply app_eq_nil in Hb. destruct Hb as [Hb _].
    apply app_eq_nil in Hb. destruct Hb as [_ Hb].
    apply Hne in E. destruct es; [congruence | discriminate Hb].
Qed.

Lemma entries_Ok_intro : forall k (chk : value -> result) kvs kds,
  Forall2 (fun kv kd => fst kd = fst kv /\ satisfies k (fst kv) = true
                        /\ chk (snd kv) = Ok (snd kd)) kvs kds ->
  bads (map (entry_outcome k chk) kvs) = []
  /\ goods (map (entry_outcome k chk) kvs) = kds.
Proof.
  intros k chk kvs kds H.
  induction H as [|kv [key d] kvs kds (Hk & Hs & Hx) _ IH]; [split; reflexivity|].
  cbn [map]. unfold entry_outcome at 1 3. cbn [fst snd] in *.
  rewrite Hx, Hs. cbn [bads goods]. destruct IH as [-> ->]. subst key.
  split; reflexivity.
Qed.

(** X9. A mapping is validated entry by entry: [dict[K, T]] accepts a
    mapping exactly when every key satisfies [K] and [T] accepts every value;
    the validated mapping has the same keys in the same order.  With the key
    types of the model ([NonEmptyStr] throughout) this says that package,
    task, environment, feature and target names must be non-empty. *)
Theorem dict_entrywise : forall k t strict kvs d,
  no_empty_union t = true ->
  (validate strict (TDict k t) (VDict kvs) = Ok d
   <-> exists kds,
         d = DDict kds
         /\ Forall2 (fun kv kd => fst kd = fst kv
                                  /\ satisfies k (fst kv) = true
                                  /\ validate strict t (snd kv) = Ok (snd kd))
              kvs kds)
  /\ (forall s, satisfies NonEmptyStr s = negb (is_empty s)).
Proof.
  intros k t strict kvs d Hwf.
  split; [|intros [|c s]; reflexivity].
  cbn [validate]. split.
  - intro Hv. apply assemble_Ok_inv in Hv. destruct Hv as (Hb & _ & ->).
    eexists. split; [reflexivity|].
    apply entries_Ok_inv; [|exact Hb].
    intros x es. apply validate_Err_nonempty. exact Hwf.
  - intros (kds & -> & H).
    destruct (entries_Ok_intro k (validate strict t) kvs kds H) as [H1 H2].
    rewrite assemble_Ok by exact H1. rewrite H2. reflexivity.
Qed.


(* ------------------------------------------------------------------ *)
(** ** Where violations sit *)

Lemma bads_inv : forall (A X : Type) (o : X -> outcome A) xs e,
  In e (bads (map o xs)) ->
  exists x es0, In x xs /\ o x = inr es0 /\ In e es0.
Proof.
  intros A X o. induction xs as [|y xs IH]; intros e H; [destruct H|].
  cbn [map bads] in H. destruct (o y) as [a|es0] eqn:E.
  - destruct (IH e H) as (x & es1 & Hx & Ho & He).
    exists x, es1. repeat split; [right; exact Hx | exact Ho | exact He].
  - apply in_app_or in H. destruct H as [H|H].
    + exists y, es0. repeat split; [left; reflexivity | exact E | exact H].
    + destruct (IH e H) as (x & es1 & Hx & Ho & He).
      exists x, es1. repeat split; [right; exact Hx | exact Ho | exact He].
Qed.

Lemma In_under : forall s es e,
  In e (under s es) -> exists e', In e' es /\ e = Violation (s :: loc e') (vkind e').
Proof.
  intros s es e H. unfold under in H. apply in_map_iff in H.
  destruct H as (e' & <- & He'). eauto.
Qed.

Lemma In_extras_inv : forall fields kvs e,
  In e (extras fields kvs) ->
  exists k, e = unknown k /\ In k (map fst kvs) /\ declared fields k = false.
Proof.
  intros fields kvs e H. unfold extras in H. apply in_flat_map in H.
  destruct H as (kv & Hkv & He).
  destruct (declared fields (fst kv)) eqn:E; [destruct He|].
  destruct He as [<- | []]. exists (fst kv). repeat split; auto.
  apply in_map. exact Hkv.
Qed.

(** X10. Every violation of a failed entity validation is located: its path
    starts with a key, and that key is a declared key of the entity or a key
    of the input mapping. *)
Theorem violations_are_located : forall E kvs es,
  In E entities ->
  model_validate E (VDict kvs) = Err es ->
  Forall (fun e => exists k rest,
            loc e = Key k :: rest
            /\ (declared (fields_of E) k = true \/ In k (map fst kvs)))
    es.
Proof.
  intros E kvs es HE Hv.
  destruct (entities_are_models E HE) as [cls Heq].
  unfold model_validate in Hv. rewrite Heq, validate_model in Hv.
  apply assemble_Err_inv in Hv. destruct Hv as [_ ->].
  apply Forall_forall. intros e He. apply in_app_or in He. destruct He as [He|He].
  - apply bads_inv in He. destruct He as (f & es0 & Hf & Ho & He).
    unfold field_outcome in Ho.
    destruct (lookup (field_key f) kvs) as [x|].
    + destruct (validate false (ftype f) x) as [d|es1]; [discriminate Ho|].
      inversion Ho; subst es0. apply In_under in He. destruct He as (e' & _ & ->).
      exists (field_key f), (loc e'). split; [reflexivity|].
      left. apply declared_In. exact Hf.
    + destruct (default f); [discriminate Ho|].
      inversion Ho; subst es0. destruct He as [<- | []].
      exists (field_key f), []. split; [reflexivity|].
      left. apply declared_In. exact Hf.
  - apply In_extras_inv in He. destruct He as (k & -> & Hk & _).
    exists k, []. split; [reflexivity | right; exact Hk].
Qed.

Lemma first_ok_Err_locs : forall rs i es e,
  first_ok i rs = Err es -> In e es -> loc e <> [].
Proof.
  induction rs as [|r rs IH]; intros i es e H He.
  - inversion H; subst. destruct He.
  - cbn [first_ok] in H. destruct r as [d|es0]; [discriminate H|].
    destruct (first_ok (S i) rs) as [d|es1] eqn:E; [discriminate H|].
    inversion H; subst. apply in_app_or in He. destruct He as [He|He].
    + apply In_under in He. destruct He as (e' & _ & ->). discriminate.
    + eapply IH; eauto.
Qed.

Ltac root_scalar H :=
  unfold validate_str, validate_int, validate_float, validate_bool, validate_url,
    int_result, float_result, type_error, constraint_error in H;
  repeat match type of H with
         | Ok _ = Err _ => discriminate H
         | (if ?b then _ else _) = Err _ => destruct b
         | match ?o with Some _ => _ | None => _ end = Err _ => destruct o
         | match ?x with VNone => _ | _ => _ end = Err _ => destruct x
         end;
  try discriminate H.

Ltac root_kind H He :=
  inversion H; subst; destruct He as [<- | []]; cbn; tauto.

(** A violation at the root of a value is a TypeMismatch or a
    ConstraintViolation: missing and unknown fields always sit on a key. *)
Lemma root_violation_kind : forall t strict v es e,
  validate strict t v = Err es -> In e es -> loc e = [] ->
  vkind e = TypeMismatch \/ vkind e = ConstraintViolation.
Proof.
  induction t using ty_nested_ind; intros strict v es e Hv He Hl.
  - cbn [validate] in Hv. root_scalar Hv; root_kind Hv He.
  - cbn [validate] in Hv. root_scalar Hv; root_kind Hv He.
  - cbn [validate] in Hv. root_scalar Hv; root_kind Hv He.
  - cbn [validate] in Hv. root_scalar Hv; root_kind Hv He.
  - cbn [validate] in Hv. root_scalar Hv; root_kind Hv He.
  - cbn [validate] in Hv. destruct v; try (root_scalar Hv; root_kind Hv He).
    apply assemble_Err_inv in Hv. destruct Hv as [_ ->]. rewrite app_nil_r in He.
    apply bads_inv in He. destruct He as (iv & es0 & _ & Ho & He).
    unfold item_outcome in Ho. destruct (validate strict t (snd iv)); [discriminate Ho|].
    inversion Ho; subst. apply In_under in He. destruct He as (e' & _ & ->).
    discriminate Hl.
  - cbn [validate] in Hv. destruct v; try (root_scalar Hv; root_kind Hv He).
    apply assemble_Err_inv in Hv. destruct Hv as [_ ->]. rewrite app_nil_r in He.
    apply bads_inv in He. destruct He as (kv & es0 & _ & Ho & He).
    unfold entry_outcome in Ho.
    destruct (validate strict t (snd kv)).
    + destruct (satisfies k (fst kv)); [discriminate Ho|].
      inversion Ho; subst. destruct He as [<- | []]. discriminate Hl.
    + inversion Ho; subst. apply in_app_or in He. destruct He as [He|He].
      * destruct (satisfies k (fst kv)); [destruct He|].
        destruct He as [<- | []]. discriminate Hl.
      * apply In_under in He. destruct He as (e' & _ & ->). discriminate Hl.
  - rewrite validate_model_mode' in Hv.
    destruct v; try (root_scalar Hv; root_kind Hv He).
    destruct (strict && negb strict_model_from_dict);
      [root_scalar Hv; root_kind Hv He|].
    apply assemble_Err_inv in Hv. destruct Hv as [_ ->].
    apply in_app_or in He. destruct He as [He|He].
    + apply bads_inv in He. destruct He as (f & es0 & _ & Ho & He).
      unfold field_outcome in Ho.
      destruct (lookup (field_key f) kvs) as [x|].
      * destruct (validate strict (ftype f) x); [discriminate Ho|].
        inversion Ho; subst. apply In_under in He. destruct He as (e' & _ & ->).
        discriminate Hl.
      * destruct (default f); [discriminate Ho|].
        inversion Ho; subst. destruct He as [<- | []]. discriminate Hl.
    + apply In_extras_inv in He. destruct He as (k & -> & _). discriminate Hl.
  - exfalso. cbn [validate] in Hv.
    destruct (first_ok 0 (map (fun t' => validate true t' v) ts)) as [d|es1] eqn:E1;
      [discriminate Hv|].
    destruct strict.
    + inversion Hv; subst. eapply first_ok_Err_locs; eauto.
    + eapply first_ok_Err_locs; eauto.
  - cbn [validate] in Hv. destruct v; try discriminate Hv; eapply IHt; eauto.
Qed.

Lemma at_top_app : forall k es1 es2,
  at_top k (es1 ++ es2) = at_top k es1 ++ at_top k es2.
Proof. intros. unfold at_top. apply filter_app. Qed.

Lemma at_top_under : forall k key strict t x es,
  validate strict t x = Err es ->
  k = MissingField \/ k = UnknownField ->
  at_top k (under (Key key) es) = [].
Proof.
  intros k key strict t x es Hv Hk.
  assert (H : forall es', (forall e, In e es' -> In e es) ->
            at_top k (under (Key key) es') = []).
  { induction es' as [|e es' IH]; intro Hsub; [reflexivity|].
    unfold at_top, under in *. cbn [map filter vkind loc List.length].
    rewrite IH by (intros; apply Hsub; right; assumption).
    destruct (loc e) as [|sg rest] eqn:El.
    - destruct (root_violation_kind t strict x es e Hv (Hsub e (or_introl eq_refl)) El)
        as [Hx|Hx]; rewrite Hx; destruct Hk as [-> | ->]; reflexivity.
    - cbn [List.length Nat.eqb]. rewrite andb_false_r. reflexivity. }
  apply H. auto.
Qed.

Lemma at_top_fields : forall kvs fields,
  at_top MissingField (bads (map (field_outcome (validate false) kvs) fields))
  = map (fun f => missing (field_key f)) (filter (is_missing kvs) fields)
  /\ at_top UnknownField (bads (map (field_outcome (validate false) kvs) fields)) = [].
Proof.
  intros kvs. induction fields as [|f fields [IH1 IH2]]; [split; reflexivity|].
  cbn [map filter]. unfold field_outcome at 1 3.
  unfold is_missing at 1, absent, is_required.
  destruct (lookup (field_key f) kvs) as [x|].
  - rewrite andb_false_r.
    destruct (validate false (ftype f) x) as [d|es] eqn:E; cbn [bads].
    + split; assumption.
    + rewrite !at_top_app, IH1, IH2.
      rewrite (at_top_under MissingField _ _ _ _ _ E) by auto.
      rewrite (at_top_under UnknownField _ _ _ _ _ E) by auto.
      split; reflexivity.
  - rewrite andb_true_r. destruct (default f); cbn [negb bads].
    + split; assumption.
    + rewrite !at_top_app, IH1, IH2. split; reflexivity.
Qed.

Lemma at_top_extras : forall fields kvs,
  at_top UnknownField (extras fields kvs)
  = map (fun kv => unknown (fst kv)) (filter (is_unknown fields) kvs)
  /\ at_top MissingField (extras fields kvs) = [].
Proof.
  intros fields. induction kvs as [|kv kvs [IH1 IH2]]; [split; reflexivity|].
  unfold extras in *. cbn [flat_map filter]. unfold is_unknown at 1.
  rewrite !at_top_app, IH1, IH2.
  destruct (declared fields (fst kv)); split; reflexivity.
Qed.

(** X11. The violations a failed entity validation puts directly on keys are
    exact: its MissingField violations with a one-key path are the required
    fields absent from the mapping, one each, in declaration order, and its
    UnknownField violations with a one-key path are the undeclared keys of
    the mapping, one each, in input order. *)
Theorem missing_and_unknown_are_exact : forall E kvs es,
  In E entities ->
  model_validate E (VDict kvs) = Err es ->
  at_top MissingField es
  = map (fun f => Violation [Key (field_key f)] MissingField)
      (filter (is_missing kvs) (fields_of E))
  /\ at_top UnknownField es
     = map (fun kv => Violation [Key (fst kv)] UnknownField)
         (filter (is_unknown (fields_of E)) kvs).
Proof.
  intros E kvs es HE Hv.
  destruct (entities_are_models E HE) as [cls Heq].
  unfold model_validate in Hv. rewrite Heq, validate_model in Hv.
  apply assemble_Err_inv in Hv. destruct Hv as [_ ->].
  destruct (at_top_fields kvs (fields_of E)) as [F1 F2].
  destruct (at_top_extras (fields_of E) kvs) as [E1 E2].
  rewrite !at_top_app, F1, F2, E1, E2, app_nil_r. split; reflexivity.
Qed.

(** X12. A failed validation of an entity always carries at least one
    violation, whatever the document. *)
Theorem failure_lists_a_violation : forall E doc es,
  In E entities ->
  model_validate E doc = Err es ->
  es <> [].
Proof.
  intros E doc es HE Hv.
  pose proof (entities_well_declared E HE) as Hw. unfold well_declared in Hw.
  repeat (apply andb_true_iff in Hw; destruct Hw as [Hw ?]).
  eapply validate_Err_nonempty; eauto.
Qed.


(* ------------------------------------------------------------------ *)
(** ** The order of the keys *)

Lemma lookup_Some_In : forall (A : Type) k (kvs : list (string * A)) v,
  lookup k kvs = Some v -> In (k, v) kvs.
Proof.
  intros A k. induction kvs as [|[k' v'] kvs IH]; intros v H; [discriminate H|].
  cbn [lookup] in H. destruct (String.eqb k k') eqn:E.
  - apply String.eqb_eq in E. inversion H; subst. left. reflexivity.
  - right. apply IH. exact H.
Qed.

Lemma In_lookup : forall (A : Type) k (kvs : list (string * A)) v,
  NoDup (map fst kvs) -> In (k, v) kvs -> lookup k kvs = Some v.
Proof.
  intros A k. induction kvs as [|[k' v'] kvs IH]; intros v Hnd Hin; [destruct Hin|].
  cbn [map fst] in Hnd. inversion Hnd as [|? ? Hnot Hnd']; subst.
  cbn [lookup]. destruct Hin as [Heq | Hin].
  - inversion Heq; subst. rewrite String.eqb_refl. reflexivity.
  - destruct (String.eqb k k') eqn:E; [|apply IH; assumption].
    apply String.eqb_eq in E. subst k'. exfalso. apply Hnot.
    apply (in_map fst) in Hin. exact Hin.
Qed.

Lemma lookup_Permutation : forall (A : Type) k (kvs kvs' : list (string * A)),
  NoDup (map fst kvs) -> Permutation kvs kvs' -> lookup k kvs = lookup k kvs'.
Proof.
  intros A k kvs kvs' Hnd Hp.
  assert (Hnd' : NoDup (map fst kvs')).
  { eapply Permutation_NoDup; [|exact Hnd]. apply Permutation_map. exact Hp. }
  destruct (lookup k kvs) as [v|] eqn:E1.
  - apply lookup_Some_In in E1. symmetry. apply In_lookup; [exact Hnd'|].
    eapply Permutation_in; eauto.
  - destruct (lookup k kvs') as [v'|] eqn:E2; [|reflexivity].
    apply lookup_Some_In in E2.
    assert (H : lookup k kvs = Some v').
    { apply In_lookup; [exact Hnd|]. eapply Permutation_in; [|exact E2].
      apply Permutation_sym. exact Hp. }
    congruence.
Qed.

(** X13. The order in which a mapping lists its keys does not matter to the
    entity it is validated as: two mappings with the same entries (each key
    once) give the same instance, or both fail with the same violations, the
    unknown keys being reported in the order of the input. *)
Theorem key_order_is_irrelevant : forall E kvs kvs',
  In E entities ->
  NoDup (map fst kvs) ->
  Permutation kvs kvs' ->
  match model_validate E (VDict kvs), model_validate E (VDict kvs') with
  | Ok d, Ok d' => d = d'
  | Err es, Err es' => Permutation es es'
  | _, _ => False
  end.
Proof.
  intros E kvs kvs' HE Hnd Hp.
  destruct (entities_are_models E HE) as [cls Heq].
  unfold model_validate. rewrite Heq, !validate_model.
  assert (Hos : map (field_outcome (validate false) kvs') (fields_of E)
                = map (field_outcome (validate false) kvs) (fields_of E)).
  { apply map_ext. intro f. unfold field_outcome.
    rewrite (lookup_Permutation _ (field_key f) kvs kvs' Hnd Hp). reflexivity. }
  rewrite Hos.
  assert (Hex : Permutation (extras (fields_of E) kvs) (extras (fields_of E) kvs')).
  { unfold extras. apply Permutation_flat_map. exact Hp. }
  unfold assemble.
  set (bs := bads (map (field_outcome (validate false) kvs) (fields_of E))).
  assert (Hall : Permutation (bs ++ extras (fields_of E) kvs)
                   (bs ++ extras (fields_of E) kvs'))
    by (apply Permutation_app_head; exact Hex).
  destruct (bs ++ extras (fields_of E) kvs) as [|e es] eqn:E1;
    destruct (bs ++ extras (fields_of E) kvs') as [|e' es'] eqn:E2.
  - reflexivity.
  - apply Permutation_nil in Hall. discriminate Hall.
  - apply Permutation_sym, Permutation_nil in Hall. discriminate Hall.
  - exact Hall.
Qed.

(* ------------------------------------------------------------------ *)
(** ** Fields are validated independently of one another *)

Lemma add_field_Ok : forall cls fields f kvs x dx,
  distinct (map (@fname ty) fields) = true ->
  distinct (map field_key fields) = true ->
  forallb (fun g => no_empty_union (ftype g)) fields = true ->
  In f fields ->
  lookup (field_key f) kvs = None ->
  validate false (ftype f) x = Ok dx ->
  forall d,
    validate false (TModel cls fields) (VDict kvs) = Ok d ->
    exists d',
      validate false (TModel cls fields) (VDict ((field_key f, x) :: kvs)) = Ok d'
      /\ attr (fname f) d' = Some dx
      /\ forall g, In g fields -> g <> f -> attr (fname g) d' = attr (fname g) d.
Proof.
  intros cls fields f kvs x dx Hn Hk Hu Hf Hl Hx d Hv.
  apply model_Ok_inv in Hv; [|exact Hu]. destruct Hv as (He & Hall & ->).
  set (kvs' := (field_key f, x) :: kvs).
  assert (Hsame : field_data false kvs' f = Some dx)
    by (apply field_data_cons_same; [reflexivity | exact Hx]).
  assert (Hother : forall g, In g fields -> g <> f ->
            field_data false kvs' g = field_data false kvs g).
  { intros g Hg Hne. apply field_data_cons_other.
    destruct (String.eqb (field_key g) (field_key f)) eqn:E; [|reflexivity].
    apply String.eqb_eq in E. exfalso. apply Hne.
    eapply distinct_inj with (key := field_key); eauto. }
  assert (Hall' : forallb (has_data false kvs') fields = true).
  { apply forallb_forall. intros g Hg. unfold has_data.
    destruct (String.eqb (field_key g) (field_key f)) eqn:E.
    - apply String.eqb_eq in E.
      assert (g = f) by (eapply distinct_inj with (key := field_key); eauto).
      subst g. rewrite Hsame. reflexivity.
    - unfold kvs'. rewrite field_data_cons_other by exact E.
      rewrite forallb_forall in Hall. exact (Hall g Hg). }
  eexists. split; [|split].
  - apply model_Ok_intro; [|exact Hall'].
    unfold extras, kvs'. cbn [flat_map fst].
    rewrite (declared_In _ _ Hf). exact He.
  - unfold attr. rewrite (lookup_attr (field_value false kvs')) by assumption.
    unfold field_value. rewrite Hsame. reflexivity.
  - intros g Hg Hne. unfold attr.
    rewrite (lookup_attr (field_value false kvs')) by assumption.
    rewrite (lookup_attr (field_value false kvs)) by assumption.
    unfold field_value. rewrite (Hother g Hg Hne). reflexivity.
Qed.

(** X14. No field is checked against another: adding a declared field that
    was absent, with a value valid for its own type, to a mapping that
    validates gives a mapping that validates; the new attribute holds the
    validated value and every other attribute is unchanged.  In particular
    the feature names an environment lists are not compared with the
    feature table, nor target names with the project's platforms. *)
Theorem fields_are_independent : forall E f kvs x d dx,
  In E entities ->
  In f (fields_of E) ->
  lookup (field_key f) kvs = None ->
  model_validate E (VDict kvs) = Ok d ->
  validate false (ftype f) x = Ok dx ->
  exists d',
    model_validate E (VDict ((field_key f, x) :: kvs)) = Ok d'
    /\ attr (fname f) d' = Some dx
    /\ forall g, In g (fields_of E) -> g <> f -> attr (fname g) d' = attr (fname g) d.
Proof.
  intros E f kvs x d dx HE Hf Hl Hv Hx.
  destruct (well_declared_parts E HE) as (Hn & Hk & Hu & _ & _).
  destruct (entities_are_models E HE) as [cls Heq].
  unfold model_validate in *. rewrite Heq in Hv |- *.
  eapply add_field_Ok; eauto.
Qed.


(* ------------------------------------------------------------------ *)
(** ** A feature is a target with more fields *)

Lemma extras_nil_declared : forall fields kvs k v,
  extras fields kvs = [] -> In (k, v) kvs -> declared fields k = true.
Proof.
  intros fields kvs k v He Hin.
  destruct (declared fields k) eqn:E; [reflexivity|].
  pose proof (In_extras fields kvs k v Hin E) as H. rewrite He in H. destruct H.
Qed.

Lemma declared_extras_nil : forall fields kvs,
  (forall kv, In kv kvs -> declared fields (fst kv) = true) ->
  extras fields kvs = [].
Proof.
  intros fields. induction kvs as [|kv kvs IH]; intro H; [reflexivity|].
  unfold extras in *. cbn [flat_map]. rewrite (H kv (or_introl eq_refl)).
  cbn [app]. apply IH. intros kv' Hkv'. apply H. right. exact Hkv'.
Qed.

Lemma declared_mono : forall fs1 fs2 k,
  (forall g, In g fs1 -> In g fs2) ->
  declared fs1 k = true -> declared fs2 k = true.
Proof.
  intros fs1 fs2 k Hsub H. unfold declared in *.
  apply existsb_exists in H. destruct H as (g & Hg & E).
  apply existsb_exists. exists g. auto.
Qed.

Lemma Target_in_Feature : forall g,
  In g (fields_of Target) -> In g (fields_of Feature).
Proof. intros g H. simpl in *. tauto. Qed.

Lemma Feature_only : forall g,
  In g (fields_of Feature) ->
  In g (fields_of Target)
  \/ (declared (fields_of Target) (field_key g) = false /\ default g = Some DNone).
Proof.
  intros g H. simpl in H.
  repeat (destruct H as [<- | H];
          [ first [ left; simpl; tauto | right; split; reflexivity ] |]).
  destruct H.
Qed.

(** X15. Feature declares every field of Target, with the same key and
    type, and four more (channels, platforms, system_requirements, target).
    So every mapping that validates as a Target validates as a Feature: the
    attributes they share are equal and the four others are [None]. *)
Theorem Feature_extends_Target : forall kvs d,
  model_validate Target (VDict kvs) = Ok d ->
  incl (fields_of Target) (fields_of Feature)
  /\ exists d',
       model_validate Feature (VDict kvs) = Ok d'
       /\ (forall f, In f (fields_of Target) ->
             attr (fname f) d' = attr (fname f) d)
       /\ (forall g, In g (fields_of Feature) -> ~ In g (fields_of Target) ->
             attr (fname g) d' = Some DNone).
Proof.
  intros kvs d Hv. split; [exact Target_in_Feature|].
  unfold model_validate in *.
  change Target with (TModel "Target" (fields_of Target)) in Hv.
  change Feature with (TModel "Feature" (fields_of Feature)).
  apply model_Ok_inv in Hv; [|reflexivity]. destruct Hv as (He & Hall & ->).
  assert (Habsent : forall g, In g (fields_of Feature) -> ~ In g (fields_of Target) ->
            field_data false kvs g = Some DNone).
  { intros g Hg Hn. destruct (Feature_only g Hg) as [Hin | [Hd Hdef]]; [tauto|].
    unfold field_data.
    destruct (lookup (field_key g) kvs) as [x|] eqn:El; [|exact Hdef].
    apply lookup_Some_In in El.
    rewrite (extras_nil_declared _ _ _ _ He El) in Hd. discriminate Hd. }
  assert (Hall' : forallb (has_data false kvs) (fields_of Feature) = true).
  { apply forallb_forall. intros g Hg.
    destruct (Feature_only g Hg) as [Hin | [Hd Hdef]].
    - rewrite forallb_forall in Hall. exact (Hall g Hin).
    - unfold has_data. rewrite Habsent; [reflexivity | exact Hg |].
      intro Hin. rewrite (declared_In _ _ Hin) in Hd. discriminate Hd. }
  eexists. split; [|split].
  - apply model_Ok_intro; [|exact Hall'].
    apply declared_extras_nil. intros [k v] Hkv. cbn [fst].
    apply (declared_mono (fields_of Target)); [exact Target_in_Feature|].
    eapply extras_nil_declared; eauto.
  - intros f Hf. unfold attr.
    rewrite (lookup_attr (field_value false kvs) (fields_of Feature))
      by (reflexivity || apply Target_in_Feature; exact Hf).
    rewrite (lookup_attr (field_value false kvs) (fields_of Target))
      by (reflexivity || exact Hf).
    reflexivity.
  - intros g Hg Hn. unfold attr.
    rewrite (lookup_attr (field_value false kvs) (fields_of Feature))
      by (reflexivity || exact Hg).
    unfold field_value. rewrite (Habsent g Hg Hn). reflexivity.
Qed.

(* ------------------------------------------------------------------ *)
(** ** Violations of nested entities reach the root *)

Lemma field_violation_propagates : forall cls fields kvs f x es0 e,
  In f fields ->
  lookup (field_key f) kvs = Some x ->
  validate false (ftype f) x = Err es0 ->
  In e es0 ->
  exists es, validate false (TModel cls fields) (VDict kvs) = Err es
             /\ In (Violation (Key (field_key f) :: loc e) (vkind e)) es.
Proof.
  intros cls fields kvs f x es0 e Hf Hl Hx He. rewrite validate_model.
  assert (Hin : In (Violation (Key (field_key f) :: loc e) (vkind e))
                  (bads (map (field_outcome (validate false) kvs) fields)
                   ++ extras fields kvs)).
  { apply in_or_app. left.
    apply (bads_incl _ _ (field_outcome (validate false) kvs) fields f
             (under (Key (field_key f)) es0)); [exact Hf | |].
    - unfold field_outcome. rewrite Hl, Hx. reflexivity.
    - unfold under. apply in_map_iff. exists e. auto. }
  eexists. split; [eapply assemble_Err; exact Hin | exact Hin].
Qed.

Lemma entry_violation_propagates : forall k t strict kvs n x es0 e,
  In (n, x) kvs ->
  validate strict t x = Err es0 ->
  In e es0 ->
  exists es, validate strict (TDict k t) (VDict kvs) = Err es
             /\ In (Violation (Key n :: loc e) (vkind e)) es.
Proof.
  intros k t strict kvs n x es0 e Hin Hx He. cbn [validate].
  assert (H : In (Violation (Key n :: loc e) (vkind e))
                (bads (map (entry_outcome k (validate strict t)) kvs) ++ [])).
  { apply in_or_app. left.
    apply (bads_incl _ _ (entry_outcome k (validate strict t)) kvs (n, x)
             ((if satisfies k n then []
               else [Violation [Key n; DictKey] ConstraintViolation])
              ++ under (Key n) es0)); [exact Hin | |].
    - unfold entry_outcome. cbn [fst snd]. rewrite Hx. reflexivity.
    - apply in_or_app. right. unfold under. apply in_map_iff. exists e. auto. }
  eexists. split; [eapply assemble_Err; exact H | exact H].
Qed.

(** X16. The closed-world rule holds at every depth, and the violation
    carries the whole path: an undeclared key in a target of a feature of
    the manifest makes the manifest fail, with an UnknownField violation at
    feature.<feature name>.target.<target name>.<key>. *)
Theorem closed_world_at_depth :
  forall kvs features feat fkvs targets tgt tkvs k x,
    lookup "feature" kvs = Some (VDict features) ->
    In (feat, VDict fkvs) features ->
    lookup "target" fkvs = Some (VDict targets) ->
    In (tgt, VDict tkvs) targets ->
    In (k, x) tkvs ->
    declared (fields_of Target) k = false ->
    exists es,
      model_validate BaseManifest (VDict kvs) = Err es
      /\ In (Violation [Key "feature"; Key feat; Key "target"; Key tgt; Key k]
               UnknownField) es.
Proof.
  intros kvs features fn fkvs targets tn tkvs k x Hfeat Hfn Htar Htn Hk Hd.
  destruct (forbid_extra "Target" (fields_of Target) tkvs k x Hk Hd) as (es1 & H1 & I1).
  change (TModel "Target" (fields_of Target)) with Target in H1.
  destruct (entry_violation_propagates TargetName Target false targets tn
              (VDict tkvs) es1 _ Htn H1 I1) as (es2 & H2 & I2).
  destruct (field_violation_propagates "Feature" (fields_of Feature) fkvs
              TargetField (VDict targets) es2 _
              ltac:(simpl; tauto) Htar H2 I2) as (es3 & H3 & I3).
  change (TModel "Feature" (fields_of Feature)) with Feature in H3.
  destruct (entry_violation_propagates FeatureName Feature false features fn
              (VDict fkvs) es3 _ Hfn H3 I3) as (es4 & H4 & I4).
  destruct (field_violation_propagates "BaseManifest" (fields_of BaseManifest) kvs
              (defaulted "feature" (TOptional (TDict FeatureName Feature)))
              (VDict features) es4 _
              ltac:(simpl; tauto) Hfeat H4 I4) as (es5 & H5 & I5).
  exists es5. split; [exact H5 | exact I5].
Qed.

(** X17. The priority of a channel table is any integer: no bound is
    applied to it (the non-negative integer type of the module is not used),
    so negative priorities validate. *)
Theorem priority_is_any_integer : forall c s z,
  field_type ChannelInlineTable "priority" = Some (TOptional (TInt None None))
  /\ model_validate ChannelInlineTable
       (VDict [("channel", VStr (String c s)); ("priority", VInt z)])
     = Ok (DModel "ChannelInlineTable"
             [("channel", DStr (String c s)); ("priority", DInt z)]).
Proof. intros c s z. split; reflexivity. Qed.


(* ------------------------------------------------------------------ *)
(** ** The matcher and the language of an expression *)

Lemma append_nil_r : forall s, append s EmptyString = s.
Proof. induction s as [|c s IH]; cbn [append]; [reflexivity | rewrite IH; reflexivity]. Qed.

Lemma append_assoc : forall a b c, append (append a b) c = append a (append b c).
Proof.
  induction a as [|x a IH]; intros b c; cbn [append]; [reflexivity|].
  rewrite IH. reflexivity.
Qed.

Lemma append_empty : forall a b,
  append a b = EmptyString -> a = EmptyString /\ b = EmptyString.
Proof. intros [|x a] b H; [auto | discriminate H]. Qed.

Lemma append_cons : forall a b c s,
  append a b = String c s ->
  (a = EmptyString /\ b = String c s)
  \/ exists a', a = String c a' /\ s = append a' b.
Proof.
  intros [|x a] b c s H; cbn [append] in H.
  - left. auto.
  - right. inversion H; subst. eauto.
Qed.

Lemma lang_Seq_inv : forall a b s,
  lang (Regex.Seq a b) s ->
  exists s1 s2, s = append s1 s2 /\ lang a s1 /\ lang b s2.
Proof. intros a b s H. inversion H; subst. eauto. Qed.

Lemma lang_Alt_inv : forall a b s,
  lang (Regex.Alt a b) s -> lang a s \/ lang b s.
Proof. intros a b s H. inversion H; subst; auto. Qed.

Lemma lang_Eps_inv : forall s, lang Regex.Eps s -> s = EmptyString.
Proof. intros s H. inversion H. reflexivity. Qed.

Lemma lang_Void_inv : forall s, ~ lang Regex.Void s.
Proof. intros s H. inversion H. Qed.

Lemma lang_seq : forall a b s, lang (Regex.seq a b) s <-> lang (Regex.Seq a b) s.
Proof.
  intros a b s. split; intro H.
  - destruct a; destruct b; cbn [Regex.seq] in H;
      try exact H; try (exfalso; exact (lang_Void_inv _ H));
      apply (LSeq Regex.Eps _ EmptyString s LEps H).
  - apply lang_Seq_inv in H. destruct H as (s1 & s2 & -> & H1 & H2).
    destruct a; destruct b; cbn [Regex.seq];
      try (exfalso; exact (lang_Void_inv _ H1));
      try (exfalso; exact (lang_Void_inv _ H2));
      try (apply lang_Eps_inv in H1; subst s1; exact H2);
      apply LSeq; assumption.
Qed.

Lemma lang_alt : forall a b s, lang (Regex.alt a b) s <-> lang (Regex.Alt a b) s.
Proof.
  intros a b s. split; intro H.
  - destruct a; destruct b; cbn [Regex.alt] in H;
      try exact H;
      try (exfalso; exact (lang_Void_inv _ H));
      first [ apply LAltR; exact H | apply LAltL; exact H ].
  - apply lang_Alt_inv in H.
    destruct a; destruct b; cbn [Regex.alt];
      destruct H as [H|H];
      try (exfalso; exact (lang_Void_inv _ H));
      try exact H;
      first [ apply LAltL; exact H | apply LAltR; exact H ].
Qed.

Lemma nullable_lang : forall r, Regex.nullable r = true <-> lang r EmptyString.
Proof.
  induction r as [| |c|n items|a IHa b IHb|a IHa b IHb|a IHa]; cbn [Regex.nullable].
  - split; [discriminate | intro H; inversion H].
  - split; [intros _; constructor | reflexivity].
  - split; [discriminate | intro H; inversion H].
  - split; [discriminate | intro H; inversion H].
  - rewrite andb_true_iff, IHa, IHb. split.
    + intros [Ha Hb]. exact (LSeq a b EmptyString EmptyString Ha Hb).
    + intro H. apply lang_Seq_inv in H. destruct H as (s1 & s2 & E & H1 & H2).
      symmetry in E. apply append_empty in E. destruct E; subst. auto.
  - rewrite orb_true_iff, IHa, IHb. split.
    + intros [H|H]; [apply LAltL | apply LAltR]; exact H.
    + apply lang_Alt_inv.
  - split; [intros _; constructor | reflexivity].
Qed.

Lemma lang_Star_cons : forall a c s,
  lang (Regex.Star a) (String c s) ->
  exists s1 s2, s = append s1 s2 /\ lang a (String c s1) /\ lang (Regex.Star a) s2.
Proof.
  intros a c s H.
  remember (Regex.Star a) as r eqn:Er. remember (String c s) as w eqn:Ew.
  revert s Ew.
  induction H as [| | | | | | |a' t1 t2 H1 _ H2 IH2]; intros s0 Ew; try discriminate.
  inversion Er; subst a'.
  apply append_cons in Ew. destruct Ew as [[-> ->] | (t1' & -> & ->)].
  - apply IH2; reflexivity.
  - exists t1', t2. auto.
Qed.

Lemma deriv_lang : forall r c s,
  lang (Regex.deriv c r) s <-> lang r (String c s).
Proof.
  induction r as [| |x|n items|a IHa b IHb|a IHa b IHb|a IHa];
    intros c s; cbn [Regex.deriv].
  - split; intro H; inversion H.
  - split; intro H; inversion H.
  - destruct (Ascii.eqb x c) eqn:E.
    + apply Ascii.eqb_eq in E. subst x. split; intro H.
      * apply lang_Eps_inv in H. subst s. constructor.
      * inversion H; subst. constructor.
    + split; intro H; [inversion H|].
      inversion H; subst. rewrite Ascii.eqb_refl in E. discriminate E.
  - destruct (Regex.cls_matches n items c) eqn:E.
    + split; intro H.
      * apply lang_Eps_inv in H. subst s. constructor. exact E.
      * inversion H; subst. constructor.
    + split; intro H; [inversion H|].
      inversion H; subst. congruence.
  - rewrite lang_alt. split; intro H.
    + apply lang_Alt_inv in H. destruct H as [H|H].
      * apply lang_seq, lang_Seq_inv in H. destruct H as (s1 & s2 & -> & H1 & H2).
        apply IHa in H1. exact (LSeq a b (String c s1) s2 H1 H2).
      * destruct (Regex.nullable a) eqn:En; [|inversion H].
        apply nullable_lang in En. apply IHb in H.
        exact (LSeq a b EmptyString (String c s) En H).
    + apply lang_Seq_inv in H. destruct H as (s1 & s2 & E & H1 & H2).
      symmetry in E. apply append_cons in E.
      destruct E as [[-> ->] | (s1' & -> & ->)].
      * apply LAltR. apply nullable_lang in H1. rewrite H1. apply IHb. exact H2.
      * apply LAltL. apply lang_seq. apply LSeq; [apply IHa; exact H1 | exact H2].
  - rewrite lang_alt. split; intro H.
    + apply lang_Alt_inv in H.
      destruct H as [H|H]; [apply LAltL, IHa | apply LAltR, IHb]; exact H.
    + apply lang_Alt_inv in H.
      destruct H as [H|H]; [apply LAltL, IHa | apply LAltR, IHb]; exact H.
  - rewrite lang_seq. split; intro H.
    + apply lang_Seq_inv in H. destruct H as (s1 & s2 & -> & H1 & H2).
      apply IHa in H1. exact (LStarS a (String c s1) s2 H1 H2).
    + apply lang_Star_cons in H. destruct H as (s1 & s2 & -> & H1 & H2).
      apply LSeq; [apply IHa; exact H1 | exact H2].
Qed.

Lemma fullmatch_lang : forall s r, Regex.fullmatch r s = true <-> lang r s.
Proof.
  induction s as [|c s IH]; intro r; cbn [Regex.fullmatch].
  - apply nullable_lang.
  - rewrite IH. apply deriv_lang.
Qed.

Lemma lang_Star_Any : forall s, lang (Regex.Star Regex.Any) s.
Proof.
  induction s as [|c s IH]; [constructor|].
  apply (LStarS Regex.Any (String c EmptyString) s); [|exact IH].
  constructor. reflexivity.
Qed.

Lemma lang_anchor : forall (anchored : bool) s,
  lang (if anchored then Regex.Eps else Regex.Star Regex.Any) s
  <-> (anchored = true -> s = EmptyString).
Proof.
  intros [|] s; split; intro H.
  - intros _. apply lang_Eps_inv. exact H.
  - rewrite (H eq_refl). constructor.
  - discriminate.
  - apply lang_Star_Any.
Qed.

(** X18. A pattern is searched, not matched from end to end: a string
    satisfies it exactly when some stretch of the string is in the language
    of the pattern's body, a leading [^] forcing the stretch to start the
    string and a closing [$] forcing it to end the string. *)
Theorem search_finds_a_stretch : forall p s,
  Regex.search p s = true
  <-> exists before mid after,
        s = append before (append mid after)
        /\ lang (Regex.body p) mid
        /\ (Regex.anchor_start p = true -> before = EmptyString)
        /\ (Regex.anchor_end p = true -> after = EmptyString).
Proof.
  intros p s. unfold Regex.search. rewrite fullmatch_lang. split.
  - intro H. apply lang_Seq_inv in H. destruct H as (b & rest & -> & Hb & H).
    apply lang_Seq_inv in H. destruct H as (m & a & -> & Hm & Ha).
    exists b, m, a. rewrite lang_anchor in Hb, Ha. auto.
  - intros (b & m & a & -> & Hm & Hb & Ha).
    apply LSeq; [apply lang_anchor; exact Hb|].
    apply LSeq; [exact Hm | apply lang_anchor; exact Ha].
Qed.


(* ------------------------------------------------------------------ *)
(** ** What the VCS-URL pattern accepts *)

Lemma lang_Star_all : forall n items s,
  all_chars (Regex.cls_matches n items) s = true ->
  lang (Regex.Star (Regex.Cls n items)) s.
Proof.
  intros n items. induction s as [|c s IH]; intro H; [constructor|].
  cbn [all_chars] in H. apply andb_true_iff in H. destruct H as [Hc Hs].
  apply (LStarS (Regex.Cls n items) (String c EmptyString) s);
    [constructor; exact Hc | apply IH; exact Hs].
Qed.

Lemma lang_Plus_all : forall n items c s,
  all_chars (Regex.cls_matches n items) (String c s) = true ->
  lang (Regex.Plus (Regex.Cls n items)) (String c s).
Proof.
  intros n items c s H. cbn [all_chars] in H.
  apply andb_true_iff in H. destruct H as [Hc Hs].
  apply (LSeq (Regex.Cls n items) (Regex.Star (Regex.Cls n items))
           (String c EmptyString) s);
    [constructor; exact Hc | apply lang_Star_all; exact Hs].
Qed.

Lemma lang_Str : forall s, lang (Regex.Str s) s.
Proof.
  induction s as [|c s IH]; cbn [Regex.Str]; [constructor|].
  exact (LSeq (Regex.Lit c) (Regex.Str s) (String c EmptyString) s (LLit c) IH).
Qed.

Lemma contains_append : forall c a b,
  contains c (append a b) = contains c a || contains c b.
Proof.
  intros c. induction a as [|x a IH]; intro b; cbn [append contains]; [reflexivity|].
  rewrite IH, orb_assoc. reflexivity.
Qed.

Lemma git_tail : forall c rest,
  all_chars git_char (String c rest) = true ->
  lang (Regex.Seq (Regex.Seq (Regex.Lit ":") (Regex.Opt (Regex.Str "//")))
          (Regex.Plus
             (Regex.Cls false
                [Regex.CWord; Regex.CChar "."; Regex.CChar "@"; Regex.CChar ":";
                 Regex.CChar "/"; Regex.CRange backslash "~"])))
    (String ":" (String c rest)).
Proof.
  intros c rest H.
  apply (LSeq _ _ (String ":" EmptyString) (String c rest)).
  - apply (LSeq (Regex.Lit ":") _ (String ":" EmptyString) EmptyString);
      [constructor | apply LAltR; constructor].
  - apply lang_Plus_all. exact H.
Qed.

(** X19. The VCS-URL pattern is loose: a string satisfies it as soon as it
    contains, anywhere, one of git, ssh, http or https, or git@ and a host
    of word characters and dots, followed by a colon and at least one more
    character of its class. *)
Theorem GitUrl_accepts_fragments : forall before c rest after,
  all_chars git_char (String c rest) = true ->
  (forall scheme,
     In scheme git_schemes ->
     Regex.search GitUrl_re
       (append before (append scheme (String ":" (append (String c rest) after))))
     = true)
  /\ (forall h host,
        all_chars host_char (String h host) = true ->
        Regex.search GitUrl_re
          (append before
             (append "git@"
                (append (String h host)
                   (String ":" (append (String c rest) after)))))
        = true).
Proof.
  intros before c rest after Hc. split.
  - intros scheme Hs. apply search_finds_a_stretch.
    exists before, (append scheme (String ":" (String c rest))), after.
    split; [|split; [|split; discriminate]].
    + f_equal. rewrite append_assoc. reflexivity.
    + cbn [GitUrl_re Regex.body]. apply LSeq; [|apply git_tail; exact Hc].
      simpl in Hs.
      destruct Hs as [<- | [<- | [<- | [<- | []]]]];
        apply fullmatch_lang; vm_compute; reflexivity.
  - intros h host Hh. apply search_finds_a_stretch.
    exists before,
      (append (append "git@" (String h host)) (String ":" (String c rest))), after.
    split; [|split; [|split; discriminate]].
    + f_equal. rewrite !append_assoc. reflexivity.
    + cbn [GitUrl_re Regex.body]. apply LSeq; [|apply git_tail; exact Hc].
      apply LAltR. apply LSeq; [apply lang_Str | apply lang_Plus_all; exact Hh].
Qed.

(** X20. The VCS-URL pattern needs a colon: a string without one never
    satisfies it. *)
Theorem GitUrl_needs_a_colon : forall s,
  Regex.search GitUrl_re s = true -> contains ":" s = true.
Proof.
  intros s H. apply search_finds_a_stretch in H.
  destruct H as (before & mid & after & -> & Hm & _ & _).
  cbn [GitUrl_re Regex.body] in Hm.
  apply lang_Seq_inv in Hm. destruct Hm as (s1 & s2 & -> & _ & H2).
  apply lang_Seq_inv in H2. destruct H2 as (s3 & s4 & -> & H3 & _).
  apply lang_Seq_inv in H3. destruct H3 as (s5 & s6 & -> & H5 & _).
  inversion H5; subst.
  rewrite !contains_append. cbn [contains append].
  rewrite Ascii.eqb_refl. cbn [orb]. rewrite !orb_true_r. reflexivity.
Qed.


(* ------------------------------------------------------------------ *)
(** ** What the URL-shaped fields accept *)

Lemma url_field_declared : forall k,
  In k url_keys -> In (url_field k) (fields_of Project).
Proof.
  intros k Hk. simpl in Hk.
  destruct Hk as [<- | [<- | [<- | []]]]; simpl; tauto.
Qed.

Lemma url_value : forall strict s,
  validate strict (TOptional AnyHttpUrl) (VStr s)
  = match http_url s with
    | Some u => Ok (DUrl u)
    | None => Err [Violation [] ConstraintViolation]
    end.
Proof. reflexivity. Qed.

Lemma not_absolute_rejected : forall s,
  http_only L -> http_needs_host L ->
  is_http_scheme (url_scheme s) && has_authority s = false ->
  http_url s = None.
Proof.
  intros s Hhttp Hhost Hs.
  destruct (http_url s) as [u|] eqn:E; [|reflexivity].
  rewrite (Hhttp _ _ E), (Hhost _ _ E) in Hs. discriminate Hs.
Qed.

Lemma url_accepted : forall k kvs d s u,
  In k url_keys ->
  model_validate Project (VDict kvs) = Ok d ->
  lookup k kvs = None ->
  http_url s = Some u ->
  exists d', model_validate Project (VDict ((k, VStr s) :: kvs)) = Ok d'
             /\ attr k d' = Some (DUrl u).
Proof.
  intros k kvs d s u Hk Hv Hl Hu. unfold model_validate in *.
  change Project with (TModel "Project" (fields_of Project)) in Hv |- *.
  destruct (add_field_Ok "Project" (fields_of Project) (url_field k) kvs
              (VStr s) (DUrl u)) with (d := d) as (d' & H1 & H2 & _);
    try reflexivity; try assumption.
  - apply url_field_declared. exact Hk.
  - cbn [ftype url_field defaulted]. rewrite url_value, Hu. reflexivity.
  - exists d'. split; [exact H1 | exact H2].
Qed.

Lemma url_rejected : forall k kvs s,
  In k url_keys ->
  http_url s = None ->
  exists es, model_validate Project (VDict ((k, VStr s) :: kvs)) = Err es
             /\ In (Violation [Key k] ConstraintViolation) es.
Proof.
  intros k kvs s Hk Hu. unfold model_validate.
  change Project with (TModel "Project" (fields_of Project)).
  apply (field_violation_propagates "Project" (fields_of Project)
           ((k, VStr s) :: kvs) (url_field k) (VStr s)
           [Violation [] ConstraintViolation] (Violation [] ConstraintViolation)).
  - apply url_field_declared. exact Hk.
  - cbn [field_key url_field defaulted alias fname lookup].
    rewrite String.eqb_refl. reflexivity.
  - cbn [ftype url_field defaulted]. rewrite url_value, Hu. reflexivity.
  - left. reflexivity.
Qed.

(** C10. homepage, repository and documentation of Project are annotated
    with the HTTP URL type, and the VCS-URL constraint GitUrl is the
    constraint of no field and no mapping key of any entity.  Added to a
    project mapping that validates, a string under one of the three keys is
    accepted exactly when the URL parser accepts it, and stored as the
    parsed URL.  The parser accepts the absolute http and https URLs: every
    plain [http(s)://host/path] string is accepted, and a string whose
    scheme is not http or https, or that names no host, is rejected with a
    ConstraintViolation at the key.  So https://github.com/prefix-dev/pixi
    is accepted for [repository], and the scp-style address
    git@github.com:owner/repo.git, which GitUrl matches, is rejected, as is
    the bare scheme [http:]. *)
Theorem url_fields :
  http_only L -> http_needs_host L -> http_accepts_plain L ->
  Forall (fun k => In (url_field k) (fields_of Project)) url_keys
  /\ (forall E c, In E entities -> In c (constrs E) -> c <> GitUrl)
  /\ (forall k kvs d s,
        In k url_keys ->
        model_validate Project (VDict kvs) = Ok d ->
        lookup k kvs = None ->
        match http_url s with
        | Some u =>
            exists d', model_validate Project (VDict ((k, VStr s) :: kvs)) = Ok d'
                       /\ attr k d' = Some (DUrl u)
        | None =>
            exists es, model_validate Project (VDict ((k, VStr s) :: kvs)) = Err es
                       /\ In (Violation [Key k] ConstraintViolation) es
        end)
  /\ (forall k kvs d s,
        In k url_keys ->
        model_validate Project (VDict kvs) = Ok d ->
        lookup k kvs = None ->
        plain_http_url s = true ->
        exists d' u, model_validate Project (VDict ((k, VStr s) :: kvs)) = Ok d'
                     /\ attr k d' = Some (DUrl u))
  /\ (forall k kvs s,
        In k url_keys ->
        is_http_scheme (url_scheme s) && has_authority s = false ->
        exists es, model_validate Project (VDict ((k, VStr s) :: kvs)) = Err es
                   /\ In (Violation [Key k] ConstraintViolation) es)
  /\ (exists u,
        model_validate Project (project_with_repository pixi_repository)
        = Ok (DModel "Project"
                [("name", DStr "demo"); ("version", DNone); ("description", DNone);
                 ("authors", DNone); ("channels", DList [DStr "conda-forge"]);
                 ("platforms", DList [DStr "linux-64"]); ("license", DNone);
                 ("license_file", DNone); ("readme", DNone); ("homepage", DNone);
                 ("repository", DUrl u); ("documentation", DNone)]))
  /\ Regex.search GitUrl_re scp_style_url = true
  /\ model_validate Project (project_with_repository scp_style_url)
     = Err [Violation [Key "repository"] ConstraintViolation]
  /\ model_validate Project (project_with_repository scheme_only_url)
     = Err [Violation [Key "repository"] ConstraintViolation].
Proof.
  intros Hhttp Hhost Hplain.
  split; [repeat constructor; simpl; tauto|].
  split.
  { intros E c HE Hc Heq. subst c.
    destruct (constraints_in_use E GitUrl HE Hc) as [H|H];
      apply GitUrl_is_neither in H; exact H. }
  split.
  { intros k kvs d s Hk Hv Hl. destruct (http_url s) as [u|] eqn:Eu.
    - eapply url_accepted; eauto.
    - apply url_rejected; assumption. }
  split.
  { intros k kvs d s Hk Hv Hl Hp. destruct (Hplain s Hp) as [u Hu].
    destruct (url_accepted k kvs d s u Hk Hv Hl Hu) as (d' & H1 & H2).
    exists d', u. auto. }
  split.
  { intros k kvs s Hk Hs. apply url_rejected; [exact Hk|].
    apply not_absolute_rejected; assumption. }
  split.
  { destruct (Hplain pixi_repository eq_refl) as [u Hu]. exists u.
    unfold model_validate, project_with_repository, Project.
    cbn -[pixi_repository http_url]. rewrite Hu. reflexivity. }
  split; [vm_compute; reflexivity|].
  assert (Hno : http_url scp_style_url = None)
    by (apply not_absolute_rejected; [assumption | assumption | reflexivity]).
  assert (Hso : http_url scheme_only_url = None)
    by (apply not_absolute_rejected; [assumption | assumption | reflexivity]).
  unfold model_validate, project_with_repository, Project.
  split.
  - cbn -[scp_style_url http_url]. rewrite Hno. reflexivity.
  - cbn -[scheme_only_url http_url]. rewrite Hso. reflexivity.
Qed.


(* ------------------------------------------------------------------ *)
(** ** Every problem is reported, at every depth *)

Lemma In_below : forall s es e, In e es -> In (below s e) (under s es).
Proof. intros s es e H. unfold under. apply (in_map (below s)). exact H. Qed.

Lemma In_under_below : forall s es e,
  In e (under s es) -> exists e', In e' es /\ e = below s e'.
Proof. intros s es e H. apply In_under in H. exact H. Qed.

Lemma first_ok_Err_all : forall (f : ty -> result) ts n es,
  first_ok n (map f ts) = Err es -> forall t, In t ts -> fails (f t).
Proof.
  induction ts as [|u ts IH]; intros n es H t Ht; [destruct Ht|].
  cbn [map first_ok] in H.
  destruct (f u) as [d|eu] eqn:Eu; [discriminate H|].
  destruct (first_ok (S n) (map f ts)) as [d|er] eqn:Er; [discriminate H|].
  destruct Ht as [<- | Ht].
  - exists eu. exact Eu.
  - apply (IH (S n) er Er t Ht).
Qed.

Lemma first_ok_member : forall (f : ty -> result) ts n,
  (forall t, In t ts -> fails (f t)) ->
  forall i t es0 e,
    In (i, t) (combine (seq n (List.length ts)) ts) ->
    f t = Err es0 -> In e es0 ->
    exists es, first_ok n (map f ts) = Err es /\ In (below (Member i) e) es.
Proof.
  induction ts as [|u ts IH]; intros n Hall i t es0 e Hin Hf He;
    [destruct Hin|].
  cbn [map first_ok]. cbn [List.length seq combine] in Hin.
  destruct (Hall u (or_introl eq_refl)) as [eu Hu]. rewrite Hu.
  assert (Hall' : forall t', In t' ts -> fails (f t'))
    by (intros t' Ht'; apply Hall; right; exact Ht').
  destruct (first_ok_fails f ts (S n)) as [er Hr];
    [apply Forall_forall; exact Hall'|].
  rewrite Hr. eexists. split; [reflexivity|]. apply in_or_app.
  destruct Hin as [Heq | Hin].
  - inversion Heq; subst. left. rewrite Hf in Hu. inversion Hu; subst.
    apply In_below. exact He.
  - right. destruct (IH (S n) Hall' i t es0 e Hin Hf He) as (es' & H1 & H2).
    rewrite Hr in H1. inversion H1; subst. exact H2.
Qed.

Lemma first_ok_member_inv : forall (f : ty -> result) ts n es e,
  first_ok n (map f ts) = Err es -> In e es ->
  exists i t es0 e',
    In (i, t) (combine (seq n (List.length ts)) ts)
    /\ f t = Err es0 /\ In e' es0 /\ e = below (Member i) e'.
Proof.
  induction ts as [|u ts IH]; intros n es e H He.
  - cbn in H. inversion H; subst. destruct He.
  - cbn [map first_ok] in H.
    destruct (f u) as [d|eu] eqn:Eu; [discriminate H|].
    destruct (first_ok (S n) (map f ts)) as [d|er] eqn:Er; [discriminate H|].
    inversion H; subst. apply in_app_or in He. destruct He as [He | He].
    + apply In_under_below in He. destruct He as (e' & He' & ->).
      exists n, u, eu, e'. cbn [List.length seq combine].
      repeat split; auto. left. reflexivity.
    + destruct (IH (S n) er e Er He) as (i & t & es0 & e' & H1 & H2 & H3 & H4).
      exists i, t, es0, e'. cbn [List.length seq combine].
      repeat split; auto. right. exact H1.
Qed.

Lemma assemble_reports : forall (A : Type) (build : list A -> data) os more e,
  In e (bads os ++ more) ->
  exists es, assemble build os more = Err es /\ In e es.
Proof.
  intros A build os more e H. exists (bads os ++ more).
  split; [apply assemble_Err with e; exact H | exact H].
Qed.

Lemma not_sequence : forall strict t v,
  is_sequence v = false -> validate strict (TList t) v = type_error.
Proof. intros strict t v H. destruct v; try reflexivity; discriminate H. Qed.

Lemma not_entries : forall strict k t v,
  is_mapping v = false -> validate strict (TDict k t) v = type_error.
Proof. intros strict k t v H. destruct v; try reflexivity; discriminate H. Qed.

Lemma not_mapping : forall strict cls fields v,
  is_mapping v = false -> validate strict (TModel cls fields) v = type_error.
Proof. intros strict cls fields v H. destruct v; try reflexivity; discriminate H. Qed.

(** Completeness: a problem of the value, at whatever depth, is in the
    list that validation returns. *)
Lemma problem_reported : forall strict t v e,
  problem strict t v e ->
  exists es, validate strict t v = Err es /\ In e es.
Proof.
  intros strict t v e H.
  induction H as
    [ strict t v es e Hp Hv He
    | strict t v Hs
    | strict t vs i v e Hin Hpr IH
    | strict k t v Hm
    | strict k t kvs n v Hin Hk
    | strict k t kvs n v e Hin Hpr IH
    | strict cls fields v Hm
    | cls fields kvs Hd
    | strict cls fields kvs f Hmode Hf Hl Hdef
    | strict cls fields kvs f v e Hmode Hf Hl Hpr IH
    | strict cls fields kvs k v Hmode Hin Hdecl
    | strict ts v i t e Hs Hall Hin Hpr IH
    | strict t v e Hn Hpr IH ].
  - exists es. split; assumption.
  - rewrite not_sequence by exact Hs. eexists. split; [reflexivity | left; reflexivity].
  - destruct IH as (es0 & Hv & He). cbn [validate].
    apply assemble_reports. apply in_or_app. left.
    apply bads_incl with (x := (i, v)) (es0 := under (Idx i) es0).
    + exact Hin.
    + unfold item_outcome. cbn [fst snd]. rewrite Hv. reflexivity.
    + apply In_below. exact He.
  - rewrite not_entries by exact Hm. eexists. split; [reflexivity | left; reflexivity].
  - cbn [validate]. apply assemble_reports. apply in_or_app. left.
    destruct (validate strict t v) as [d|es0] eqn:Hv.
    + apply bads_incl with (x := (n, v))
        (es0 := [Violation [Key n; DictKey] ConstraintViolation]).
      * exact Hin.
      * unfold entry_outcome. cbn [fst snd]. rewrite Hk, Hv. reflexivity.
      * left. reflexivity.
    + apply bads_incl with (x := (n, v))
        (es0 := [Violation [Key n; DictKey] ConstraintViolation]
                ++ under (Key n) es0).
      * exact Hin.
      * unfold entry_outcome. cbn [fst snd]. rewrite Hk, Hv. reflexivity.
      * left. reflexivity.
  - destruct IH as (es0 & Hv & He). cbn [validate].
    apply assemble_reports. apply in_or_app. left.
    apply bads_incl with (x := (n, v))
      (es0 := (if satisfies k n then []
               else [Violation [Key n; DictKey] ConstraintViolation])
              ++ under (Key n) es0).
    + exact Hin.
    + unfold entry_outcome. cbn [fst snd]. rewrite Hv. reflexivity.
    + apply in_or_app. right. apply In_below. exact He.
  - rewrite not_mapping by exact Hm. eexists. split; [reflexivity | left; reflexivity].
  - cbn [validate]. rewrite Hd. cbn [negb andb].
    eexists. split; [reflexivity | left; reflexivity].
  - cbn [validate]. rewrite Hmode.
    apply assemble_reports. apply in_or_app. left.
    apply bads_incl with (x := f) (es0 := [missing (field_key f)]).
    + exact Hf.
    + unfold field_outcome. rewrite Hl, Hdef. reflexivity.
    + left. reflexivity.
  - destruct IH as (es0 & Hv & He). cbn [validate]. rewrite Hmode.
    apply assemble_reports. apply in_or_app. left.
    apply bads_incl with (x := f) (es0 := under (Key (field_key f)) es0).
    + exact Hf.
    + unfold field_outcome. rewrite Hl, Hv. reflexivity.
    + apply In_below. exact He.
  - cbn [validate]. rewrite Hmode.
    apply assemble_reports. apply in_or_app. right.
    apply In_extras with v; assumption.
  - destruct IH as (es0 & Hv & He). cbn [validate].
    destruct (first_ok_fails (fun t' => validate true t' v) ts 0) as [e1 H1];
      [apply Forall_forall; exact Hs|].
    rewrite H1.
    destruct strict.
    + destruct (first_ok_member (fun t' => validate true t' v) ts 0 Hs
                  i t es0 e Hin Hv He) as (es & H2 & H3).
      rewrite H1 in H2. inversion H2; subst. exists es. split; [reflexivity | exact H3].
    + apply (first_ok_member (fun t' => validate false t' v) ts 0 Hall
               i t es0 e Hin Hv He).
  - destruct IH as (es0 & Hv & He). exists es0. split; [|exact He].
    destruct v; try exact Hv. congruence.
Qed.

(** Soundness: what validation returns are problems of the value. *)
Lemma reported_problem : forall t strict v es e,
  validate strict t v = Err es -> In e es -> problem strict t v e.
Proof.
  induction t as
    [ c | ge le | gt | | | t IH | k t IH | cls fields IH | ts IH | t IH ]
    using ty_nested_ind; intros strict v es e Hv He;
    try (apply problem_scalar with es; [reflexivity | exact Hv | exact He]).
  - destruct v as [| | | | | vs |];
      try (inversion Hv; subst; destruct He as [<- | []];
           apply problem_no_sequence; reflexivity).
    cbn [validate] in Hv. apply assemble_Err_inv in Hv. destruct Hv as [_ ->].
    rewrite app_nil_r in He. apply bads_inv in He.
    destruct He as ([i x] & es0 & Hin & Ho & He).
    unfold item_outcome in Ho. cbn [fst snd] in Ho.
    destruct (validate strict t x) as [d|es1] eqn:Hx; [discriminate Ho|].
    inversion Ho; subst. apply In_under_below in He. destruct He as (e' & He' & ->).
    apply problem_item with x; [exact Hin|]. apply (IH strict x es1 e' Hx He').
  - destruct v as [| | | | | | kvs];
      try (inversion Hv; subst; destruct He as [<- | []];
           apply problem_no_entries; reflexivity).
    cbn [validate] in Hv. apply assemble_Err_inv in Hv. destruct Hv as [_ ->].
    rewrite app_nil_r in He. apply bads_inv in He.
    destruct He as ([n x] & es0 & Hin & Ho & He).
    unfold entry_outcome in Ho. cbn [fst snd] in Ho.
    destruct (satisfies k n) eqn:Hk;
      destruct (validate strict t x) as [d|es1] eqn:Hx;
      try discriminate Ho; inversion Ho; subst.
    + cbn [app] in He. apply In_under_below in He. destruct He as (e' & He' & ->).
      apply problem_entry with x; [exact Hin|]. apply (IH strict x es1 e' Hx He').
    + destruct He as [<- | []]. apply problem_key with x; assumption.
    + cbn [app] in He. destruct He as [<- | He].
      * apply problem_key with x; assumption.
      * apply In_under_below in He. destruct He as (e' & He' & ->).
        apply problem_entry with x; [exact Hin|]. apply (IH strict x es1 e' Hx He').
  - destruct v as [| | | | | | kvs];
      try (inversion Hv; subst; destruct He as [<- | []];
           apply problem_no_mapping; reflexivity).
    cbn [validate] in Hv.
    destruct (strict && negb strict_model_from_dict) eqn:Hmode.
    + inversion Hv; subst. destruct He as [<- | []].
      apply andb_true_iff in Hmode. destruct Hmode as [-> Hd].
      apply problem_instance_only. destruct strict_model_from_dict;
        [discriminate Hd | reflexivity].
    + apply assemble_Err_inv in Hv. destruct Hv as [_ ->].
      apply in_app_or in He. destruct He as [He | He].
      * apply bads_inv in He. destruct He as (f & es0 & Hf & Ho & He).
        unfold field_outcome in Ho.
        destruct (lookup (field_key f) kvs) as [x|] eqn:Hl.
        -- destruct (validate strict (ftype f) x) as [d|es1] eqn:Hx;
             [discriminate Ho|].
           inversion Ho; subst. apply In_under_below in He.
           destruct He as (e' & He' & ->).
           apply problem_field with x; try assumption.
           rewrite Forall_forall in IH. apply (IH f Hf strict x es1 e' Hx He').
        -- destruct (default f) as [d|] eqn:Hd; [discriminate Ho|].
           inversion Ho; subst. destruct He as [<- | []].
           apply problem_missing; assumption.
      * apply In_extras_inv in He. destruct He as (n & -> & Hn & Hdecl).
        apply in_map_iff in Hn. destruct Hn as ([n' x] & Heq & Hin).
        cbn [fst] in Heq. subst n'.
        apply problem_unknown with x; assumption.
  - cbn [validate] in Hv.
    destruct (first_ok 0 (map (fun t' => validate true t' v) ts))
      as [d|e1] eqn:H1; [discriminate Hv|].
    pose proof (first_ok_Err_all (fun t' => validate true t' v) ts 0 e1 H1) as Hs.
    rewrite Forall_forall in IH.
    destruct strict.
    + inversion Hv; subst.
      destruct (first_ok_member_inv (fun t' => validate true t' v) ts 0 es e H1 He)
        as (i & t & es0 & e' & Hin & Ht & He' & ->).
      apply problem_member with t; try assumption.
      apply (IH t (in_combine_r _ _ _ _ Hin) true v es0 e' Ht He').
    + pose proof (first_ok_Err_all (fun t' => validate false t' v) ts 0 es Hv) as Hl.
      destruct (first_ok_member_inv (fun t' => validate false t' v) ts 0 es e Hv He)
        as (i & t & es0 & e' & Hin & Ht & He' & ->).
      apply problem_member with t; try assumption.
      apply (IH t (in_combine_r _ _ _ _ Hin) false v es0 e' Ht He').
  - destruct v; cbn [validate] in Hv; try discriminate Hv;
      (apply problem_optional; [discriminate | apply (IH strict _ es e Hv He)]).
Qed.

(** C2. Validation aggregates, at every depth.  Take an entity, a mapping
    and any list of N distinct problems of the mapping: required fields that
    are missing, keys that no field declares, values that their field
    rejects, in the mapping itself or in any table, sequence or entry nested
    in it.  For N at least 1 the result is a failure whose list contains
    every one of them, so it has at least N violations; the list holds the
    problems of the mapping and nothing else.  And a result is never
    partial: when validation returns an instance the mapping has no problem
    at any depth, and the instance has every attribute of the class. *)
Theorem aggregation : forall E kvs ps,
  In E entities ->
  NoDup ps ->
  1 <= List.length ps ->
  (forall p, In p ps -> problem false E (VDict kvs) p) ->
  (exists es, model_validate E (VDict kvs) = Err es
              /\ incl ps es
              /\ List.length ps <= List.length es
              /\ (forall e, In e es <-> problem false E (VDict kvs) e)
              /\ problems E kvs <= List.length es)
  /\ (forall kvs' d,
        model_validate E (VDict kvs') = Ok d ->
        (forall e, ~ problem false E (VDict kvs') e)
        /\ problems E kvs' = 0
        /\ exists cls attrs,
             d = DModel cls attrs
             /\ map fst attrs = map (@fname ty) (fields_of E)).
Proof.
  intros E kvs ps HE Hnd HN Hps.
  destruct (well_declared_parts E HE) as (_ & _ & Hu & _ & _).
  destruct (entities_are_models E HE) as [cls Heq].
  unfold model_validate.
  split.
  - destruct ps as [|p0 ps0]; [simpl in HN; lia|].
    destruct (problem_reported false E (VDict kvs) p0 (Hps p0 (or_introl eq_refl)))
      as (es & Hv & _).
    exists es. split; [exact Hv|].
    assert (Hincl : incl (p0 :: ps0) es).
    { intros p Hp. destruct (problem_reported false E (VDict kvs) p (Hps p Hp))
        as (es' & Hv' & Hin). rewrite Hv in Hv'. inversion Hv'; subst. exact Hin. }
    split; [exact Hincl|].
    split; [apply NoDup_incl_length; assumption|].
    split.
    + intro e. split.
      * intro He. apply (reported_problem E false (VDict kvs) es e Hv He).
      * intro Hp. destruct (problem_reported false E (VDict kvs) e Hp)
          as (es' & Hv' & Hin). rewrite Hv in Hv'. inversion Hv'; subst. exact Hin.
    + pose proof (problems_reported cls (fields_of E) kvs Hu) as Hle.
      rewrite <- Heq in Hle. rewrite Heq in Hv. rewrite validate_model in Hv.
      apply assemble_Err_inv in Hv. destruct Hv as [_ ->]. exact Hle.
  - intros kvs' d Hv. split.
    + intros e Hp. destruct (problem_reported false E (VDict kvs') e Hp)
        as (es' & Hv' & _). rewrite Hv in Hv'. discriminate Hv'.
    + pose proof (problems_reported cls (fields_of E) kvs' Hu) as Hle.
      rewrite <- Heq in Hle. rewrite Heq in Hv.
      pose proof Hv as Hv'. rewrite validate_model in Hv'.
      apply assemble_Ok_inv in Hv'. destruct Hv' as (Hb & He & _).
      rewrite Hb, He in Hle. simpl in Hle.
      apply model_Ok_inv in Hv; [|exact Hu]. destruct Hv as (_ & _ & ->).
      split; [lia|]. exists cls. eexists. split; [reflexivity|].
      rewrite map_map. reflexivity.
Qed.


End Properties.

(* ================================================================== *)
(** * The theorems at concrete documents *)

Lemma plain_http_only : http_only plain_lax.
Proof.
  intros s u H. cbn [http_url plain_lax] in H.
  destruct (is_http_scheme (url_scheme s)); [reflexivity | discriminate H].
Qed.

Lemma plain_url_stable : url_stable plain_lax.
Proof.
  intros s u H. cbn [http_url plain_lax] in H |- *.
  destruct (is_http_scheme (url_scheme s) && has_authority s) eqn:E;
    [|discriminate H].
  inversion H; subst. rewrite E. reflexivity.
Qed.

Lemma plain_needs_host : http_needs_host plain_lax.
Proof.
  intros s u H. cbn [http_url plain_lax] in H.
  destruct (is_http_scheme (url_scheme s)); [|discriminate H].
  destruct (has_authority s); [reflexivity | discriminate H].
Qed.

Lemma strip_prefix_Some : forall p s r,
  strip_prefix p s = Some r -> s = append p r.
Proof.
  induction p as [|a p IH]; intros s r H; simpl in H.
  - inversion H. reflexivity.
  - destruct s as [|b s]; [discriminate H|].
    destruct (Ascii.eqb a b) eqn:E; [|discriminate H].
    apply Ascii.eqb_eq in E. subst b. simpl. f_equal. apply IH. exact H.
Qed.

Lemma plain_accepts_plain : http_accepts_plain plain_lax.
Proof.
  intros s H. cbn [http_url plain_lax].
  assert (Hs : is_http_scheme (url_scheme s) && has_authority s = true).
  { unfold plain_http_url in H.
    destruct (strip_prefix "http://" s) as [r|] eqn:E1.
    - apply strip_prefix_Some in E1. subst s.
      destruct r as [|c r']; [discriminate H|].
      destruct c as [[] [] [] [] [] [] [] []];
        first [ exfalso; exact (Bool.diff_false_true H) | reflexivity ].
    - destruct (strip_prefix "https://" s) as [r|] eqn:E2; [|discriminate H].
      apply strip_prefix_Some in E2. subst s.
      destruct r as [|c r']; [discriminate H|].
      destruct c as [[] [] [] [] [] [] [] []];
        first [ exfalso; exact (Bool.diff_false_true H) | reflexivity ]. }
  rewrite Hs. exists s. reflexivity.
Qed.

(** A target that spells host-dependencies with an underscore. *)
Lemma closed_world_witness :
  exists es,
    @model_validate plain_lax Target (VDict [("host_dependencies", VDict [])]) = Err es
    /\ In (Violation [Key "host_dependencies"] UnknownField) es.
Proof.
  apply (@closed_world plain_lax Target
           [("host_dependencies", VDict [])] "host_dependencies" (VDict [])).
  - simpl. tauto.
  - simpl. tauto.
  - reflexivity.
Defined.


(** An environment addressed with solve-group, and one with solve_group. *)
Lemma alias_spelling_witness :
  (exists d,
     @model_validate plain_lax Environment (VDict [("solve-group", VStr "default")]) = Ok d
     /\ attr "solve_group" d = Some (DStr "default"))
  /\ (exists es,
        @model_validate plain_lax Environment
          (VDict [("solve_group", VStr "default")]) = Err es
        /\ In (Violation [Key "solve_group"] UnknownField) es).
Proof.
  destruct (@alias_spelling plain_lax Environment
              (aliased "solve_group" "solve-group" (TOptional (TStr SolveGroupName)))
              "solve-group") as (_ & _ & Hyes & Hno).
  - simpl. tauto.
  - simpl. tauto.
  - reflexivity.
  - split.
    + apply (Hyes [] (VStr "default")
               (DModel "Environment" [("features", DNone); ("solve_group", DNone)])
               (DStr "default")); reflexivity.
    + apply (Hno [("solve_group", VStr "default")] (VStr "default")).
      simpl. tauto.
Defined.

(** Scenario 1 has no target key: the manifest's target is absent. *)
Lemma optional_absent_witness :
  exists d,
    @model_validate plain_lax BaseManifest scenario1 = Ok d
    /\ attr "target" d = Some DNone.
Proof.
  eexists. split; [reflexivity|].
  eapply (@optional_absent plain_lax BaseManifest TargetField
            [("project", demo_project)]).
  - simpl. tauto.
  - simpl. tauto.
  - reflexivity.
  - reflexivity.
  - reflexivity.
Defined.


(** Had absent fields been written back as explicit [None]s, a project
    without channels would not validate again: [list[Channel]] has no
    [None]. *)
Lemma explicit_None_channels_rejected :
  @model_validate plain_lax Project
    (VDict [("name", VStr "demo");
            ("platforms", VList [VStr "linux-64"]);
            ("channels", VNone)])
  = Err [Violation [Key "channels"] TypeMismatch].
Proof. reflexivity. Qed.

(** C6. The empty string has no backslash, and the path constraint rejects
    it. *)
Lemma path_rejects_empty_string :
  contains backslash EmptyString = false
  /\ validate_str PathNoBackslash (VStr EmptyString)
     = Err [Violation [] ConstraintViolation].
Proof. split; reflexivity. Qed.

(** C7. 0.0 and -1.0 are floats, and [linux] and [macos] reject them. *)
Lemma linux_rejects_zero_and_negative :
  @model_validate plain_lax SystemRequirements (VDict [("linux", VFloat float_zero)])
  = rejected_by_both "linux" ConstraintViolation TypeMismatch
  /\ @model_validate plain_lax SystemRequirements (VDict [("linux", VFloat minus_one)])
     = rejected_by_both "linux" ConstraintViolation TypeMismatch
  /\ @model_validate plain_lax SystemRequirements (VDict [("macos", VFloat float_zero)])
     = rejected_by_both "macos" ConstraintViolation TypeMismatch.
Proof. repeat split. Qed.

(** The sample manifest validates, and its serialised form validates to the
    same value. *)
Lemma roundtrip_witness :
  exists V,
    @model_validate plain_lax BaseManifest sample_manifest = Ok V
    /\ @model_validate plain_lax BaseManifest (dump V) = Ok V.
Proof.
  eexists. split.
  - vm_compute. reflexivity.
  - apply (@roundtrip plain_lax plain_http_only plain_url_stable sample_manifest).
    vm_compute. reflexivity.
Defined.

(* ------------------------------------------------------------------ *)
(** ** The further properties at concrete documents *)

Lemma required_field_missing_witness :
  exists es,
    @model_validate plain_lax BaseManifest (VDict []) = Err es
    /\ In (Violation [Key "project"] MissingField) es.
Proof.
  destruct (@required_field_missing plain_lax BaseManifest
              (required "project" Project) []) as [_ H].
  - simpl. tauto.
  - simpl. tauto.
  - reflexivity.
  - reflexivity.
  - exact H.
Defined.

Lemma success_iff_no_problems_witness :
  @problems plain_lax Environment [] = 0
  /\ exists d, @model_validate plain_lax Environment (VDict []) = Ok d.
Proof.
  split; [reflexivity|].
  apply (proj2 (@success_iff_no_problems plain_lax Environment []
                  ltac:(simpl; tauto))).
  reflexivity.
Defined.

Lemma non_mapping_rejected_witness :
  @model_validate plain_lax Project (VList [VStr "demo"])
  = Err [Violation [] TypeMismatch].
Proof.
  apply (@non_mapping_rejected plain_lax Project (VList [VStr "demo"])).
  - simpl. tauto.
  - reflexivity.
Defined.

Lemma empty_mapping_witness :
  @model_validate plain_lax Project (VDict [])
  = Err [Violation [Key "name"] MissingField;
         Violation [Key "platforms"] MissingField].
Proof.
  apply (@empty_mapping plain_lax Project). simpl. tauto.
Defined.

Lemma explicit_None_is_omission_witness :
  @model_validate plain_lax Environment (VDict [("solve-group", VNone)])
  = @model_validate plain_lax Environment (VDict []).
Proof.
  apply (@explicit_None_is_omission plain_lax Environment
           (aliased "solve_group" "solve-group" (TOptional (TStr SolveGroupName)))
           (TStr SolveGroupName) []).
  - simpl. tauto.
  - simpl. tauto.
  - reflexivity.
  - reflexivity.
Defined.

Lemma string_alternative_wins_witness :
  @validate plain_lax false (TUnion [TFloat None; TStr NonEmptyStr]) (VStr "11.8")
  = Ok (DStr "11.8").
Proof.
  apply (@string_alternative_wins plain_lax
           (TUnion [TFloat None; TStr NonEmptyStr]) false "1"%char ("1.8")).
  - vm_compute. tauto.
  - reflexivity.
Defined.

Lemma channel_is_never_a_url_witness :
  exists c s,
    VStr "https://conda.anaconda.org/conda-forge" = VStr (String c s)
    /\ DStr "https://conda.anaconda.org/conda-forge" = DStr (String c s).
Proof.
  apply (proj2 (@channel_is_never_a_url plain_lax false
                  (VStr "https://conda.anaconda.org/conda-forge")
                  (DStr "https://conda.anaconda.org/conda-forge")
                  plain_http_only)).
  reflexivity.
Defined.

Lemma list_elementwise_witness :
  exists ds,
    DList [DStr "linux-64"; DStr "osx-arm64"] = DList ds
    /\ Forall2 (fun x dx => @validate plain_lax false (TStr NonEmptyStr) x = Ok dx)
         [VStr "linux-64"; VStr "osx-arm64"] ds.
Proof.
  apply (proj1 (@list_elementwise plain_lax (TStr NonEmptyStr) false
                  [VStr "linux-64"; VStr "osx-arm64"]
                  (DList [DStr "linux-64"; DStr "osx-arm64"]) eq_refl)).
  reflexivity.
Defined.

Lemma dict_entrywise_witness :
  exists kds,
    DDict [("python", DStr "3.11")] = DDict kds
    /\ Forall2 (fun kv kd => fst kd = fst kv
                             /\ satisfies CondaPackageName (fst kv) = true
                             /\ @validate plain_lax false MatchSpec (snd kv)
                                = Ok (snd kd))
         [("python", VStr "3.11")] kds.
Proof.
  apply (proj1 (proj1 (@dict_entrywise plain_lax CondaPackageName MatchSpec false
                         [("python", VStr "3.11")]
                         (DDict [("python", DStr "3.11")]) eq_refl))).
  reflexivity.
Defined.

Lemma violations_are_located_witness :
  exists es,
    @model_validate plain_lax Project (VDict misspelt_project) = Err es
    /\ Forall (fun e => exists k rest,
                 loc e = Key k :: rest
                 /\ (declared (fields_of Project) k = true
                     \/ In k (map fst misspelt_project)))
         es.
Proof.
  eexists. split; [reflexivity|].
  apply (@violations_are_located plain_lax Project misspelt_project).
  - simpl. tauto.
  - reflexivity.
Defined.

Lemma missing_and_unknown_are_exact_witness :
  exists es,
    @model_validate plain_lax Project (VDict misspelt_project) = Err es
    /\ at_top MissingField es
       = [Violation [Key "name"] MissingField;
          Violation [Key "platforms"] MissingField]
    /\ at_top UnknownField es = [Violation [Key "nme"] UnknownField].
Proof.
  eexists. split; [reflexivity|].
  apply (@missing_and_unknown_are_exact plain_lax Project misspelt_project).
  - simpl. tauto.
  - reflexivity.
Defined.

Lemma failure_lists_a_violation_witness :
  [Violation [] TypeMismatch] <> [].
Proof.
  apply (@failure_lists_a_violation plain_lax Project VNone).
  - simpl. tauto.
  - reflexivity.
Defined.

Lemma key_order_is_irrelevant_witness :
  match @model_validate plain_lax Project (VDict name_then_platforms),
        @model_validate plain_lax Project (VDict platforms_then_name) with
  | Ok d, Ok d' => d = d'
  | Err es, Err es' => Permutation es es'
  | _, _ => False
  end.
Proof.
  apply (@key_order_is_irrelevant plain_lax Project
           name_then_platforms platforms_then_name).
  - simpl. tauto.
  - repeat constructor; simpl; intuition discriminate.
  - apply perm_swap.
Defined.

Lemma fields_are_independent_witness :
  exists d',
    @model_validate plain_lax Environment
      (VDict [("features", VList [VStr "no-such-feature"])]) = Ok d'
    /\ attr "features" d' = Some (DList [DStr "no-such-feature"]).
Proof.
  destruct (@fields_are_independent plain_lax Environment
              (defaulted "features" (TOptional (TList (TStr FeatureName))))
              [] (VList [VStr "no-such-feature"])
              (DModel "Environment" [("features", DNone); ("solve_group", DNone)])
              (DList [DStr "no-such-feature"]))
    as (d' & H1 & H2 & _).
  - simpl. tauto.
  - simpl. tauto.
  - reflexivity.
  - reflexivity.
  - reflexivity.
  - exists d'. split; [exact H1 | exact H2].
Defined.

Lemma Feature_extends_Target_witness :
  exists d', @model_validate plain_lax Feature (VDict python_dependency) = Ok d'.
Proof.
  edestruct (@Feature_extends_Target plain_lax python_dependency)
    as [_ (d' & H & _)].
  - vm_compute. reflexivity.
  - exists d'. exact H.
Defined.

Lemma closed_world_at_depth_witness :
  exists es,
    @model_validate plain_lax BaseManifest (VDict manifest_with_bogus_target_key)
    = Err es
    /\ In (Violation [Key "feature"; Key "py"; Key "target"; Key "linux-64";
                      Key "bogus"] UnknownField) es.
Proof.
  apply (@closed_world_at_depth plain_lax manifest_with_bogus_target_key
           [("py", VDict [("target",
                           VDict [("linux-64", VDict [("bogus", VInt 1)])])])]
           "py"
           [("target", VDict [("linux-64", VDict [("bogus", VInt 1)])])]
           [("linux-64", VDict [("bogus", VInt 1)])]
           "linux-64"
           [("bogus", VInt 1)]
           "bogus" (VInt 1)).
  - reflexivity.
  - simpl. tauto.
  - reflexivity.
  - simpl. tauto.
  - simpl. tauto.
  - reflexivity.
Defined.

Lemma GitUrl_accepts_fragments_witness :
  Regex.search GitUrl_re "see git:x for more" = true
  /\ Regex.search GitUrl_re "clone git@github.com:owner/repo.git" = true.
Proof.
  destruct (GitUrl_accepts_fragments "see " "x" EmptyString " for more" eq_refl)
    as [H1 _].
  destruct (GitUrl_accepts_fragments "clone " "o" "wner/repo.git" EmptyString eq_refl)
    as [_ H2].
  split.
  - apply (H1 "git"). simpl. tauto.
  - apply (H2 "g"%char "ithub.com"). reflexivity.
Defined.

Lemma GitUrl_needs_a_colon_witness : contains ":" "ssh://host/repo" = true.
Proof.
  apply (GitUrl_needs_a_colon "ssh://host/repo"). vm_compute. reflexivity.
Defined.

(** The repository of pixi itself is accepted, with the sample parser; the
    scp-style address of a repository and the bare scheme are not. *)
Lemma url_fields_witness :
  http_only plain_lax /\ http_needs_host plain_lax /\ http_accepts_plain plain_lax
  /\ (exists u,
        @model_validate plain_lax Project (project_with_repository pixi_repository)
        = Ok (DModel "Project"
                [("name", DStr "demo"); ("version", DNone); ("description", DNone);
                 ("authors", DNone); ("channels", DList [DStr "conda-forge"]);
                 ("platforms", DList [DStr "linux-64"]); ("license", DNone);
                 ("license_file", DNone); ("readme", DNone); ("homepage", DNone);
                 ("repository", DUrl u); ("documentation", DNone)]))
  /\ @model_validate plain_lax Project (project_with_repository scp_style_url)
     = Err [Violation [Key "repository"] ConstraintViolation]
  /\ @model_validate plain_lax Project (project_with_repository scheme_only_url)
     = Err [Violation [Key "repository"] ConstraintViolation].
Proof.
  destruct (@url_fields plain_lax plain_http_only plain_needs_host
              plain_accepts_plain) as (_ & _ & _ & _ & _ & Hacc & _ & Hrej & Hso).
  split; [exact plain_http_only|].
  split; [exact plain_needs_host|].
  split; [exact plain_accepts_plain|].
  split; [exact Hacc|].
  split; [exact Hrej | exact Hso].
Defined.

(** The manifest whose project table is empty: name and platforms are
    missing one level down, and both are reported. *)
Lemma aggregation_witness :
  exists es,
    @model_validate plain_lax BaseManifest (VDict empty_project) = Err es
    /\ incl empty_project_problems es
    /\ 2 <= List.length es.
Proof.
  assert (Hp : forall n t,
             In (required n t) (fields_of Project) ->
             @problem plain_lax false BaseManifest (VDict empty_project)
               (Violation [Key "project"; Key n] MissingField)).
  { intros n t Hin.
    change (@problem plain_lax false
              (TModel "BaseManifest" (fields_of BaseManifest)) (VDict empty_project)
              (below (Key (field_key (required "project" Project)))
                 (missing (field_key (required n t))))).
    apply problem_field with (v := VDict []).
    - reflexivity.
    - simpl. tauto.
    - reflexivity.
    - change (ftype (required "project" Project))
        with (TModel "Project" (fields_of Project)).
      apply problem_missing; [reflexivity | exact Hin | reflexivity | reflexivity]. }
  destruct (@aggregation plain_lax BaseManifest empty_project empty_project_problems)
    as [(es & H1 & H2 & H3 & _) _].
  - simpl. tauto.
  - repeat constructor; simpl; intuition discriminate.
  - repeat constructor.
  - intros p [<- | [<- | []]].
    + apply (Hp "name" (TStr NonEmptyStr)). simpl. tauto.
    + apply (Hp "platforms" (TList (TStr NonEmptyStr))). simpl. tauto.
  - exists es. split; [exact H1|]. split; [exact H2 | exact H3].
Defined.
